(** * Kora rent-reclaim bot: a shallow embedding and its properties

    The model follows the TypeScript sources, one module per file:
    - the enums and records of [types/index.ts], at top level;
    - [DatabaseService]        [services/database.ts];
    - [Rpc]                    the RPC node as the bot sees it;
    - [Helpers]                [utils/helpers.ts]: [sleep], [RateLimiter],
                               [withRetry], [ageInDays];
    - [SolanaService]          [services/solana.ts];
    - [RentReclaimService]     [services/reclaim.ts];
    - [AccountMonitorService]  [services/monitor.ts].
    Then come the vocabulary of the statements, concrete scenarios, and the
    proofs.

    Conventions.
    - A JS [number] holding a count of lamports, a slot or a time stamp is a
      [Z]; a [number] that the code divides or multiplies by a rate (bucket
      tokens, back-off delays, ages in days) is a [Q], that is, IEEE rounding
      is idealised to exact rational arithmetic.
    - A [Date] is its [getTime()] value, a [Z] of milliseconds.  The store
      keeps dates as ISO-8601 text and compares them as text; for years
      0000..9999 that order is the order of the millisecond values, which is
      what the model compares.
    - [x || null], [x || undefined] and [if (x)] on a string or a number
      follow JS truthiness: the empty string and 0 are falsy.
    - Handles and program ids are base58 strings that [new PublicKey(..)]
      accepts (they come from [toBase58()] or from the RPC node), so public
      keys are compared as strings.
    - [async] code is sequential here: one logical thread per cycle, so an
      [await] is a plain bind in the monad [M] over [World].
    - Logging and the audit file are external collaborators and are left
      out; writing the database file ([save]) is too. *)

From Stdlib Require Import ZArith QArith Qround Qminmax List String Ascii Bool Lia.
From Stdlib Require Import Sorted Permutation DecimalString Qfield Lqa.
Import ListNotations.
Open Scope string_scope.
Open Scope Z_scope.

(* ================================================================== *)
(** * Types ([types/index.ts]) *)
(* ================================================================== *)

Inductive AccountStatus : Type :=
| ACTIVE | EMPTY | CLOSED | RECLAIMED | PROTECTED | ERROR.

Inductive AccountType : Type :=
| SYSTEM | TOKEN | TOKEN_2022 | ATA | PDA | UNKNOWN.

Definition AccountStatus_eqb (a b : AccountStatus) : bool :=
  match a, b with
  | ACTIVE, ACTIVE | EMPTY, EMPTY | CLOSED, CLOSED
  | RECLAIMED, RECLAIMED | PROTECTED, PROTECTED | ERROR, ERROR => true
  | _, _ => false
  end.

(** The string value of each enum member, as interpolated in messages. *)
Definition AccountType_value (t : AccountType) : string :=
  match t with
  | SYSTEM => "system" | TOKEN => "token" | TOKEN_2022 => "token_2022"
  | ATA => "ata" | PDA => "pda" | UNKNOWN => "unknown"
  end.

Record SponsoredAccount : Type := {
  pubkey : string;
  type : AccountType;
  status : AccountStatus;
  lamports : Z;
  rentExemptMinimum : Z;
  owner : string;
  creationTxSignature : string;
  creationSlot : Z;
  createdAt : Z;
  lastCheckedAt : Z;
  closedAt : option Z;
  reclaimedAt : option Z;
  reclaimTxSignature : option string;
  reclaimedAmount : option Z;
  errorMessage : option string;
  metadata : option string
}.

(** [Partial<SponsoredAccount>] as [updateAccountStatus] reads it: only
    these six properties are looked at. *)
Record PartialAccount : Type := {
  p_lamports : option Z;
  p_closedAt : option Z;
  p_reclaimedAt : option Z;
  p_reclaimTxSignature : option string;
  p_reclaimedAmount : option Z;
  p_errorMessage : option string
}.

Definition no_fields : PartialAccount :=
  {| p_lamports := None; p_closedAt := None; p_reclaimedAt := None;
     p_reclaimTxSignature := None; p_reclaimedAmount := None;
     p_errorMessage := None |}.

Record ReclaimResult : Type := {
  success : bool;
  account : string;
  amount : Z;
  signature : option string;
  error : option string;
  dryRun : bool;
  timestamp : Z
}.

Record BotConfig : Type := {
  koraFeePayer : string;
  operatorPublicKey : string;      (* [operatorKeypair.publicKey] *)
  treasuryPubkey : option string;
  minAccountAgeDays : Z;
  minReclaimLamports : Z;
  maxBatchSize : nat;
  cfg_dryRun : bool;
  allowedPrograms : list string;
  blockedPrograms : list string;
  rpcRateLimit : Q;
  txDelayMs : Z
}.

(** JS truthiness of optional strings and numbers. *)
Definition truthy_string (o : option string) : option string :=
  match o with
  | Some s => if String.eqb s "" then None else Some s
  | None => None
  end.

Definition truthy_number (o : option Z) : option Z :=
  match o with
  | Some n => if n =? 0 then None else Some n
  | None => None
  end.

(** SQL [COALESCE(new, old)]. *)
Definition COALESCE {A : Type} (new old : option A) : option A :=
  match new with
  | Some v => Some v
  | None => old
  end.

(* ================================================================== *)
(** * The store ([services/database.ts]) *)
(* ================================================================== *)

Module DatabaseService.

(** One row of [sponsored_accounts]; [pubkey] is the primary key. *)
Record Row : Type := {
  r_pubkey : string;
  r_type : AccountType;
  r_status : AccountStatus;
  r_lamports : Z;
  r_rent_exempt_minimum : Z;
  r_owner : string;
  r_creation_tx_signature : string;
  r_creation_slot : Z;
  r_created_at : Z;
  r_last_checked_at : Z;
  r_closed_at : option Z;
  r_reclaimed_at : option Z;
  r_reclaim_tx_signature : option string;
  r_reclaimed_amount : option Z;
  r_error_message : option string;
  r_metadata : option string
}.

(** One row of [reclaim_history]; the autoincrement id is the position. *)
Record Attempt : Type := {
  h_account_pubkey : string;
  h_tx_signature : option string;
  h_amount : Z;
  h_success : bool;
  h_dry_run : bool;
  h_error_message : option string;
  h_created_at : Z
}.

(** One row of [bot_state]. *)
Record StateRow : Type := {
  s_key : string;
  s_value : string;
  s_updated_at : Z
}.

(** The tables, rows in insertion (rowid) order. *)
Record Database : Type := {
  sponsored_accounts : list Row;
  reclaim_history : list Attempt;
  bot_state : list StateRow
}.

Definition empty : Database :=
  {| sponsored_accounts := []; reclaim_history := []; bot_state := [] |}.

Definition with_accounts (rows : list Row) (db : Database) : Database :=
  {| sponsored_accounts := rows;
     reclaim_history := reclaim_history db;
     bot_state := bot_state db |}.

Definition rowToAccount (row : Row) : SponsoredAccount :=
  {| pubkey := r_pubkey row;
     type := r_type row;
     status := r_status row;
     lamports := r_lamports row;
     rentExemptMinimum := r_rent_exempt_minimum row;
     owner := r_owner row;
     creationTxSignature := r_creation_tx_signature row;
     creationSlot := r_creation_slot row;
     createdAt := r_created_at row;
     lastCheckedAt := r_last_checked_at row;
     closedAt := r_closed_at row;
     reclaimedAt := r_reclaimed_at row;
     reclaimTxSignature := truthy_string (r_reclaim_tx_signature row);
     reclaimedAmount := truthy_number (r_reclaimed_amount row);
     errorMessage := truthy_string (r_error_message row);
     metadata := truthy_string (r_metadata row) |}.

Definition has_pubkey (pk : string) (row : Row) : bool :=
  String.eqb (r_pubkey row) pk.

(** [SELECT * FROM sponsored_accounts WHERE pubkey = ?], first row. *)
Definition getAccount (pk : string) (db : Database) : option SponsoredAccount :=
  option_map rowToAccount (find (has_pubkey pk) (sponsored_accounts db)).

(** The [UPDATE ... WHERE pubkey = ?] of [upsertAccount], on one row. *)
Definition upsert_update (a : SponsoredAccount) (row : Row) : Row :=
  {| r_pubkey := r_pubkey row;
     r_type := r_type row;
     r_status := status a;
     r_lamports := lamports a;
     r_rent_exempt_minimum := r_rent_exempt_minimum row;
     r_owner := r_owner row;
     r_creation_tx_signature := r_creation_tx_signature row;
     r_creation_slot := r_creation_slot row;
     r_created_at := r_created_at row;
     r_last_checked_at := lastCheckedAt a;
     r_closed_at := COALESCE (closedAt a) (r_closed_at row);
     r_reclaimed_at := COALESCE (reclaimedAt a) (r_reclaimed_at row);
     r_reclaim_tx_signature :=
       COALESCE (truthy_string (reclaimTxSignature a)) (r_reclaim_tx_signature row);
     r_reclaimed_amount :=
       COALESCE (truthy_number (reclaimedAmount a)) (r_reclaimed_amount row);
     r_error_message := truthy_string (errorMessage a);
     r_metadata := r_metadata row |}.

(** The row that the [INSERT] of [upsertAccount] writes. *)
Definition upsert_insert (a : SponsoredAccount) : Row :=
  {| r_pubkey := pubkey a;
     r_type := type a;
     r_status := status a;
     r_lamports := lamports a;
     r_rent_exempt_minimum := rentExemptMinimum a;
     r_owner := owner a;
     r_creation_tx_signature := creationTxSignature a;
     r_creation_slot := creationSlot a;
     r_created_at := createdAt a;
     r_last_checked_at := lastCheckedAt a;
     r_closed_at := closedAt a;
     r_reclaimed_at := reclaimedAt a;
     r_reclaim_tx_signature := truthy_string (reclaimTxSignature a);
     r_reclaimed_amount := truthy_number (reclaimedAmount a);
     r_error_message := truthy_string (errorMessage a);
     r_metadata := metadata a |}.

(** [UPDATE t SET ... WHERE pubkey = ?]: every matching row is rewritten. *)
Definition update_where (pk : string) (f : Row -> Row) (rows : list Row) : list Row :=
  map (fun row => if has_pubkey pk row then f row else row) rows.

Definition upsertAccount (a : SponsoredAccount) (db : Database) : Database :=
  match getAccount (pubkey a) db with
  | Some _ =>
      with_accounts (update_where (pubkey a) (upsert_update a) (sponsored_accounts db)) db
  | None =>
      with_accounts (sponsored_accounts db ++ [upsert_insert a]) db
  end.

Definition MS_PER_DAY : Z := 24 * 60 * 60 * 1000.

(** The [WHERE] clause of [getReclaimableAccounts]; a NULL [closed_at]
    makes [closed_at < ?] unknown, so the row is not selected. *)
Definition reclaimable (cutoffDate : Z) (row : Row) : bool :=
  AccountStatus_eqb (r_status row) CLOSED
  && match r_closed_at row with
     | Some c => c <? cutoffDate
     | None => false
     end
  && match r_reclaimed_at row with
     | None => true
     | Some _ => false
     end.

(** The order of [ORDER BY closed_at ASC]: NULL sorts first. *)
Definition closed_at_leb (a b : Row) : bool :=
  match r_closed_at a, r_closed_at b with
  | None, _ => true
  | Some _, None => false
  | Some x, Some y => x <=? y
  end.

(** A stable insertion sort: rows with equal keys stay in table order. *)
Fixpoint order_insert (x : Row) (l : list Row) : list Row :=
  match l with
  | [] => [x]
  | y :: l' => if closed_at_leb x y then x :: y :: l' else y :: order_insert x l'
  end.

Fixpoint ORDER_BY_closed_at (l : list Row) : list Row :=
  match l with
  | [] => []
  | x :: l' => order_insert x (ORDER_BY_closed_at l')
  end.

(** [limit] is a row count (the caller passes [maxBatchSize], validated to
    1..1000 by the configuration loader). *)
Definition getReclaimableAccounts (minAgeDays : Z) (limit : nat) (now : Z)
    (db : Database) : list SponsoredAccount :=
  let cutoffDate := now - minAgeDays * MS_PER_DAY in
  map rowToAccount
    (firstn limit
       (ORDER_BY_closed_at (filter (reclaimable cutoffDate) (sponsored_accounts db)))).

(** The [SET] list that [updateAccountStatus] builds, applied to one row. *)
Definition status_update (st : AccountStatus) (now : Z) (f : PartialAccount)
    (row : Row) : Row :=
  {| r_pubkey := r_pubkey row;
     r_type := r_type row;
     r_status := st;
     r_lamports := match p_lamports f with Some v => v | None => r_lamports row end;
     r_rent_exempt_minimum := r_rent_exempt_minimum row;
     r_owner := r_owner row;
     r_creation_tx_signature := r_creation_tx_signature row;
     r_creation_slot := r_creation_slot row;
     r_created_at := r_created_at row;
     r_last_checked_at := now;
     r_closed_at := COALESCE (p_closedAt f) (r_closed_at row);
     r_reclaimed_at := COALESCE (p_reclaimedAt f) (r_reclaimed_at row);
     r_reclaim_tx_signature :=
       COALESCE (truthy_string (p_reclaimTxSignature f)) (r_reclaim_tx_signature row);
     r_reclaimed_amount := COALESCE (p_reclaimedAmount f) (r_reclaimed_amount row);
     r_error_message := COALESCE (p_errorMessage f) (r_error_message row);
     r_metadata := r_metadata row |}.

Definition updateAccountStatus (pk : string) (st : AccountStatus)
    (additionalFields : PartialAccount) (now : Z) (db : Database) : Database :=
  with_accounts
    (update_where pk (status_update st now additionalFields) (sponsored_accounts db)) db.

Definition recordReclaimAttempt (accountPubkey : string) (txSignature : option string)
    (amt : Z) (ok : bool) (dry : bool) (errorMsg : option string) (now : Z)
    (db : Database) : Database :=
  {| sponsored_accounts := sponsored_accounts db;
     reclaim_history :=
       reclaim_history db ++
       [ {| h_account_pubkey := accountPubkey;
            h_tx_signature := txSignature;
            h_amount := amt;
            h_success := ok;
            h_dry_run := dry;
            h_error_message := truthy_string errorMsg;
            h_created_at := now |} ];
     bot_state := bot_state db |}.

Definition markAsReclaimed (pk : string) (txSignature : option string) (amt : Z)
    (now : Z) (db : Database) : Database :=
  let db1 :=
    updateAccountStatus pk RECLAIMED
      {| p_lamports := None; p_closedAt := None;
         p_reclaimedAt := Some now;
         p_reclaimTxSignature := truthy_string txSignature;
         p_reclaimedAmount := Some amt;
         p_errorMessage := None |} now db in
  recordReclaimAttempt pk txSignature amt true false None now db1.

Definition getState (key : string) (db : Database) : option string :=
  option_map s_value (find (fun r => String.eqb (s_key r) key) (bot_state db)).

(** [INSERT OR REPLACE]: the row with this key, if any, is deleted and the
    new one is appended. *)
Definition setState (key value : string) (now : Z) (db : Database) : Database :=
  {| sponsored_accounts := sponsored_accounts db;
     reclaim_history := reclaim_history db;
     bot_state :=
       filter (fun r => negb (String.eqb (s_key r) key)) (bot_state db)
       ++ [ {| s_key := key; s_value := value; s_updated_at := now |} ] |}.

Definition getLastProcessedSignature (db : Database) : option string :=
  getState "last_processed_signature" db.

Definition setLastProcessedSignature (sig : string) (now : Z) (db : Database) : Database :=
  setState "last_processed_signature" sig now db.

End DatabaseService.

(* ================================================================== *)
(** * The RPC node, seen from the bot *)
(* ================================================================== *)

(** The remote ledger is outside the repository.  It is an oracle: the
    n-th request that reaches it is answered from the snapshot [node n], so
    the chain may change between any two requests (this is what a revival
    is) and any request may fail with a transport error. *)
Module Rpc.

Record ConfirmedSignatureInfo : Type := {
  sig_signature : string;
  sig_err : bool                       (* [sigInfo.err] is set *)
}.

(** An inner instruction: parsed, with [parsed.type] and
    [parsed.info.account], or only partially decoded. *)
Inductive InnerInstruction : Type :=
| Parsed (parsed_type : string) (info_account : option string)
| PartiallyDecoded.

Record TransactionMeta : Type := {
  preBalances : list Z;
  postBalances : list Z;
  innerInstructions : option (list (list InnerInstruction))
}.

Record ParsedTransactionWithMeta : Type := {
  tx_slot : Z;
  tx_blockTime : option Z;
  tx_signatures_0 : string;            (* [tx.transaction.signatures[0]] *)
  tx_accountKeys : list string;        (* [message.accountKeys[i].pubkey] *)
  tx_meta : option TransactionMeta
}.

Record AccountInfo : Type := {
  ai_lamports : Z;
  ai_owner : string;
  ai_data_length : Z
}.

(** What [getAccount] of spl-token unpacks. *)
Record TokenAccount : Type := {
  ta_owner : string;
  ta_closeAuthority : option string;
  ta_amount : Z
}.

Inductive TokenLookup : Type :=
| TokenAccountFound (t : TokenAccount)
| TokenAccountNotFoundError
| TokenAccountOtherError (message : string).

Inductive TransactionInstruction : Type :=
| CloseAccount (acct destination authority programId : string)
| Transfer (fromPubkey toPubkey : string) (amt : Z).

Record Ledger : Type := {
  signatures : list ConfirmedSignatureInfo;   (* of the fee payer, newest first *)
  parsedTransaction : string -> option ParsedTransactionWithMeta;
  accountInfo : string -> option AccountInfo;
  minimumBalanceForRentExemption : Z -> Z;
  tokenAccount : string -> string -> TokenLookup;
  balance : string -> Z;
  slot : Z;
  blockTime : Z -> option Z;
  confirmed : TransactionInstruction -> string  (* signature of a confirmed send *)
}.

Record Reply : Type := {
  fault : option string;     (* the request fails with [new Error(fault)] *)
  latency : Z;               (* milliseconds the round trip takes *)
  ledger : Ledger
}.

Inductive Request : Type :=
| GetSignaturesForAddress (before : option string) (limit : nat)
| GetParsedTransaction (sig : string)
| GetAccountInfo (pk : string)
| GetMinimumBalanceForRentExemption (dataSize : Z)
| GetTokenAccount (pk programId : string)
| SendAndConfirmTransaction (ix : TransactionInstruction)
| GetBalance (pk : string)
| GetSlot
| GetBlockTime (s : Z).

End Rpc.

(* ================================================================== *)
(** * The world and the monad of effects *)
(* ================================================================== *)

Record RateLimiter : Type := {
  tokens : Q;
  lastRefill : Z;
  maxTokens : Q;
  refillRate : Q
}.

(** What an observer can see the bot do, newest event first. *)
Inductive Event : Type :=
| Acquired                       (* a rate-limiter token was consumed *)
| Slept (ms : Q)                 (* [sleep(ms)] was awaited *)
| Sent (r : Rpc.Request).        (* a request went to the RPC node *)

Record World : Type := {
  db : DatabaseService.Database;
  rateLimiter : RateLimiter;
  clock : Z;                     (* [Date.now()] *)
  served : nat;                  (* requests the node has answered so far *)
  node : nat -> Rpc.Reply;
  trace : list Event
}.

Definition set_db (d : DatabaseService.Database) (w : World) : World :=
  {| db := d; rateLimiter := rateLimiter w; clock := clock w;
     served := served w; node := node w; trace := trace w |}.

Definition set_rateLimiter (l : RateLimiter) (w : World) : World :=
  {| db := db w; rateLimiter := l; clock := clock w;
     served := served w; node := node w; trace := trace w |}.

Definition advance (ms : Z) (w : World) : World :=
  {| db := db w; rateLimiter := rateLimiter w; clock := clock w + ms;
     served := served w; node := node w; trace := trace w |}.

Definition record (e : Event) (w : World) : World :=
  {| db := db w; rateLimiter := rateLimiter w; clock := clock w;
     served := served w; node := node w; trace := e :: trace w |}.

Definition next_request (w : World) : World :=
  {| db := db w; rateLimiter := rateLimiter w; clock := clock w;
     served := S (served w); node := node w; trace := trace w |}.

(** A thrown value: an [Error] with its message, or [undefined]. *)
Inductive Thrown : Type :=
| Error (message : string)
| Undefined.

Inductive Completion (A : Type) : Type :=
| Return (a : A)
| Throw (e : Thrown).
Arguments Return {A} a.
Arguments Throw {A} e.

Definition M (A : Type) : Type := World -> World * Completion A.

Definition ret {A : Type} (a : A) : M A := fun w => (w, Return a).

Definition throw {A : Type} (e : Thrown) : M A := fun w => (w, Throw e).

Definition bind {A B : Type} (c : M A) (k : A -> M B) : M B :=
  fun w =>
    match c w with
    | (w', Return a) => k a w'
    | (w', Throw e) => (w', Throw e)
    end.

(** [try { c } catch (err) { handler(err) }] *)
Definition try_catch {A : Type} (c : M A) (handler : Thrown -> M A) : M A :=
  fun w =>
    match c w with
    | (w', Return a) => (w', Return a)
    | (w', Throw e) => handler e w'
    end.

(** A store operation, which reads the clock for its [new Date()]. *)
Definition db_write (f : Z -> DatabaseService.Database -> DatabaseService.Database)
  : M unit :=
  fun w => (set_db (f (clock w) (db w)) w, Return tt).

Definition db_read {A : Type} (f : DatabaseService.Database -> A) : M A :=
  fun w => (w, Return (f (db w))).

Definition Date_now : M Z := fun w => (w, Return (clock w)).

Declare Scope monad_scope.
Delimit Scope monad_scope with monad.
Notation "x <- c ;; k" := (bind c (fun x => k))
  (at level 61, c at next level, right associativity) : monad_scope.
Notation "c ;; k" := (bind c (fun _ => k))
  (at level 61, right associativity) : monad_scope.
Open Scope monad_scope.

(** [err instanceof Error ? err.message : String(err)] *)
Definition message_of (e : Thrown) : string :=
  match e with
  | Error m => m
  | Undefined => "undefined"
  end.

(** One request to the node: it is answered from the next snapshot, takes
    that snapshot's latency, and either fails or yields [answer]. *)
Definition request {A : Type} (r : Rpc.Request) (answer : Rpc.Ledger -> A) : M A :=
  fun w =>
    let reply := node w (served w) in
    let w' := record (Sent r) (advance (Rpc.latency reply) (next_request w)) in
    match Rpc.fault reply with
    | Some m => (w', Throw (Error m))
    | None => (w', Return (answer (Rpc.ledger reply)))
    end.

(* ================================================================== *)
(** * Utilities ([utils/helpers.ts]) *)
(* ================================================================== *)

Module Helpers.

(** [sleep(ms)]: the timer fires after [ms] milliseconds; the clock is in
    whole milliseconds and never runs backwards. *)
Definition sleep (ms : Q) : M unit :=
  fun w => (record (Slept ms) (advance (Z.max 0 (Qceiling ms)) w), Return tt).

(** [RateLimiter.refill] at time [now]. *)
Definition refill (now : Z) (l : RateLimiter) : RateLimiter :=
  let elapsed := (inject_Z (now - lastRefill l) / 1000)%Q in
  {| tokens := Qmin (maxTokens l) (tokens l + elapsed * refillRate l)%Q;
     lastRefill := now;
     maxTokens := maxTokens l;
     refillRate := refillRate l |}.

(** [this.tokens -= 1] *)
Definition consume (l : RateLimiter) : RateLimiter :=
  {| tokens := (tokens l - 1)%Q;
     lastRefill := lastRefill l;
     maxTokens := maxTokens l;
     refillRate := refillRate l |}.

(** [new RateLimiter(requestsPerSecond)] at time [now]. *)
Definition new_RateLimiter (requestsPerSecond : Q) (now : Z) : RateLimiter :=
  {| tokens := requestsPerSecond;
     lastRefill := now;
     maxTokens := requestsPerSecond;
     refillRate := requestsPerSecond |}.

Definition do_refill (w : World) : World :=
  set_rateLimiter (refill (clock w) (rateLimiter w)) w.

Definition do_consume (w : World) : World :=
  record Acquired (set_rateLimiter (consume (rateLimiter w)) w).

(** [Math.ceil((1 - this.tokens) / this.refillRate * 1000)] *)
Definition waitTime (l : RateLimiter) : Z :=
  Qceiling ((1 - tokens l) / refillRate l * 1000)%Q.

(** [RateLimiter.acquire]; [refillRate] is positive (the configuration
    loader rejects a rate below 1). *)
Definition acquire : M unit :=
  fun w =>
    let w1 := do_refill w in
    if Qle_bool 1 (tokens (rateLimiter w1)) then
      (do_consume w1, Return tt)
    else
      let w2 := fst (sleep (inject_Z (waitTime (rateLimiter w1))) w1) in
      let w3 := do_refill w2 in
      (do_consume w3, Return tt).

Record RetryOptions : Type := {
  maxAttempts : Z;
  initialDelayMs : Q;
  maxDelayMs : Q;
  backoffMultiplier : Q;
  retryableErrors : option (list string)
}.

Definition DEFAULT_RETRY_OPTIONS : RetryOptions :=
  {| maxAttempts := 3;
     initialDelayMs := 1000;
     maxDelayMs := 30000;
     backoffMultiplier := 2;
     retryableErrors :=
       Some ["ECONNRESET"; "ETIMEDOUT"; "ENOTFOUND"; "429"; "503"; "502"; "504";
             "rate limit"; "timeout"] |}.

(** [String.prototype.toLowerCase] on the ASCII letters. *)
Definition lower_ascii (c : ascii) : ascii :=
  let n := nat_of_ascii c in
  if (Nat.leb 65 n && Nat.leb n 90)%bool then ascii_of_nat (n + 32) else c.

Fixpoint toLowerCase (s : string) : string :=
  match s with
  | EmptyString => EmptyString
  | String c s' => String (lower_ascii c) (toLowerCase s')
  end.

(** [s.includes(sub)] *)
Fixpoint includes (s sub : string) : bool :=
  (String.prefix sub s
   || match s with
      | EmptyString => false
      | String _ s' => includes s' sub
      end)%bool.

(** [opts.retryableErrors?.some(e => errorMessage.includes(e.toLowerCase()))],
    as the truth value that [!isRetryable] tests: [undefined] is falsy. *)
Definition isRetryable (opts : RetryOptions) (errorMessage : string) : bool :=
  match retryableErrors opts with
  | Some errs => existsb (fun e => includes errorMessage (toLowerCase e)) errs
  | None => false
  end.

Definition TypeError_message : string :=
  "Cannot read properties of undefined (reading 'message')".

(** The [for] loop of [withRetry]; [remaining] counts the iterations that
    [attempt <= opts.maxAttempts] still allows. *)
Fixpoint retry_loop {T : Type} (fn : M T) (opts : RetryOptions) (remaining : nat)
    (attempt : Z) (delay : Q) (lastError : Thrown) : M T :=
  match remaining with
  | O => throw lastError
  | S remaining' =>
      fun w =>
        match fn w with
        | (w1, Return v) => (w1, Return v)
        | (w1, Throw Undefined) => (w1, Throw (Error TypeError_message))
        | (w1, Throw (Error m)) =>
            if (negb (isRetryable opts (toLowerCase m))
                || (attempt =? maxAttempts opts))%bool
            then (w1, Throw (Error m))
            else
              retry_loop fn opts remaining' (attempt + 1)
                (Qmin (delay * backoffMultiplier opts) (maxDelayMs opts))
                (Error m)
                (fst (sleep delay w1))
        end
  end.

(** [withRetry(fn, options)], with [opts] the options already merged over
    the defaults (every call in the repository passes none). *)
Definition withRetry {T : Type} (fn : M T) (opts : RetryOptions) : M T :=
  retry_loop fn opts (Z.to_nat (maxAttempts opts)) 1 (initialDelayMs opts) Undefined.

(** [ageInDays(timestamp)] for a [Date], at time [now]. *)
Definition ageInDays (ts : Z) (now : Z) : Q :=
  (inject_Z (now - ts) / inject_Z (1000 * 60 * 60 * 24))%Q.

(** Decimal rendering of an integer, as in a template literal. *)
Definition decimal (n : Z) : string :=
  NilZero.string_of_int (Z.to_int n).

(** [x.toFixed(1)]: nearest tenth, a tie going away from zero. *)
Definition toFixed1 (x : Q) : string :=
  let neg := match Qlt_le_dec x 0 with left _ => true | right _ => false end in
  let a := if neg then (- x)%Q else x in
  let n := Qfloor (a * 10 + (1 # 2))%Q in
  ((if neg then "-" else "") ++ decimal (n / 10) ++ "." ++ decimal (n mod 10))%string.

End Helpers.

(* ================================================================== *)
(** * The gateway ([services/solana.ts]) *)
(* ================================================================== *)

Module SolanaService.
Import Helpers.

(** [SystemProgram.programId], [TOKEN_PROGRAM_ID], [TOKEN_2022_PROGRAM_ID]
    in base58, and the literal of [KNOWN_PROGRAMS.ASSOCIATED_TOKEN]. *)
Definition SYSTEM_PROGRAM_ID : string := "11111111111111111111111111111111".
Definition TOKEN_PROGRAM_ID : string := "TokenkegQfeZyiNwAJbNbGKPFXCWuBvf9Ss623VQ5DA".
Definition TOKEN_2022_PROGRAM_ID : string := "TokenzQdBNbLqP5VEhdkAS6EPFLC1PHnBqCXEpPxuEb".
Definition ASSOCIATED_TOKEN : string := "ATokenGPvbdGVxr1b2hvZbsiqW5xWH25efTNsLJA8knL".

(** The two lines that every rate-limited method repeats:
    [await this.rateLimiter.acquire(); ... await withRetry(async () => call)]. *)
Definition limited {A : Type} (call : M A) : M A :=
  acquire ;; withRetry call DEFAULT_RETRY_OPTIONS.

(** What the node lists for [{ limit, before }]: the signatures older than
    [before], newest first, at most [limit] of them. *)
Fixpoint older_than (b : string) (l : list Rpc.ConfirmedSignatureInfo)
  : list Rpc.ConfirmedSignatureInfo :=
  match l with
  | [] => []
  | s :: l' => if String.eqb (Rpc.sig_signature s) b then l' else older_than b l'
  end.

Definition signatures_page (before : option string) (limit : nat) (L : Rpc.Ledger)
  : list Rpc.ConfirmedSignatureInfo :=
  firstn limit
    match before with
    | Some b => older_than b (Rpc.signatures L)
    | None => Rpc.signatures L
    end.

(** The [for (const sigInfo of signatures)] loop of
    [scanSponsoredTransactions]. *)
Fixpoint fetch_transactions (sigs : list Rpc.ConfirmedSignatureInfo)
    (transactions : list Rpc.ParsedTransactionWithMeta)
  : M (list Rpc.ParsedTransactionWithMeta) :=
  match sigs with
  | [] => ret transactions
  | sigInfo :: rest =>
      if Rpc.sig_err sigInfo then fetch_transactions rest transactions
      else
        acquire ;;
        transactions' <-
          try_catch
            (tx <- withRetry
                     (request (Rpc.GetParsedTransaction (Rpc.sig_signature sigInfo))
                        (fun L => Rpc.parsedTransaction L (Rpc.sig_signature sigInfo)))
                     DEFAULT_RETRY_OPTIONS ;;
             ret match tx with
                 | Some t => (transactions ++ [t])%list
                 | None => transactions
                 end)
            (fun _ => ret transactions) ;;
        fetch_transactions rest transactions'
  end.

Definition scanSponsoredTransactions (beforeSignature : option string) (limit : nat)
  : M (list Rpc.ParsedTransactionWithMeta * option string) :=
  sigs <- limited (request (Rpc.GetSignaturesForAddress beforeSignature limit)
                     (signatures_page beforeSignature limit)) ;;
  match sigs with
  | [] => ret ([], None)
  | _ :: _ =>
      transactions <- fetch_transactions sigs [] ;;
      ret (transactions,
           truthy_string
             (option_map Rpc.sig_signature (nth_error sigs (List.length sigs - 1)%nat)))
  end.

(** The balance loop of [extractCreatedAccounts]: index [i] runs over
    [accountKeys]; a missing balance is [undefined] and fails the test. *)
Fixpoint created_by_balance (feePayer : string) (accountKeys : list string)
    (pre post : list Z) : list string :=
  match accountKeys with
  | [] => []
  | pk :: keys =>
      let rest := created_by_balance feePayer keys (tl pre) (tl post) in
      match pre, post with
      | b0 :: _, b1 :: _ =>
          if ((b0 =? 0) && (0 <? b1) && negb (String.eqb pk feePayer))%bool
          then pk :: rest else rest
      | _, _ => rest
      end
  end.

Definition string_in (s : string) (l : list string) : bool :=
  existsb (String.eqb s) l.

(** The inner-instruction loop: [createdAccounts.push(account)] for each
    parsed [initializeAccount] whose account is not yet listed. *)
Definition created_by_instruction (createdAccounts : list string)
    (ix : Rpc.InnerInstruction) : list string :=
  match ix with
  | Rpc.Parsed ty (Some acct) =>
      if (String.eqb ty "initializeAccount"
          && negb (String.eqb acct "")
          && negb (string_in acct createdAccounts))%bool
      then (createdAccounts ++ [acct])%list else createdAccounts
  | _ => createdAccounts
  end.

Definition extractCreatedAccounts (cfg : BotConfig)
    (tx : Rpc.ParsedTransactionWithMeta) : list string :=
  match Rpc.tx_meta tx with
  | None => []
  | Some meta =>
      let createdAccounts :=
        created_by_balance (koraFeePayer cfg) (Rpc.tx_accountKeys tx)
          (Rpc.preBalances meta) (Rpc.postBalances meta) in
      match Rpc.innerInstructions meta with
      | None => createdAccounts
      | Some inners => fold_left created_by_instruction (List.concat inners) createdAccounts
      end
  end.

Record AccountState : Type := {
  state_exists : bool;
  state_lamports : Z;
  state_owner : string;
  state_type : AccountType;
  state_rentExemptMinimum : Z
}.

Definition detectAccountType (info : Rpc.AccountInfo) : AccountType :=
  let o := Rpc.ai_owner info in
  if String.eqb o SYSTEM_PROGRAM_ID then SYSTEM
  else if String.eqb o TOKEN_PROGRAM_ID then TOKEN
  else if String.eqb o TOKEN_2022_PROGRAM_ID then TOKEN_2022
  else if String.eqb o ASSOCIATED_TOKEN then ATA
  else if 0 <? Rpc.ai_data_length info then PDA
  else UNKNOWN.

Definition getRentExemptMinimum (dataSize : Z) : M Z :=
  limited (request (Rpc.GetMinimumBalanceForRentExemption dataSize)
             (fun L => Rpc.minimumBalanceForRentExemption L dataSize)).

Definition checkAccountState (pk : string) : M AccountState :=
  acquire ;;
  try_catch
    (info <- withRetry (request (Rpc.GetAccountInfo pk) (fun L => Rpc.accountInfo L pk))
               DEFAULT_RETRY_OPTIONS ;;
     match info with
     | None =>
         ret {| state_exists := false; state_lamports := 0; state_owner := "";
                state_type := UNKNOWN; state_rentExemptMinimum := 0 |}
     | Some ai =>
         let ty := detectAccountType ai in
         rent <- getRentExemptMinimum (Rpc.ai_data_length ai) ;;
         ret {| state_exists := true; state_lamports := Rpc.ai_lamports ai;
                state_owner := Rpc.ai_owner ai; state_type := ty;
                state_rentExemptMinimum := rent |}
     end)
    (fun err => throw err).

(** The object that the two reclaim methods return. *)
Record Outcome : Type := {
  o_success : bool;
  o_signature : option string;
  o_amount : option Z;
  o_error : option string
}.

Definition failed (msg : string) : Outcome :=
  {| o_success := false; o_signature := None; o_amount := None; o_error := Some msg |}.

Definition is_token_type (t : AccountType) : bool :=
  match t with
  | TOKEN | TOKEN_2022 | ATA => true
  | _ => false
  end.

Definition reclaimTokenAccountRent (cfg : BotConfig) (tokenAccountPubkey : string)
    (destinationPubkey : string) (programId : string) (dry : bool) : M Outcome :=
  try_catch
    (accountState <- checkAccountState tokenAccountPubkey ;;
     if negb (state_exists accountState) then
       ret (failed "Account does not exist (already closed)")
     else if negb (is_token_type (state_type accountState)) then
       ret (failed ("Not a token account (type: "
                    ++ AccountType_value (state_type accountState) ++ ")"))
     else
       lookup <- request (Rpc.GetTokenAccount tokenAccountPubkey programId)
                   (fun L => Rpc.tokenAccount L tokenAccountPubkey programId) ;;
       match lookup with
       | Rpc.TokenAccountNotFoundError =>
           ret (failed "Token account not found or invalid")
       | Rpc.TokenAccountOtherError m => throw (Error m)
       | Rpc.TokenAccountFound tokenAccountInfo =>
           let operatorPubkey := operatorPublicKey cfg in
           let hasAuthority :=
             (String.eqb (Rpc.ta_owner tokenAccountInfo) operatorPubkey
              || match Rpc.ta_closeAuthority tokenAccountInfo with
                 | Some c => String.eqb c operatorPubkey
                 | None => false
                 end)%bool in
           if negb hasAuthority then
             ret (failed "Operator does not have close authority for this account")
           else if 0 <? Rpc.ta_amount tokenAccountInfo then
             ret (failed ("Token account has non-zero balance: "
                          ++ decimal (Rpc.ta_amount tokenAccountInfo)))
           else
             let amt := state_lamports accountState in
             if dry then
               ret {| o_success := true; o_signature := None;
                      o_amount := Some amt; o_error := None |}
             else
               let instruction :=
                 Rpc.CloseAccount tokenAccountPubkey destinationPubkey
                   operatorPubkey programId in
               sig <- limited (request (Rpc.SendAndConfirmTransaction instruction)
                                 (fun L => Rpc.confirmed L instruction)) ;;
               ret {| o_success := true; o_signature := Some sig;
                      o_amount := Some amt; o_error := None |}
       end)
    (fun err => ret (failed (message_of err))).

Definition closeSystemAccount (cfg : BotConfig) (accountPubkey : string)
    (destinationPubkey : string) (dry : bool) : M Outcome :=
  try_catch
    (accountState <- checkAccountState accountPubkey ;;
     if negb (state_exists accountState) then
       ret (failed "Account does not exist")
     else
       match state_type accountState with
       | SYSTEM =>
           if negb (String.eqb (state_owner accountState) (operatorPublicKey cfg)) then
             ret (failed "Operator does not own this account")
           else
             let amt := state_lamports accountState in
             if dry then
               ret {| o_success := true; o_signature := None;
                      o_amount := Some amt; o_error := None |}
             else
               let instruction :=
                 Rpc.Transfer accountPubkey destinationPubkey amt in
               sig <- limited (request (Rpc.SendAndConfirmTransaction instruction)
                                 (fun L => Rpc.confirmed L instruction)) ;;
               ret {| o_success := true; o_signature := Some sig;
                      o_amount := Some amt; o_error := None |}
       | t => ret (failed ("Not a system account (type: " ++ AccountType_value t ++ ")"))
       end)
    (fun err => ret (failed (message_of err))).

Definition getOperatorBalance (cfg : BotConfig) : M Z :=
  limited (request (Rpc.GetBalance (operatorPublicKey cfg))
             (fun L => Rpc.balance L (operatorPublicKey cfg))).

Definition getCurrentSlot : M Z :=
  limited (request Rpc.GetSlot Rpc.slot).

Definition getBlockTime (s : Z) : M (option Z) :=
  limited (request (Rpc.GetBlockTime s) (fun L => Rpc.blockTime L s)).

Definition isProgramAllowed (cfg : BotConfig) (programId : string) : bool :=
  match allowedPrograms cfg with
  | [] => negb (string_in programId (blockedPrograms cfg))
  | _ :: _ =>
      let isAllowed := string_in programId (allowedPrograms cfg) in
      let isBlocked := string_in programId (blockedPrograms cfg) in
      (isAllowed && negb isBlocked)%bool
  end.

End SolanaService.

(* ================================================================== *)
(** * The reclaim engine ([services/reclaim.ts]) *)
(* ================================================================== *)

Module RentReclaimService.
Import Helpers SolanaService.

(** [x < y] on numbers. *)
Definition Qltb (x y : Q) : bool := negb (Qle_bool y x).

(** The object returned by each early [return] of [reclaimAccount]. *)
Definition rejected (a : SponsoredAccount) (msg : string) (dry : bool)
    (ts : Z) : ReclaimResult :=
  {| success := false; account := pubkey a; amount := 0; signature := None;
     error := Some msg; dryRun := dry; timestamp := ts |}.

Definition too_recent_message (age : Q) (minDays : Z) : string :=
  "Account too recent (" ++ toFixed1 age ++ " days < " ++ decimal minDays ++ " days)".

Definition below_minimum_message (rent minLamports : Z) : string :=
  "Below minimum reclaim (" ++ decimal rent ++ " < " ++ decimal minLamports ++ ")".

Definition not_allowed_message (programId : string) : string :=
  "Program not allowed: " ++ programId.

Definition revived_message : string := "Account was revived - not closed".

(** The age test of the first safety check ([account.closedAt] set and
    [ageInDays(account.closedAt) < minAccountAgeDays]). *)
Definition too_recent (cfg : BotConfig) (a : SponsoredAccount) (now : Z) : bool :=
  match closedAt a with
  | Some c => Qltb (ageInDays c now) (inject_Z (minAccountAgeDays cfg))
  | None => false
  end.

(** The [try { switch (account.type) ... } catch] block. *)
Definition attemptReclaim (cfg : BotConfig) (a : SponsoredAccount)
    (destination : string) (dry : bool) : M Outcome :=
  try_catch
    match type a with
    | TOKEN => reclaimTokenAccountRent cfg (pubkey a) destination TOKEN_PROGRAM_ID dry
    | TOKEN_2022 =>
        reclaimTokenAccountRent cfg (pubkey a) destination TOKEN_2022_PROGRAM_ID dry
    | ATA => reclaimTokenAccountRent cfg (pubkey a) destination TOKEN_PROGRAM_ID dry
    | SYSTEM => closeSystemAccount cfg (pubkey a) destination dry
    | t => ret (failed ("Unsupported account type: " ++ AccountType_value t))
    end
    (fun err => ret (failed (message_of err))).

(** [x || fallback] on an optional number. *)
Definition number_or (x : option Z) (fallback : Z) : Z :=
  match truthy_number x with
  | Some v => v
  | None => fallback
  end.

(** The "Update database" block after the dispatch. *)
Definition bookkeeping (a : SponsoredAccount) (dry : bool) (result : Outcome) : M unit :=
  if o_success result then
    if negb dry then
      db_write (DatabaseService.markAsReclaimed (pubkey a)
                  (truthy_string (o_signature result))
                  (number_or (o_amount result) (rentExemptMinimum a)))
    else ret tt
  else
    db_write (DatabaseService.recordReclaimAttempt (pubkey a) None 0 false dry
                (o_error result)).

Definition reclaimAccount (cfg : BotConfig) (a : SponsoredAccount)
    (destination : string) (dry : bool) : M ReclaimResult :=
  ts <- Date_now ;;
  now <- Date_now ;;
  if too_recent cfg a now then
    ret (rejected a
           (too_recent_message
              (match closedAt a with Some c => ageInDays c now | None => 0 end)
              (minAccountAgeDays cfg)) dry ts)
  else if rentExemptMinimum a <? minReclaimLamports cfg then
    ret (rejected a
           (below_minimum_message (rentExemptMinimum a) (minReclaimLamports cfg)) dry ts)
  else if negb (isProgramAllowed cfg (owner a)) then
    db_write (DatabaseService.updateAccountStatus (pubkey a) PROTECTED no_fields) ;;
    ret (rejected a (not_allowed_message (owner a)) dry ts)
  else
    currentState <- checkAccountState (pubkey a) ;;
    if state_exists currentState then
      db_write (DatabaseService.updateAccountStatus (pubkey a) ACTIVE
                  {| p_lamports := Some (state_lamports currentState);
                     p_closedAt := None; p_reclaimedAt := None;
                     p_reclaimTxSignature := None; p_reclaimedAmount := None;
                     p_errorMessage := None |}) ;;
      ret (rejected a revived_message dry ts)
    else
      result <- attemptReclaim cfg a destination dry ;;
      bookkeeping a dry result ;;
      ret {| success := o_success result;
             account := pubkey a;
             amount := number_or (o_amount result) 0;
             signature := o_signature result;
             error := o_error result;
             dryRun := dry;
             timestamp := ts |}.

Record ReclaimBatchSummary : Type := {
  totalProcessed : nat;
  successCount : nat;
  failedCount : nat;
  skippedCount : nat;
  totalReclaimed : Z;
  totalReclaimable : Z;
  results : list ReclaimResult;
  startedAt : Z;
  completedAt : Z;
  durationMs : Z
}.

Definition createSummary (rs : list ReclaimResult) (reclaimableTotal : Z)
    (started completed : Z) : ReclaimBatchSummary :=
  let successResults := filter success rs in
  let failedResults := filter (fun r => negb (success r)) rs in
  {| totalProcessed := List.length rs;
     successCount := List.length successResults;
     failedCount := List.length failedResults;
     skippedCount := 0;
     totalReclaimed := fold_left (fun sum r => sum + amount r) successResults 0;
     totalReclaimable := reclaimableTotal;
     results := rs;
     startedAt := started;
     completedAt := completed;
     durationMs := completed - started |}.

(** The [for (const account of eligibleAccounts)] loop. *)
Fixpoint reclaim_each (cfg : BotConfig) (destination : string) (dry : bool)
    (accounts : list SponsoredAccount) (rs : list ReclaimResult)
  : M (list ReclaimResult) :=
  match accounts with
  | [] => ret rs
  | a :: rest =>
      result <- reclaimAccount cfg a destination dry ;;
      (if (negb dry && success result)%bool
       then sleep (inject_Z (txDelayMs cfg)) else ret tt) ;;
      reclaim_each cfg destination dry rest (rs ++ [result])%list
  end.

Definition runReclaimCycle (cfg : BotConfig) (dryRunArg : option bool)
  : M ReclaimBatchSummary :=
  let isDryRun := match dryRunArg with Some b => b | None => cfg_dryRun cfg end in
  started <- Date_now ;;
  eligibleAccounts <-
    (fun w => (w, Return (DatabaseService.getReclaimableAccounts
                            (minAccountAgeDays cfg) (maxBatchSize cfg) (clock w) (db w)))) ;;
  match eligibleAccounts with
  | [] =>
      completed <- Date_now ;;
      ret (createSummary [] 0 started completed)
  | _ :: _ =>
      let reclaimableTotal :=
        fold_left (fun sum a => sum + rentExemptMinimum a) eligibleAccounts 0 in
      let destination :=
        match truthy_string (treasuryPubkey cfg) with
        | Some t => t
        | None => koraFeePayer cfg
        end in
      rs <- reclaim_each cfg destination isDryRun eligibleAccounts [] ;;
      completed <- Date_now ;;
      ret (createSummary rs reclaimableTotal started completed)
  end.

End RentReclaimService.

(* ================================================================== *)
(** * Discovery ([services/monitor.ts]) *)
(* ================================================================== *)

Module AccountMonitorService.
Import Helpers SolanaService.

(** The body of [for (const pubkey of createdAccounts)]. *)
Definition discover_account (tx : Rpc.ParsedTransactionWithMeta) (pk : string)
    (newAccountCount : Z) : M Z :=
  existing <- db_read (DatabaseService.getAccount pk) ;;
  match existing with
  | Some _ => ret newAccountCount
  | None =>
      t0 <- Date_now ;;
      let blockTime := RentReclaimService.number_or (Rpc.tx_blockTime tx) (t0 / 1000) in
      try_catch
        (state <- checkAccountState pk ;;
         now <- Date_now ;;
         let acct :=
           {| pubkey := pk;
              type := state_type state;
              status := if state_exists state then ACTIVE else CLOSED;
              lamports := state_lamports state;
              rentExemptMinimum := state_rentExemptMinimum state;
              owner := if String.eqb (state_owner state) "" then "unknown"
                       else state_owner state;
              creationTxSignature := Rpc.tx_signatures_0 tx;
              creationSlot := Rpc.tx_slot tx;
              createdAt := blockTime * 1000;
              lastCheckedAt := now;
              closedAt := if state_exists state then None else Some now;
              reclaimedAt := None;
              reclaimTxSignature := None;
              reclaimedAmount := None;
              errorMessage := None;
              metadata := None |} in
         db_write (fun _ => DatabaseService.upsertAccount acct) ;;
         ret (newAccountCount + 1))
        (fun _ => ret newAccountCount)
  end.

Fixpoint discover_accounts (tx : Rpc.ParsedTransactionWithMeta)
    (createdAccounts : list string) (newAccountCount : Z) : M Z :=
  match createdAccounts with
  | [] => ret newAccountCount
  | pk :: rest =>
      n <- discover_account tx pk newAccountCount ;;
      discover_accounts tx rest n
  end.

(** The body of [for (const tx of transactions)]. *)
Fixpoint discover_transactions (cfg : BotConfig)
    (transactions : list Rpc.ParsedTransactionWithMeta) (newAccountCount : Z) : M Z :=
  match transactions with
  | [] => ret newAccountCount
  | tx :: rest =>
      n <- discover_accounts tx (extractCreatedAccounts cfg tx) newAccountCount ;;
      discover_transactions cfg rest n
  end.

(** The [while (hasMore)] loop.  Nothing in the code bounds the number of
    pages, so the model counts them down from [pages]; [None] means that
    the loop is still running after that many pages. *)
Fixpoint discover_loop (cfg : BotConfig) (pages : nat) (beforeSignature : option string)
    (newAccountCount : Z) (w : World) : option (World * Completion Z) :=
  match pages with
  | O => None
  | S pages' =>
      match scanSponsoredTransactions beforeSignature 100 w with
      | (w1, Throw e) => Some (w1, Throw e)
      | (w1, Return ([], _)) => Some (w1, Return newAccountCount)
      | (w1, Return (transactions, lastSignature)) =>
          match discover_transactions cfg transactions newAccountCount w1 with
          | (w2, Throw e) => Some (w2, Throw e)
          | (w2, Return n) =>
              match lastSignature with
              | Some s =>
                  let w3 :=
                    set_db (DatabaseService.setLastProcessedSignature s (clock w2) (db w2))
                      w2 in
                  discover_loop cfg pages' (Some s) n w3
              | None => Some (w2, Return n)
              end
          end
      end
  end.

Definition discoverNewAccounts (cfg : BotConfig) (pages : nat) (w : World)
  : option (World * Completion Z) :=
  discover_loop cfg pages
    (truthy_string (DatabaseService.getLastProcessedSignature (db w))) 0 w.

End AccountMonitorService.

(* ================================================================== *)
(** * Vocabulary of the statements *)
(* ================================================================== *)

Module Spec.
Import DatabaseService.

(** What [upsertAccount] may do to a row that exists: the frame of the
    [UPDATE], the columns it sets, and the guarded (coalesced) columns. *)
Record upsert_changes (a : SponsoredAccount) (old new : Row) : Prop := {
  keeps_pubkey : r_pubkey new = r_pubkey old;
  keeps_type : r_type new = r_type old;
  keeps_owner : r_owner new = r_owner old;
  keeps_rent_exempt_minimum : r_rent_exempt_minimum new = r_rent_exempt_minimum old;
  keeps_creation_tx_signature : r_creation_tx_signature new = r_creation_tx_signature old;
  keeps_creation_slot : r_creation_slot new = r_creation_slot old;
  keeps_created_at : r_created_at new = r_created_at old;
  keeps_metadata : r_metadata new = r_metadata old;
  other_rows : r_pubkey old <> pubkey a -> new = old;
  sets_columns :
    r_pubkey old = pubkey a ->
    r_status new = status a /\ r_lamports new = lamports a /\
    r_last_checked_at new = lastCheckedAt a /\
    r_error_message new = truthy_string (errorMessage a);
  coalesces_columns :
    r_pubkey old = pubkey a ->
    r_closed_at new = COALESCE (closedAt a) (r_closed_at old) /\
    r_reclaimed_at new = COALESCE (reclaimedAt a) (r_reclaimed_at old) /\
    r_reclaim_tx_signature new =
      COALESCE (truthy_string (reclaimTxSignature a)) (r_reclaim_tx_signature old) /\
    r_reclaimed_amount new =
      COALESCE (truthy_number (reclaimedAmount a)) (r_reclaimed_amount old);
  closed_at_kept : closedAt a = None -> r_closed_at new = r_closed_at old;
  reclaimed_at_kept : reclaimedAt a = None -> r_reclaimed_at new = r_reclaimed_at old;
  reclaim_tx_signature_kept :
    truthy_string (reclaimTxSignature a) = None ->
    r_reclaim_tx_signature new = r_reclaim_tx_signature old;
  reclaimed_amount_kept :
    truthy_number (reclaimedAmount a) = None ->
    r_reclaimed_amount new = r_reclaimed_amount old;
  never_cleared :
    (r_closed_at old <> None -> r_closed_at new <> None) /\
    (r_reclaimed_at old <> None -> r_reclaimed_at new <> None) /\
    (r_reclaim_tx_signature old <> None -> r_reclaim_tx_signature new <> None) /\
    (r_reclaimed_amount old <> None -> r_reclaimed_amount new <> None)
}.

(** Ascending order of [closedAt] between two returned accounts. *)
Definition closedAt_le (a b : SponsoredAccount) : Prop :=
  exists x y, closedAt a = Some x /\ closedAt b = Some y /\ x <= y.

(** The order of the sorted rows. *)
Definition leb_rel (a b : Row) : Prop := closed_at_leb a b = true.

(** The rows that the query selects, before [rowToAccount]. *)
Definition selected (minAgeDays : Z) (limit : nat) (now : Z) (d : Database) : list Row :=
  firstn limit
    (ORDER_BY_closed_at
       (filter (reclaimable (now - minAgeDays * MS_PER_DAY)) (sponsored_accounts d))).

End Spec.

(** The retry policy in the words of its description: an attempt that
    succeeds ends the run with its value; an attempt that fails with a
    message outside the retryable set, or the last allowed attempt, ends it
    with that error; otherwise the run sleeps [delay] and goes on with
    [min(delay * multiplier, maxDelay)].  (A rejection that is not an
    [Error] has no [message] to read, which is a [TypeError].) *)
Module RetryPolicy.
Import Helpers.


End RetryPolicy.


(** How a computation may move the world: the store by [R], the node is
    the same oracle and has answered no fewer requests, and the trace has
    grown by events that satisfy [P]. *)
Module Frame.

Definition steps (R : DatabaseService.Database -> DatabaseService.Database -> Prop)
    (P : Event -> Prop) (w w' : World) : Prop :=
  R (db w) (db w') /\
  node w' = node w /\
  (served w <= served w')%nat /\
  exists evs, trace w' = (evs ++ trace w)%list /\ Forall P evs.

Definition obeys (R : DatabaseService.Database -> DatabaseService.Database -> Prop)
    (P : Event -> Prop) {A : Type} (c : M A) : Prop :=
  forall w, steps R P w (fst (c w)).

(** From its next request on, the node answers every request without
    fault and from the one ledger [L]: the chain does not change. *)
Definition stable (L : Rpc.Ledger) (w : World) : Prop :=
  forall n, (served w <= n)%nat ->
    Rpc.fault (node w n) = None /\ Rpc.ledger (node w n) = L.

(** On such a node the computation returns [v]. *)
Definition yields (L : Rpc.Ledger) {A : Type} (c : M A) (v : A) : Prop :=
  forall w, stable L w -> snd (c w) = Return v.

Definition is_submit (e : Event) : Prop :=
  match e with
  | Sent (Rpc.SendAndConfirmTransaction _) => True
  | _ => False
  end.

Definition any_event (e : Event) : Prop := True.

Definition not_submit (e : Event) : Prop := ~ is_submit e.





(** What [checkAccountState] reports when the ledger is [L]. *)
Definition observed_state (L : Rpc.Ledger) (pk : string) : SolanaService.AccountState :=
  match Rpc.accountInfo L pk with
  | None =>
      {| SolanaService.state_exists := false; SolanaService.state_lamports := 0;
         SolanaService.state_owner := ""; SolanaService.state_type := UNKNOWN;
         SolanaService.state_rentExemptMinimum := 0 |}
  | Some ai =>
      {| SolanaService.state_exists := true;
         SolanaService.state_lamports := Rpc.ai_lamports ai;
         SolanaService.state_owner := Rpc.ai_owner ai;
         SolanaService.state_type := SolanaService.detectAccountType ai;
         SolanaService.state_rentExemptMinimum :=
           Rpc.minimumBalanceForRentExemption L (Rpc.ai_data_length ai) |}
  end.

End Frame.

(** Vocabulary for the reclaim engine. *)
Module ReclaimSpec.
Import DatabaseService Helpers SolanaService RentReclaimService.

(** The three local checks pass at time [now]. *)
Definition passes_local_checks (cfg : BotConfig) (a : SponsoredAccount) (now : Z) : Prop :=
  too_recent cfg a now = false /\
  minReclaimLamports cfg <= rentExemptMinimum a /\
  isProgramAllowed cfg (owner a) = true.

(** The fields that the revival branch passes to [updateAccountStatus]. *)
Definition revived_fields (st : AccountState) : PartialAccount :=
  {| p_lamports := Some (state_lamports st);
     p_closedAt := None; p_reclaimedAt := None;
     p_reclaimTxSignature := None; p_reclaimedAmount := None;
     p_errorMessage := None |}.

(** The result object built after the dispatch. *)
Definition result_of (a : SponsoredAccount) (dry : bool) (ts : Z) (o : Outcome)
  : ReclaimResult :=
  {| success := o_success o;
     account := pubkey a;
     amount := number_or (o_amount o) 0;
     signature := o_signature o;
     error := o_error o;
     dryRun := dry;
     timestamp := ts |}.

(** The failure record of [reclaim_history]. *)
Definition failure_record (pk : string) (dry : bool) (err : option string) (now : Z)
  : Attempt :=
  {| h_account_pubkey := pk; h_tx_signature := None; h_amount := 0;
     h_success := false; h_dry_run := dry;
     h_error_message := truthy_string err; h_created_at := now |}.




End ReclaimSpec.

(** Vocabulary for discovery. *)
Module DiscoverySpec.
Import DatabaseService SolanaService.

(** The handle is tracked. *)
Definition tracked (pk : string) (d : Database) : Prop := getAccount pk d <> None.







(** The signatures that are still to be listed after the cursor. *)
Definition remaining (L : Rpc.Ledger) (before : option string)
  : list Rpc.ConfirmedSignatureInfo :=
  match before with
  | Some b => older_than b (Rpc.signatures L)
  | None => Rpc.signatures L
  end.


End DiscoverySpec.

(* ================================================================== *)
(** * Concrete configurations, ledgers and worlds *)
(* ================================================================== *)

Module Scenario.
Import DatabaseService Helpers SolanaService.

Definition day : Z := 86400000.

(** Day 1000 of the epoch. *)
Definition today : Z := 1000 * day.

Definition cfg : BotConfig :=
  {| koraFeePayer := "KoraFeePayer";
     operatorPublicKey := "Operator";
     treasuryPubkey := Some "Treasury";
     minAccountAgeDays := 7;
     minReclaimLamports := 890880;
     maxBatchSize := 50%nat;
     cfg_dryRun := true;
     allowedPrograms := [TOKEN_PROGRAM_ID];
     blockedPrograms := [];
     rpcRateLimit := 10;
     txDelayMs := 1000 |}.

(** R1: a token account closed 10 days ago, rent-exempt minimum
    2,039,280, controller on the allow-list. *)
Definition R1 : Row :=
  {| r_pubkey := "R1"; r_type := TOKEN; r_status := CLOSED;
     r_lamports := 2000000; r_rent_exempt_minimum := 2039280;
     r_owner := TOKEN_PROGRAM_ID;
     r_creation_tx_signature := "sigR1"; r_creation_slot := 100;
     r_created_at := 900 * day; r_last_checked_at := 990 * day;
     r_closed_at := Some (990 * day); r_reclaimed_at := None;
     r_reclaim_tx_signature := None; r_reclaimed_amount := None;
     r_error_message := None; r_metadata := None |}.

(** R2: closed 2 days ago, and owned by a program that is not on the
    allow-list, so it would fail the allow-list check as well. *)
Definition R2 : Row :=
  {| r_pubkey := "R2"; r_type := TOKEN; r_status := CLOSED;
     r_lamports := 0; r_rent_exempt_minimum := 2039280;
     r_owner := "SomeOtherProgram";
     r_creation_tx_signature := "sigR2"; r_creation_slot := 101;
     r_created_at := 900 * day; r_last_checked_at := 998 * day;
     r_closed_at := Some (998 * day); r_reclaimed_at := None;
     r_reclaim_tx_signature := None; r_reclaimed_amount := None;
     r_error_message := None; r_metadata := None |}.

(** R3: like R1, closed 20 days ago. *)
Definition R3 : Row :=
  {| r_pubkey := "R3"; r_type := TOKEN; r_status := CLOSED;
     r_lamports := 0; r_rent_exempt_minimum := 2039280;
     r_owner := TOKEN_PROGRAM_ID;
     r_creation_tx_signature := "sigR3"; r_creation_slot := 102;
     r_created_at := 900 * day; r_last_checked_at := 980 * day;
     r_closed_at := Some (980 * day); r_reclaimed_at := None;
     r_reclaim_tx_signature := None; r_reclaimed_amount := None;
     r_error_message := None; r_metadata := None |}.

Definition store : Database :=
  {| sponsored_accounts := [R1; R2; R3]; reclaim_history := []; bot_state := [] |}.

Definition token_account_of_operator : Rpc.TokenLookup :=
  Rpc.TokenAccountFound
    {| Rpc.ta_owner := "Operator"; Rpc.ta_closeAuthority := None; Rpc.ta_amount := 0 |}.

Definition live_token_account : Rpc.AccountInfo :=
  {| Rpc.ai_lamports := 2039280; Rpc.ai_owner := TOKEN_PROGRAM_ID;
     Rpc.ai_data_length := 165 |}.

(** One sponsored transaction that created "R1" and initialised "R4". *)
Definition creation_tx : Rpc.ParsedTransactionWithMeta :=
  {| Rpc.tx_slot := 100; Rpc.tx_blockTime := Some 77760000;
     Rpc.tx_signatures_0 := "sigR1";
     Rpc.tx_accountKeys := ["KoraFeePayer"; "R1"];
     Rpc.tx_meta :=
       Some {| Rpc.preBalances := [5000000; 0];
               Rpc.postBalances := [2955720; 2039280];
               Rpc.innerInstructions :=
                 Some [[Rpc.Parsed "initializeAccount" (Some "R4")]] |} |}.

(** The ledger on which no tracked account exists any more. *)
Definition closed_ledger : Rpc.Ledger :=
  {| Rpc.signatures :=
       [ {| Rpc.sig_signature := "sigR1"; Rpc.sig_err := false |};
         {| Rpc.sig_signature := "sigBad"; Rpc.sig_err := true |} ];
     Rpc.parsedTransaction :=
       fun s => if String.eqb s "sigR1" then Some creation_tx else None;
     Rpc.accountInfo := fun _ => None;
     Rpc.minimumBalanceForRentExemption := fun _ => 2039280;
     Rpc.tokenAccount := fun _ _ => token_account_of_operator;
     Rpc.balance := fun _ => 1000000000;
     Rpc.slot := 500;
     Rpc.blockTime := fun _ => None;
     Rpc.confirmed := fun _ => "sigReclaim" |}.

(** The ledger after somebody has funded the tracked handles again. *)
Definition revived_ledger : Rpc.Ledger :=
  {| Rpc.signatures := Rpc.signatures closed_ledger;
     Rpc.parsedTransaction := Rpc.parsedTransaction closed_ledger;
     Rpc.accountInfo := fun _ => Some live_token_account;
     Rpc.minimumBalanceForRentExemption := fun _ => 2039280;
     Rpc.tokenAccount := fun _ _ => token_account_of_operator;
     Rpc.balance := fun _ => 1000000000;
     Rpc.slot := 500;
     Rpc.blockTime := fun _ => None;
     Rpc.confirmed := fun _ => "sigReclaim" |}.

Definition answer_from (L : Rpc.Ledger) : Rpc.Reply :=
  {| Rpc.fault := None; Rpc.latency := 20; Rpc.ledger := L |}.

Definition world_on (nd : nat -> Rpc.Reply) (d : Database) : World :=
  {| db := d;
     rateLimiter := new_RateLimiter (rpcRateLimit cfg) today;
     clock := today;
     served := 0%nat;
     node := nd;
     trace := [] |}.

(** The chain is quiet: every request is answered from [closed_ledger]. *)
Definition quiet : World := world_on (fun _ => answer_from closed_ledger) store.

(** The handles exist again when the re-check asks. *)
Definition revived : World := world_on (fun _ => answer_from revived_ledger) store.

(** The handle is absent at the re-check (request 0) and present from the
    next request on. *)
Definition revived_late : World :=
  world_on (fun n => match n with
                     | O => answer_from closed_ledger
                     | _ => answer_from revived_ledger
                     end) store.

(** The first request times out, the following ones are answered. *)
Definition flaky : World :=
  world_on (fun n => match n with
                     | O => {| Rpc.fault := Some "Request timeout";
                               Rpc.latency := 5000;
                               Rpc.ledger := closed_ledger |}
                     | _ => answer_from closed_ledger
                     end) store.

(** An empty store in front of the quiet chain, for discovery. *)
Definition fresh : World := world_on (fun _ => answer_from closed_ledger) empty.

(** A limiter whose bucket is empty at [today]. *)
Definition drained : World :=
  {| db := store;
     rateLimiter := {| tokens := 1 # 4; lastRefill := today;
                       maxTokens := 10; refillRate := 10 |};
     clock := today;
     served := 0%nat;
     node := fun _ => answer_from closed_ledger;
     trace := [] |}.

(** The world that the re-check of "R1" leaves behind in [revived]. *)
Definition rechecked : World := fst (checkAccountState "R1" revived).

(** R1 as the chain shows it in [revived]. *)
Definition R1_alive : AccountState :=
  {| state_exists := true; state_lamports := 2039280;
     state_owner := TOKEN_PROGRAM_ID; state_type := TOKEN;
     state_rentExemptMinimum := 2039280 |}.

(** An update of R1 that passes no closing or reclaim field. *)
Definition R1_update : SponsoredAccount :=
  {| pubkey := "R1"; type := UNKNOWN; status := ERROR; lamports := 17;
     rentExemptMinimum := 0; owner := "";
     creationTxSignature := ""; creationSlot := 0; createdAt := 0;
     lastCheckedAt := today;
     closedAt := None; reclaimedAt := None; reclaimTxSignature := None;
     reclaimedAmount := None; errorMessage := Some "rpc down"; metadata := None |}.

End Scenario.

(** Worlds reached by running the engines on the scenarios. *)
Module Reached.
Import DatabaseService.



(** After a first run of discovery over the quiet chain. *)
Definition discovered : World :=
  match AccountMonitorService.discoverNewAccounts Scenario.cfg 5 Scenario.fresh with
  | Some (w, _) => w
  | None => Scenario.fresh
  end.

End Reached.

(* ================================================================== *)
(** * More of the utilities ([utils/helpers.ts]) *)
(* ================================================================== *)

(** [chunk], [unique] with a key function, [truncateMiddle] and
    [maskString].  Sizes and lengths are integers, as at every call in the
    repository; a string is the sequence of its characters, one per code
    unit, which is what the keys, signatures and secrets that the bot
    formats are made of. *)

Module MoreHelpers.
Import Helpers.

(** [array.slice(start, end)]: a negative index counts from the end, and
    both indices are clamped to the array. *)
Definition slice {T : Type} (l : list T) (start fin : Z) : list T :=
  let len := Z.of_nat (List.length l) in
  let k := if start <? 0 then Z.max (len + start) 0 else Z.min start len in
  let e := if fin <? 0 then Z.max (len + fin) 0 else Z.min fin len in
  firstn (Z.to_nat (e - k)) (skipn (Z.to_nat k) l).

(** The [for (let i = 0; i < array.length; i += size)] loop of [chunk].
    The code does not bound it, so the model counts its iterations down
    from [fuel]; [None] means that it is still running. *)
Fixpoint chunk_loop {T : Type} (fuel : nat) (array : list T) (size : Z) (i : Z)
    (chunks : list (list T)) : option (list (list T)) :=
  match fuel with
  | O => None
  | S fuel' =>
      if i <? Z.of_nat (List.length array) then
        chunk_loop fuel' array size (i + size)
          (chunks ++ [slice array i (i + size)])%list
      else Some chunks
  end.

Definition chunk {T : Type} (fuel : nat) (array : list T) (size : Z)
  : option (list (list T)) :=
  chunk_loop fuel array size 0 [].

(** [array.filter(item => ...)] of [unique] with a [keyFn]; [seen] is the
    [Set] of keys met so far. *)
Fixpoint unique_filter {T : Type} (keyFn : T -> string) (array : list T)
    (seen : list string) : list T :=
  match array with
  | [] => []
  | item :: rest =>
      let key := keyFn item in
      if SolanaService.string_in key seen then unique_filter keyFn rest seen
      else item :: unique_filter keyFn rest (key :: seen)
  end.

(** [unique(array, keyFn)] *)
Definition unique {T : Type} (array : list T) (keyFn : T -> string) : list T :=
  unique_filter keyFn array [].

Definition clamp (i len : Z) : Z := Z.max 0 (Z.min i len).

(** [str.substring(a, b)]: both indices are clamped to the string and
    swapped when [a > b]. *)
Definition substring (str : string) (a b : Z) : string :=
  let len := Z.of_nat (String.length str) in
  let a' := clamp a len in
  let b' := clamp b len in
  String.substring (Z.to_nat (Z.min a' b')) (Z.to_nat (Z.max a' b' - Z.min a' b')) str.

(** [str.substring(a)] *)
Definition substring_from (str : string) (a : Z) : string :=
  substring str a (Z.of_nat (String.length str)).

(** [truncateMiddle(str, maxLen)]; the default [maxLen] is 20. *)
Definition truncateMiddle (str : string) (maxLen : Z) : string :=
  let len := Z.of_nat (String.length str) in
  if len <=? maxLen then str
  else
    let halfLen := (maxLen - 3) / 2 in
    (substring str 0 halfLen ++ "..." ++ substring_from str (len - halfLen))%string.

(** [maskString(str, showChars)]; the default [showChars] is 4. *)
Definition maskString (str : string) (showChars : Z) : string :=
  let len := Z.of_nat (String.length str) in
  if len <=? showChars * 2 then "****"
  else
    (substring str 0 showChars ++ "..." ++ substring_from str (len - showChars))%string.


End MoreHelpers.

(* ================================================================== *)
(** * More of the store ([services/database.ts]) *)
(* ================================================================== *)

Module MoreDatabase.
Import DatabaseService.

Definition has_status (st : AccountStatus) (row : Row) : bool :=
  AccountStatus_eqb (r_status row) st.

(** [getAccountsByStatus(status, limit)]: the [LIMIT] clause is added only
    when [limit] is truthy, so 0 (like [undefined]) means no limit. *)
Definition getAccountsByStatus (st : AccountStatus) (limit : option nat)
    (d : Database) : list SponsoredAccount :=
  let rows := filter (has_status st) (sponsored_accounts d) in
  map rowToAccount
    match limit with
    | Some (S n) => firstn (S n) rows
    | Some O | None => rows
    end.

Definition batchUpsertAccounts (accounts : list SponsoredAccount) (d : Database)
  : Database :=
  fold_left (fun d' a => upsertAccount a d') accounts d.

Record BotStatistics : Type := {
  totalAccounts : Z;
  activeAccounts : Z;
  closedAccounts : Z;
  reclaimedAccounts : Z;
  protectedAccounts : Z;
  errorAccounts : Z;
  totalLockedLamports : Z;
  totalReclaimableLamports : Z;
  totalReclaimedLamports : Z
}.

(** [SUM(CASE WHEN status = st THEN 1 ELSE 0 END)] *)
Definition count_status (st : AccountStatus) (rows : list Row) : Z :=
  fold_left (fun acc row => acc + if has_status st row then 1 else 0) rows 0.

(** [SUM(CASE WHEN status = st THEN column ELSE 0 END)] *)
Definition sum_status (st : AccountStatus) (column : Row -> Z) (rows : list Row) : Z :=
  fold_left (fun acc row => acc + if has_status st row then column row else 0) rows 0.

(** [getStatistics]: [SUM] skips a NULL [reclaimed_amount], and a NULL sum
    (no row at all) is turned into 0 by [|| 0]. *)
Definition getStatistics (d : Database) : BotStatistics :=
  let rows := sponsored_accounts d in
  {| totalAccounts := Z.of_nat (List.length rows);
     activeAccounts := count_status ACTIVE rows;
     closedAccounts := count_status CLOSED rows;
     reclaimedAccounts := count_status RECLAIMED rows;
     protectedAccounts := count_status PROTECTED rows;
     errorAccounts := count_status ERROR rows;
     totalLockedLamports := sum_status ACTIVE r_lamports rows;
     totalReclaimableLamports := sum_status CLOSED r_rent_exempt_minimum rows;
     totalReclaimedLamports :=
       sum_status RECLAIMED
         (fun row => match r_reclaimed_amount row with Some v => v | None => 0 end)
         rows |}.

End MoreDatabase.

(* ================================================================== *)
(** * Reconciliation ([services/monitor.ts]) *)
(* ================================================================== *)

Module Reconciliation.
Import SolanaService.

Record Counts : Type := {
  checked : Z;
  closed : Z;
  errors : Z
}.

(** [String(err)] *)
Definition String_of (e : Thrown) : string :=
  match e with
  | Error m => "Error: " ++ m
  | Undefined => "undefined"
  end.

(** The body of [for (const [pubkey, state] of states)] in
    [updateAccountStatuses]. *)
Definition reconcile_one (entry : string * AccountState) (c : Counts) : M Counts :=
  let (pk, state) := entry in
  let c1 := {| checked := checked c + 1; closed := closed c; errors := errors c |} in
  try_catch
    (if negb (state_exists state) then
       db_write (fun now =>
                   DatabaseService.updateAccountStatus pk CLOSED
                     {| p_lamports := Some 0; p_closedAt := Some now;
                        p_reclaimedAt := None; p_reclaimTxSignature := None;
                        p_reclaimedAmount := None; p_errorMessage := None |} now) ;;
       ret {| checked := checked c1; closed := closed c1 + 1; errors := errors c1 |}
     else
       db_write (DatabaseService.updateAccountStatus pk ACTIVE
                   {| p_lamports := Some (state_lamports state); p_closedAt := None;
                      p_reclaimedAt := None; p_reclaimTxSignature := None;
                      p_reclaimedAmount := None; p_errorMessage := None |}) ;;
       ret c1)
    (fun err =>
       db_write (DatabaseService.updateAccountStatus pk ERROR
                   {| p_lamports := None; p_closedAt := None;
                      p_reclaimedAt := None; p_reclaimTxSignature := None;
                      p_reclaimedAmount := None;
                      p_errorMessage := Some (String_of err) |}) ;;
       ret {| checked := checked c1; closed := closed c1; errors := errors c1 + 1 |}).

(** The loop over the entries of the [Map] that [batchCheckAccountStates]
    returned for one batch, in insertion order. *)
Fixpoint reconcile_states (states : list (string * AccountState)) (c : Counts)
  : M Counts :=
  match states with
  | [] => ret c
  | entry :: rest =>
      c' <- reconcile_one entry c ;;
      reconcile_states rest c'
  end.

End Reconciliation.

(* ================================================================== *)
(** * Vocabulary for the properties of the remaining code *)
(* ================================================================== *)

Module StoreSpec.
Import DatabaseService.

(** The keys of the account table, in table order. *)
Definition pubkeys (d : Database) : list string :=
  map r_pubkey (sponsored_accounts d).

(** The writing methods of [DatabaseService]. *)
Inductive StoreOp : Type :=
| UpsertAccount (a : SponsoredAccount)
| UpdateAccountStatus (pk : string) (st : AccountStatus) (f : PartialAccount)
| MarkAsReclaimed (pk : string) (sig : option string) (amt : Z)
| RecordReclaimAttempt (pk : string) (sig : option string) (amt : Z)
    (ok dry : bool) (err : option string)
| SetState (key value : string).

Definition apply_op (op : StoreOp) (now : Z) (d : Database) : Database :=
  match op with
  | UpsertAccount a => upsertAccount a d
  | UpdateAccountStatus pk st f => updateAccountStatus pk st f now d
  | MarkAsReclaimed pk sig amt => markAsReclaimed pk sig amt now d
  | RecordReclaimAttempt pk sig amt ok dry err =>
      recordReclaimAttempt pk sig amt ok dry err now d
  | SetState key value => setState key value now d
  end.

(** Any sequence of calls, each at its own time. *)
Fixpoint apply_ops (ops : list (StoreOp * Z)) (d : Database) : Database :=
  match ops with
  | [] => d
  | (op, now) :: rest => apply_ops rest (apply_op op now d)
  end.

(** The optional values of the account are in the form in which the store
    returns them: a falsy one ([''], [0]) is [undefined]. *)
Definition normalized (a : SponsoredAccount) : Prop :=
  truthy_string (reclaimTxSignature a) = reclaimTxSignature a /\
  truthy_number (reclaimedAmount a) = reclaimedAmount a /\
  truthy_string (errorMessage a) = errorMessage a /\
  truthy_string (metadata a) = metadata a.

(** The account is tracked and carries a reclaim time. *)
Definition reclaimed_once (pk : string) (d : Database) : Prop :=
  getAccount pk d <> None /\
  forall row, In row (sponsored_accounts d) -> r_pubkey row = pk ->
    r_reclaimed_at row <> None.

(** The number of rows with status [st]. *)
Definition rows_with (st : AccountStatus) (d : Database) : Z :=
  Z.of_nat (List.length (filter (fun row => AccountStatus_eqb (r_status row) st)
                           (sponsored_accounts d))).

End StoreSpec.

Module SafetySpec.
Import DatabaseService.

(** The operator may close the token account: it is its owner or its
    close authority. *)
Definition has_authority (cfg : BotConfig) (info : Rpc.TokenAccount) : Prop :=
  Rpc.ta_owner info = operatorPublicKey cfg \/
  Rpc.ta_closeAuthority info = Some (operatorPublicKey cfg).

(** The node has shown, in its answer to request number [n], a token
    account that the operator may close and that holds no token. *)
Definition closable_at (cfg : BotConfig) (pk programId : string) (w : World)
    (n : nat) : Prop :=
  exists info,
    Rpc.fault (node w n) = None /\
    Rpc.tokenAccount (Rpc.ledger (node w n)) pk programId = Rpc.TokenAccountFound info /\
    has_authority cfg info /\
    Rpc.ta_amount info <= 0.

(** The only transaction that the event may be is the submission of [ix]. *)
Definition submits_only (ix : Rpc.TransactionInstruction) (e : Event) : Prop :=
  Frame.is_submit e -> e = Sent (Rpc.SendAndConfirmTransaction ix).

(** A transaction is submitted only when the run is not simulated. *)
Definition live_only (dry : bool) (e : Event) : Prop :=
  Frame.is_submit e -> dry = false.

(** The row has changed for an account of [S] only, and has kept its key. *)
Definition confined_row (S : list string) (r r' : Row) : Prop :=
  r_pubkey r' = r_pubkey r /\ (~ In (r_pubkey r) S -> r' = r).

(** The store has changed for the accounts [S] only: the other rows are as
    they were, no row has come or gone, the attempts recorded are about
    accounts of [S], and the scan cursor has not moved. *)
Definition confined (S : list string) (d d' : Database) : Prop :=
  Forall2 (confined_row S) (sponsored_accounts d) (sponsored_accounts d') /\
  (exists added,
     reclaim_history d' = (reclaim_history d ++ added)%list /\
     Forall (fun h => In (h_account_pubkey h) S) added) /\
  bot_state d' = bot_state d.

(** The row differs at most in [status], [lamports] and [last_checked_at],
    and its status has not become [reclaimed]. *)
Definition simulated_row (r r' : Row) : Prop :=
  r' = {| r_pubkey := r_pubkey r;
          r_type := r_type r;
          r_status := r_status r';
          r_lamports := r_lamports r';
          r_rent_exempt_minimum := r_rent_exempt_minimum r;
          r_owner := r_owner r;
          r_creation_tx_signature := r_creation_tx_signature r;
          r_creation_slot := r_creation_slot r;
          r_created_at := r_created_at r;
          r_last_checked_at := r_last_checked_at r';
          r_closed_at := r_closed_at r;
          r_reclaimed_at := r_reclaimed_at r;
          r_reclaim_tx_signature := r_reclaim_tx_signature r;
          r_reclaimed_amount := r_reclaimed_amount r;
          r_error_message := r_error_message r;
          r_metadata := r_metadata r |} /\
  (r_status r' = RECLAIMED -> r_status r = RECLAIMED).

(** What a simulated run may do to the store: no reclaim is booked, and
    every attempt recorded is a failure flagged as simulated. *)
Definition simulated (d d' : Database) : Prop :=
  Forall2 simulated_row (sponsored_accounts d) (sponsored_accounts d') /\
  (exists added,
     reclaim_history d' = (reclaim_history d ++ added)%list /\
     Forall (fun h => h_success h = false /\ h_dry_run h = true) added) /\
  bot_state d' = bot_state d.

(** A cycle over the accounts [S], simulated or not. *)
Definition cycle_step (S : list string) (dry : bool) (d d' : Database) : Prop :=
  confined S d d' /\ (dry = true -> simulated d d').

(** [destination] of [runReclaimCycle]: the treasury when one is
    configured, the fee payer otherwise. *)
Definition destination (cfg : BotConfig) : string :=
  match truthy_string (treasuryPubkey cfg) with
  | Some t => t
  | None => koraFeePayer cfg
  end.

(** If the event is the submission of a transaction, then the transaction
    takes the lamports of an account of [S] to [dest]: it closes a token
    account under the operator's authority, or transfers out of a system
    account. *)
Definition reclaims_from (cfg : BotConfig) (S : list string) (dest : string)
    (e : Event) : Prop :=
  Frame.is_submit e ->
  exists pk, In pk S /\
    ((exists programId,
        e = Sent (Rpc.SendAndConfirmTransaction
                    (Rpc.CloseAccount pk dest (operatorPublicKey cfg) programId))) \/
     (exists amt,
        e = Sent (Rpc.SendAndConfirmTransaction (Rpc.Transfer pk dest amt)))).

(** The events of a cycle over the accounts [S]. *)
Definition cycle_event (cfg : BotConfig) (S : list string) (dest : string)
    (dry : bool) (e : Event) : Prop :=
  live_only dry e /\ reclaims_from cfg S dest e.

(** Any change of the store. *)
Definition any_change (d d' : Database) : Prop := True.

(** [isDryRun] of [runReclaimCycle]. *)
Definition isDryRun (cfg : BotConfig) (dryRunArg : option bool) : bool :=
  match dryRunArg with Some b => b | None => cfg_dryRun cfg end.

(** The accounts that a cycle started in the world [w] works on. *)
Definition eligible (cfg : BotConfig) (w : World) : list SponsoredAccount :=
  getReclaimableAccounts (minAccountAgeDays cfg) (maxBatchSize cfg) (clock w) (db w).

End SafetySpec.

Module MonitorSpec.
Import DatabaseService.

(** What reconciliation at time [now] may have done to a row, when the
    batch named the accounts [S]: a row of another account is as it was; a
    row of a named account was checked at [now] and is either [active] or
    [closed] as of [now] with no lamports. *)
Definition reconciled_row (S : list string) (now : Z) (r r' : Row) : Prop :=
  r_pubkey r' = r_pubkey r /\
  (~ In (r_pubkey r) S -> r' = r) /\
  (In (r_pubkey r) S ->
     r_last_checked_at r' = now /\
     (r_status r' = ACTIVE \/
      (r_status r' = CLOSED /\ r_closed_at r' = Some now /\ r_lamports r' = 0))).

(** The account at some index of [accountKeys] had no lamports before the
    transaction and has some after it, and is not the fee payer. *)
Definition funded_by (cfg : BotConfig) (tx : Rpc.ParsedTransactionWithMeta)
    (meta : Rpc.TransactionMeta) (pk : string) : Prop :=
  exists (i : nat) (b : Z),
    nth_error (Rpc.tx_accountKeys tx) i = Some pk /\
    nth_error (Rpc.preBalances meta) i = Some 0 /\
    nth_error (Rpc.postBalances meta) i = Some b /\
    0 < b /\ pk <> koraFeePayer cfg.

(** An inner instruction of the transaction is a parsed [initializeAccount]
    of the account. *)
Definition initialized_by (meta : Rpc.TransactionMeta) (pk : string) : Prop :=
  exists inners,
    Rpc.innerInstructions meta = Some inners /\
    In (Rpc.Parsed "initializeAccount" (Some pk)) (List.concat inners) /\
    pk <> "".

(** The number of rows of the account table. *)
Definition row_count (w : World) : Z :=
  Z.of_nat (List.length (sponsored_accounts (db w))).

(** The entries of the batch that report a closed account. *)
Definition absent (states : list (string * SolanaService.AccountState))
  : list (string * SolanaService.AccountState) :=
  filter (fun entry => negb (SolanaService.state_exists (snd entry))) states.

(** The signatures of the page that [scanSponsoredTransactions] looks up. *)
Definition looked_up (sigs : list Rpc.ConfirmedSignatureInfo)
  : list Rpc.ConfirmedSignatureInfo :=
  filter (fun sigInfo => negb (Rpc.sig_err sigInfo)) sigs.

(** The signature listing of [scanSponsoredTransactions]. *)
Definition listing (before : option string) (limit : nat)
  : M (list Rpc.ConfirmedSignatureInfo) :=
  SolanaService.limited
    (request (Rpc.GetSignaturesForAddress before limit)
       (SolanaService.signatures_page before limit)).

End MonitorSpec.

(* ================================================================== *)
(** * More concrete inputs *)
(* ================================================================== *)

Module MoreScenario.
Import DatabaseService Helpers SolanaService.

(** R4: a live token account that the store does not track yet. *)
Definition R4 : SponsoredAccount :=
  {| pubkey := "R4"; type := TOKEN; status := ACTIVE; lamports := 2039280;
     rentExemptMinimum := 2039280; owner := TOKEN_PROGRAM_ID;
     creationTxSignature := "sigR1"; creationSlot := 100;
     createdAt := 900 * Scenario.day; lastCheckedAt := Scenario.today;
     closedAt := None; reclaimedAt := None; reclaimTxSignature := None;
     reclaimedAmount := None; errorMessage := None; metadata := None |}.

(** A batch that names R4 twice and the tracked R1 once. *)
Definition batch : list SponsoredAccount := [R4; Scenario.R1_update; R4].

(** The configuration of the scenarios with the Token Program blocked as
    well as allowed. *)
Definition blocking : BotConfig :=
  {| koraFeePayer := koraFeePayer Scenario.cfg;
     operatorPublicKey := operatorPublicKey Scenario.cfg;
     treasuryPubkey := treasuryPubkey Scenario.cfg;
     minAccountAgeDays := minAccountAgeDays Scenario.cfg;
     minReclaimLamports := minReclaimLamports Scenario.cfg;
     maxBatchSize := maxBatchSize Scenario.cfg;
     cfg_dryRun := cfg_dryRun Scenario.cfg;
     allowedPrograms := [TOKEN_PROGRAM_ID];
     blockedPrograms := [TOKEN_PROGRAM_ID];
     rpcRateLimit := rpcRateLimit Scenario.cfg;
     txDelayMs := txDelayMs Scenario.cfg |}.

(** After the reclaim of R1 is booked, its status is set back to [closed]
    and R4 is inserted, on the following days. *)
Definition later_calls : list (StoreSpec.StoreOp * Z) :=
  [ (StoreSpec.UpdateAccountStatus "R1" CLOSED no_fields, Scenario.today + Scenario.day);
    (StoreSpec.UpsertAccount R4, Scenario.today + 2 * Scenario.day) ].

End MoreScenario.
(* ================================================================== *)
(** * Properties of the store *)
(* ================================================================== *)

Module DatabaseFacts.
Import DatabaseService Spec.

Lemma has_pubkey_true (pk : string) (row : Row) :
  has_pubkey pk row = true <-> r_pubkey row = pk.
Proof. unfold has_pubkey. apply String.eqb_eq. Qed.

Lemma has_pubkey_false (pk : string) (row : Row) :
  has_pubkey pk row = false <-> r_pubkey row <> pk.
Proof. unfold has_pubkey. apply String.eqb_neq. Qed.

Lemma getAccount_Some_In (pk : string) (d : Database) (a : SponsoredAccount) :
  getAccount pk d = Some a ->
  exists row, In row (sponsored_accounts d) /\ r_pubkey row = pk /\ a = rowToAccount row.
Proof.
  unfold getAccount. destruct (find _ _) as [row|] eqn:E; simpl; [|discriminate].
  intros [= <-]. apply find_some in E as [Hin Hk].
  exists row. repeat split; auto. now apply has_pubkey_true.
Qed.

Lemma getAccount_None (pk : string) (d : Database) :
  getAccount pk d = None <->
  forall row, In row (sponsored_accounts d) -> r_pubkey row <> pk.
Proof.
  unfold getAccount. split.
  - destruct (find _ _) eqn:E; simpl; [discriminate|]. intros _ row Hin.
    apply has_pubkey_false. eapply find_none in E; eauto.
  - intros H. destruct (find _ _) as [row|] eqn:E; simpl; auto.
    apply find_some in E as [Hin Hk]. apply has_pubkey_true in Hk.
    now apply H in Hin.
Qed.

Lemma update_where_length (pk : string) (f : Row -> Row) (rows : list Row) :
  List.length (update_where pk f rows) = List.length rows.
Proof. unfold update_where. apply length_map. Qed.

Lemma update_where_Forall2 (pk : string) (f : Row -> Row) (R : Row -> Row -> Prop)
    (rows : list Row) :
  (forall row, r_pubkey row = pk -> R row (f row)) ->
  (forall row, r_pubkey row <> pk -> R row row) ->
  Forall2 R rows (update_where pk f rows).
Proof.
  intros Hhit Hmiss. induction rows as [|row rows IH]; simpl; constructor; auto.
  destruct (has_pubkey pk row) eqn:E.
  - apply Hhit. now apply has_pubkey_true.
  - apply Hmiss. now apply has_pubkey_false.
Qed.

Lemma update_where_keys (pk : string) (f : Row -> Row) (rows : list Row) :
  (forall row, r_pubkey (f row) = r_pubkey row) ->
  map r_pubkey (update_where pk f rows) = map r_pubkey rows.
Proof.
  intros Hf. unfold update_where. rewrite map_map. apply map_ext.
  intros row. destruct (has_pubkey pk row); auto.
Qed.

Lemma COALESCE_None {A : Type} (old : option A) : COALESCE None old = old.
Proof. reflexivity. Qed.

Lemma COALESCE_set {A : Type} (new old : option A) :
  old <> None -> COALESCE new old <> None.
Proof. destruct new; simpl; auto. discriminate. Qed.

Lemma upsert_changes_refl (a : SponsoredAccount) (row : Row) :
  r_pubkey row <> pubkey a -> upsert_changes a row row.
Proof. intros Hk. constructor; auto; intros; try contradiction; tauto. Qed.

Lemma upsert_changes_update (a : SponsoredAccount) (row : Row) :
  r_pubkey row = pubkey a -> upsert_changes a row (upsert_update a row).
Proof.
  intros Hk. constructor; simpl; auto.
  - intros Hne. contradiction.
  - intros ->. reflexivity.
  - intros ->. reflexivity.
  - intros ->. reflexivity.
  - intros ->. reflexivity.
  - repeat split; apply COALESCE_set.
Qed.

(** C10.  When the account is already in the store, [upsertAccount]
    rewrites the table row by row: rows of other handles are untouched; in
    the row of this handle only [status], [lamports], [last_checked_at] and
    [error_message] are set and [closed_at], [reclaimed_at],
    [reclaim_tx_signature], [reclaimed_amount] are coalesced, so a value
    passed as absent leaves the stored one and a stored one is never
    cleared; [type], [owner], [rent_exempt_minimum], the creation columns,
    [created_at] and [metadata] keep their values.  The other tables are
    untouched. *)
Theorem upsertAccount_existing_frame :
  forall (a : SponsoredAccount) (d : Database),
    getAccount (pubkey a) d <> None ->
    Forall2 (upsert_changes a) (sponsored_accounts d)
      (sponsored_accounts (upsertAccount a d)) /\
    reclaim_history (upsertAccount a d) = reclaim_history d /\
    bot_state (upsertAccount a d) = bot_state d.
Proof.
  intros a d Hex. unfold upsertAccount.
  destruct (getAccount (pubkey a) d) eqn:E; [|contradiction].
  simpl. repeat split.
  apply update_where_Forall2.
  - apply upsert_changes_update.
  - apply upsert_changes_refl.
Qed.

(** ** The eligibility query *)

Lemma closed_at_leb_total (a b : Row) :
  closed_at_leb a b = true \/ closed_at_leb b a = true.
Proof.
  unfold closed_at_leb.
  destruct (r_closed_at a), (r_closed_at b); auto.
  destruct (Z.leb_spec z z0); auto. right. apply Z.leb_le. lia.
Qed.

Lemma closed_at_leb_trans (a b c : Row) :
  closed_at_leb a b = true -> closed_at_leb b c = true -> closed_at_leb a c = true.
Proof.
  unfold closed_at_leb.
  destruct (r_closed_at a), (r_closed_at b), (r_closed_at c);
    try discriminate; auto.
  rewrite !Z.leb_le. lia.
Qed.

Lemma order_insert_perm (x : Row) (l : list Row) :
  Permutation (x :: l) (order_insert x l).
Proof.
  induction l as [|y l IH]; simpl; auto.
  destruct (closed_at_leb x y); auto.
  rewrite perm_swap. now constructor.
Qed.

Lemma ORDER_BY_perm (l : list Row) : Permutation l (ORDER_BY_closed_at l).
Proof.
  induction l as [|x l IH]; simpl; auto.
  rewrite <- order_insert_perm. now constructor.
Qed.

Lemma order_insert_sorted (x : Row) (l : list Row) :
  StronglySorted leb_rel l -> StronglySorted leb_rel (order_insert x l).
Proof.
  induction 1 as [|y l Hs IH Hall]; simpl.
  - repeat constructor.
  - destruct (closed_at_leb x y) eqn:E.
    + constructor; [now constructor|]. constructor; auto.
      eapply Forall_impl; [|exact Hall]. intros z Hz.
      eapply closed_at_leb_trans; eauto.
    + constructor; auto.
      assert (Hyx : leb_rel y x)
        by (destruct (closed_at_leb_total x y); [congruence|assumption]).
      rewrite Forall_forall in *. intros z Hz.
      apply (Permutation_in _ (Permutation_sym (order_insert_perm x l))) in Hz.
      destruct Hz as [<-|Hz]; auto.
Qed.

Lemma ORDER_BY_sorted (l : list Row) : StronglySorted leb_rel (ORDER_BY_closed_at l).
Proof.
  induction l; simpl; [constructor|]. now apply order_insert_sorted.
Qed.

Lemma In_firstn {A : Type} (n : nat) (l : list A) (x : A) :
  In x (firstn n l) -> In x l.
Proof.
  revert l. induction n as [|n IH]; intros [|y l]; simpl; try tauto.
  intros [->|H]; auto.
Qed.

Lemma StronglySorted_firstn {A : Type} (R : A -> A -> Prop) (n : nat) (l : list A) :
  StronglySorted R l -> StronglySorted R (firstn n l).
Proof.
  intros H. revert n. induction H as [|x l Hs IH Hall]; intros [|n]; simpl;
    try constructor; auto.
  rewrite Forall_forall in *. intros y Hy. apply Hall. eapply In_firstn, Hy.
Qed.

Lemma reclaimable_true (cutoff : Z) (row : Row) :
  reclaimable cutoff row = true <->
  r_status row = CLOSED /\ r_reclaimed_at row = None /\
  exists c, r_closed_at row = Some c /\ c < cutoff.
Proof.
  unfold reclaimable. rewrite !andb_true_iff. split.
  - intros [[Hs Hc] Hr]. repeat split.
    + destruct (r_status row); simpl in Hs; congruence.
    + destruct (r_reclaimed_at row); congruence.
    + destruct (r_closed_at row) as [c|]; [|discriminate].
      exists c. split; auto. now apply Z.ltb_lt.
  - intros (Hs & Hr & c & Hc & Hlt). rewrite Hs, Hr, Hc. repeat split.
    now apply Z.ltb_lt.
Qed.

Lemma selected_In (minAgeDays : Z) (limit : nat) (now : Z) (d : Database) (row : Row) :
  In row (selected minAgeDays limit now d) ->
  In row (sponsored_accounts d) /\
  reclaimable (now - minAgeDays * MS_PER_DAY) row = true.
Proof.
  unfold selected. intros H. apply In_firstn in H.
  apply (Permutation_in _ (Permutation_sym (ORDER_BY_perm _))) in H.
  now apply filter_In in H.
Qed.

Lemma age_below_minimum (c now minAgeDays : Z) :
  (Helpers.ageInDays c now < inject_Z minAgeDays)%Q <->
  now - minAgeDays * MS_PER_DAY < c.
Proof.
  unfold Helpers.ageInDays, MS_PER_DAY, Qlt, Qdiv, Qmult, Qinv, inject_Z. simpl.
  lia.
Qed.

(** C4.  For every [minAgeDays] (no sign condition is needed) and every
    [limit], each account that [getReclaimableAccounts] returns is a row of
    the store with status [closed], [reclaimed_at] unset and [closed_at]
    strictly before [now - minAgeDays] days; none of them has an age below
    [minAgeDays]; the result is in ascending order of [closed_at] and holds
    at most [limit] accounts. *)
Theorem getReclaimableAccounts_sound :
  forall (minAgeDays : Z) (limit : nat) (now : Z) (d : Database),
    let res := getReclaimableAccounts minAgeDays limit now d in
    (forall a, In a res ->
       (exists row, In row (sponsored_accounts d) /\ a = rowToAccount row) /\
       status a = CLOSED /\ reclaimedAt a = None /\
       exists c, closedAt a = Some c /\ c < now - minAgeDays * MS_PER_DAY) /\
    (forall a c, In a res -> closedAt a = Some c ->
       ~ (Helpers.ageInDays c now < inject_Z minAgeDays)%Q) /\
    StronglySorted closedAt_le res /\
    (List.length res <= limit)%nat.
Proof.
  intros minAgeDays limit now d res.
  assert (Hres : res = map rowToAccount (selected minAgeDays limit now d)) by reflexivity.
  assert (Hin : forall a, In a res ->
            (exists row, In row (sponsored_accounts d) /\ a = rowToAccount row) /\
            status a = CLOSED /\ reclaimedAt a = None /\
            exists c, closedAt a = Some c /\ c < now - minAgeDays * MS_PER_DAY).
  { intros a Ha. rewrite Hres in Ha. apply in_map_iff in Ha as (row & <- & Hrow).
    apply selected_In in Hrow as [Hin Hsel].
    apply reclaimable_true in Hsel as (Hs & Hr & c & Hc & Hlt).
    split; [now exists row|]. simpl. repeat split; auto. now exists c. }
  split; [exact Hin|]. split; [|split].
  - intros a c Ha Hc Hage. apply Hin in Ha as (_ & _ & _ & c' & Hc' & Hlt).
    rewrite Hc in Hc'. injection Hc' as <-.
    apply age_below_minimum in Hage. lia.
  - rewrite Hres. unfold selected.
    assert (Hs : StronglySorted leb_rel (selected minAgeDays limit now d))
      by (apply StronglySorted_firstn, ORDER_BY_sorted).
    assert (Hall : Forall (fun row => r_closed_at row <> None)
                     (selected minAgeDays limit now d)).
    { apply Forall_forall. intros row Hrow. apply selected_In in Hrow as [_ Hsel].
      apply reclaimable_true in Hsel as (_ & _ & c & -> & _). discriminate. }
    unfold selected in Hs, Hall. induction Hs as [|row l Hs IH Hfa]; simpl.
    + constructor.
    + inversion Hall as [|? ? Hrow Hall']; subst. constructor; auto.
      rewrite Forall_forall in *. intros a Ha.
      apply in_map_iff in Ha as (row' & <- & Hrow').
      specialize (Hfa _ Hrow'). specialize (Hall' _ Hrow').
      unfold leb_rel, closed_at_leb in Hfa. unfold closedAt_le. simpl.
      destruct (r_closed_at row) as [x|]; [|contradiction].
      destruct (r_closed_at row') as [y|]; [|contradiction].
      exists x, y. repeat split. now apply Z.leb_le.
  - rewrite Hres, length_map. unfold selected. apply firstn_le_length.
Qed.

End DatabaseFacts.

(* ================================================================== *)
(** * Properties of the utilities *)
(* ================================================================== *)

Module HelpersFacts.
Import Helpers RetryPolicy.







(** ** [withRetry] *)



End HelpersFacts.

(* ================================================================== *)
(** * Properties of the gateway *)
(* ================================================================== *)

Module GatewayFacts.
Import Helpers SolanaService Frame.

Section Frames.
Variable R : DatabaseService.Database -> DatabaseService.Database -> Prop.
Variable P : Event -> Prop.
Hypothesis R_refl : forall d, R d d.
Hypothesis R_trans : forall a b c, R a b -> R b c -> R a c.

Lemma steps_refl (w : World) : steps R P w w.
Proof. repeat split; auto. now exists []. Qed.

Lemma steps_trans (w1 w2 w3 : World) :
  steps R P w1 w2 -> steps R P w2 w3 -> steps R P w1 w3.
Proof.
  intros (Hd & Hn & Hs & evs & Ht & Hp) (Hd' & Hn' & Hs' & evs' & Ht' & Hp').
  repeat split; eauto; try congruence; try lia.
  exists (evs' ++ evs)%list. split.
  - rewrite Ht', Ht. now rewrite app_assoc.
  - now apply Forall_app.
Qed.

Lemma steps_event (e : Event) (w w' : World) :
  P e -> db w' = db w -> node w' = node w -> (served w <= served w')%nat ->
  trace w' = e :: trace w -> steps R P w w'.
Proof.
  intros He Hd Hn Hs Ht. repeat split; auto.
  - rewrite Hd. apply R_refl.
  - exists [e]. split; auto.
Qed.

Lemma obeys_ret {A : Type} (a : A) : obeys R P (ret a).
Proof. intros w. apply steps_refl. Qed.

Lemma obeys_throw {A : Type} (e : Thrown) : obeys R P (@throw A e).
Proof. intros w. apply steps_refl. Qed.

Lemma obeys_bind {A B : Type} (c : M A) (k : A -> M B) :
  obeys R P c -> (forall a, obeys R P (k a)) -> obeys R P (bind c k).
Proof.
  intros Hc Hk w. unfold bind. specialize (Hc w).
  destruct (c w) as [w1 [a|e]]; simpl in *; auto.
  eapply steps_trans; [exact Hc | apply Hk].
Qed.

Lemma obeys_try_catch {A : Type} (c : M A) (h : Thrown -> M A) :
  obeys R P c -> (forall e, obeys R P (h e)) -> obeys R P (try_catch c h).
Proof.
  intros Hc Hh w. unfold try_catch. specialize (Hc w).
  destruct (c w) as [w1 [a|e]]; simpl in *; auto.
  eapply steps_trans; [exact Hc | apply Hh].
Qed.

Lemma obeys_db_read {A : Type} (f : DatabaseService.Database -> A) :
  obeys R P (db_read f).
Proof. intros w. apply steps_refl. Qed.

Lemma obeys_Date_now : obeys R P Date_now.
Proof. intros w. apply steps_refl. Qed.

Lemma obeys_db_write (f : Z -> DatabaseService.Database -> DatabaseService.Database) :
  (forall now d, R d (f now d)) -> obeys R P (db_write f).
Proof.
  intros Hf w. unfold db_write. split; [apply Hf|].
  split; [reflexivity|]. split; [apply Nat.le_refl|]. now exists [].
Qed.

Lemma obeys_sleep (ms : Q) : P (Slept ms) -> obeys R P (sleep ms).
Proof. intros H w. now apply steps_event with (e := Slept ms). Qed.

Lemma obeys_request {A : Type} (r : Rpc.Request) (answer : Rpc.Ledger -> A) :
  P (Sent r) -> obeys R P (request r answer).
Proof.
  intros H w. unfold request.
  destruct (Rpc.fault (node w (served w)));
    apply steps_event with (e := Sent r); simpl; auto.
Qed.

Hypothesis P_Acquired : P Acquired.
Hypothesis P_Slept : forall ms, P (Slept ms).

Lemma obeys_acquire : obeys R P acquire.
Proof.
  intros w. unfold acquire.
  destruct (Qle_bool 1 (tokens (rateLimiter (do_refill w)))); simpl.
  - now apply steps_event with (e := Acquired).
  - set (ms := inject_Z (waitTime (rateLimiter (do_refill w)))).
    eapply steps_trans.
    + apply steps_event with (e := Slept ms) (w' := fst (sleep ms (do_refill w)));
        simpl; auto.
    + now apply steps_event with (e := Acquired).
Qed.

Lemma obeys_retry_loop {A : Type} (fn : M A) (opts : RetryOptions) :
  obeys R P fn ->
  forall remaining attempt delay lastError,
    obeys R P (retry_loop fn opts remaining attempt delay lastError).
Proof.
  intros Hfn. induction remaining as [|remaining IH];
    intros attempt delay lastError w; simpl.
  - apply steps_refl.
  - specialize (Hfn w). destruct (fn w) as [w1 [v|[m|]]]; simpl in *; auto.
    destruct (negb (isRetryable opts (toLowerCase m)) || (attempt =? maxAttempts opts))%bool;
      simpl; auto.
    eapply steps_trans; [exact Hfn|].
    eapply steps_trans; [|apply IH].
    now apply obeys_sleep.
Qed.

Lemma obeys_withRetry {A : Type} (fn : M A) (opts : RetryOptions) :
  obeys R P fn -> obeys R P (withRetry fn opts).
Proof. intros H. now apply obeys_retry_loop. Qed.

Lemma obeys_limited {A : Type} (c : M A) : obeys R P c -> obeys R P (limited c).
Proof.
  intros H. unfold limited. apply obeys_bind; [apply obeys_acquire|].
  intros _. now apply obeys_withRetry.
Qed.

End Frames.

(** Solves [obeys eq P c] for a computation built from the primitives. *)
Ltac frame_step :=
  match goal with
  | |- obeys _ _ (match ?x with _ => _ end) => destruct x
  | |- obeys _ _ (ret _) => apply obeys_ret
  | |- obeys _ _ (throw _) => apply obeys_throw
  | |- obeys _ _ Date_now => apply obeys_Date_now
  | |- obeys _ _ (db_read _) => apply obeys_db_read
  | |- obeys _ _ acquire => apply obeys_acquire
  | |- obeys _ _ (sleep _) => apply obeys_sleep
  | |- obeys _ _ (request _ _) => apply obeys_request
  | |- obeys _ _ (limited _) => apply obeys_limited
  | |- obeys _ _ (withRetry _ _) => apply obeys_withRetry
  | |- obeys _ _ (bind _ _) => apply obeys_bind
  | |- obeys _ _ (try_catch _ _) => apply obeys_try_catch
  | |- forall _, _ => intro
  | |- not_submit _ => unfold not_submit, is_submit; tauto
  | |- any_event _ => exact I
  | |- @eq DatabaseService.Database _ _ => congruence
  end.

Ltac frame := repeat frame_step.

Lemma checkAccountState_frame (pk : string) :
  obeys eq not_submit (checkAccountState pk).
Proof. unfold checkAccountState, getRentExemptMinimum. frame. Qed.

Lemma getRentExemptMinimum_frame (size : Z) :
  obeys eq not_submit (getRentExemptMinimum size).
Proof. unfold getRentExemptMinimum. frame. Qed.

Lemma fetch_transactions_frame (sigs : list Rpc.ConfirmedSignatureInfo) :
  forall txs, obeys eq not_submit (fetch_transactions sigs txs).
Proof.
  induction sigs as [|sigInfo rest IH]; intros txs; simpl.
  - frame.
  - destruct (Rpc.sig_err sigInfo); [apply IH|]. frame. apply IH.
Qed.

Lemma scanSponsoredTransactions_frame (before : option string) (limit : nat) :
  obeys eq not_submit (scanSponsoredTransactions before limit).
Proof.
  unfold scanSponsoredTransactions. frame. apply fetch_transactions_frame.
Qed.

Lemma not_submit_any (R : DatabaseService.Database -> DatabaseService.Database -> Prop)
    {A : Type} (c : M A) :
  obeys R not_submit c -> obeys R any_event c.
Proof.
  intros H w. destruct (H w) as (Hd & Hn & Hs & evs & Ht & Hp).
  repeat split; auto. exists evs. split; auto.
  eapply Forall_impl; [|exact Hp]. intros; exact I.
Qed.

Lemma reclaimTokenAccountRent_frame (cfg : BotConfig) (pk dest programId : string)
    (dry : bool) :
  obeys eq any_event (reclaimTokenAccountRent cfg pk dest programId dry).
Proof.
  unfold reclaimTokenAccountRent, checkAccountState, getRentExemptMinimum. frame.
Qed.

Lemma closeSystemAccount_frame (cfg : BotConfig) (pk dest : string) (dry : bool) :
  obeys eq any_event (closeSystemAccount cfg pk dest dry).
Proof.
  unfold closeSystemAccount, checkAccountState, getRentExemptMinimum. frame.
Qed.

(** ** A node that answers from one ledger *)

Section Stable.
Variable L : Rpc.Ledger.

Lemma stable_steps (R : DatabaseService.Database -> DatabaseService.Database -> Prop)
    (P : Event -> Prop) (w w' : World) :
  stable L w -> steps R P w w' -> stable L w'.
Proof.
  intros Hst (_ & Hn & Hs & _) n Hle. rewrite Hn. apply Hst. lia.
Qed.

Lemma yields_ret {A : Type} (a : A) : yields L (ret a) a.
Proof. intros w _. reflexivity. Qed.

Lemma yields_bind {A B : Type}
    (R : DatabaseService.Database -> DatabaseService.Database -> Prop)
    (P : Event -> Prop) (c : M A) (k : A -> M B) (a : A) (b : B) :
  obeys R P c -> yields L c a -> yields L (k a) b -> yields L (bind c k) b.
Proof.
  intros Ho Hc Hk w Hst. unfold bind.
  specialize (Hc w Hst). specialize (Ho w).
  destruct (c w) as [w1 [a'|e]]; simpl in *; [|discriminate].
  injection Hc as ->. apply Hk. eapply stable_steps; eauto.
Qed.

Lemma yields_try_catch {A : Type} (c : M A) (h : Thrown -> M A) (a : A) :
  yields L c a -> yields L (try_catch c h) a.
Proof.
  intros Hc w Hst. unfold try_catch. specialize (Hc w Hst).
  destruct (c w) as [w1 [a'|e]]; simpl in *; [assumption|discriminate].
Qed.

Lemma yields_request {A : Type} (r : Rpc.Request) (answer : Rpc.Ledger -> A) :
  yields L (request r answer) (answer L).
Proof.
  intros w Hst. unfold request.
  destruct (Hst (served w) (Nat.le_refl _)) as [-> ->]. reflexivity.
Qed.

Lemma yields_withRetry {A : Type} (fn : M A) (opts : RetryOptions) (a : A) :
  1 <= maxAttempts opts -> yields L fn a -> yields L (withRetry fn opts) a.
Proof.
  intros Hm Hfn w Hst. unfold withRetry.
  destruct (Z.to_nat (maxAttempts opts)) as [|n] eqn:E; [lia|].
  simpl. specialize (Hfn w Hst).
  destruct (fn w) as [w1 [a'|e]]; simpl in *; [assumption|discriminate].
Qed.

Lemma yields_acquire : yields L acquire tt.
Proof.
  intros w _. unfold acquire.
  destruct (Qle_bool 1 (tokens (rateLimiter (do_refill w)))); reflexivity.
Qed.

Lemma yields_limited {A : Type} (r : Rpc.Request) (answer : Rpc.Ledger -> A) :
  yields L (limited (request r answer)) (answer L).
Proof.
  unfold limited. eapply yields_bind with (R := eq) (P := any_event).
  - frame.
  - apply yields_acquire.
  - apply yields_withRetry; [simpl; lia|]. apply yields_request.
Qed.

Lemma checkAccountState_stable (pk : string) :
  yields L (checkAccountState pk) (observed_state L pk).
Proof.
  unfold checkAccountState.
  eapply yields_bind with (R := eq) (P := any_event);
    [frame | apply yields_acquire |].
  apply yields_try_catch.
  eapply yields_bind with (R := eq) (P := any_event).
  - frame.
  - apply yields_withRetry; [simpl; lia|]. apply yields_request.
  - unfold observed_state. destruct (Rpc.accountInfo L pk) as [ai|].
    + eapply yields_bind with (R := eq) (P := any_event).
      * unfold getRentExemptMinimum. frame.
      * apply yields_limited.
      * apply yields_ret.
    + apply yields_ret.
Qed.

End Stable.

(** ** Tokens and attempts *)







End GatewayFacts.

(* ================================================================== *)
(** * Properties of the reclaim engine *)
(* ================================================================== *)

Module ReclaimFacts.
Import DatabaseService Helpers SolanaService RentReclaimService.
Import Frame ReclaimSpec GatewayFacts.

Lemma too_recent_true (cfg : BotConfig) (a : SponsoredAccount) (now : Z) :
  too_recent cfg a now = true <->
  exists c, closedAt a = Some c /\
            (ageInDays c now < inject_Z (minAccountAgeDays cfg))%Q.
Proof.
  unfold too_recent, Qltb. destruct (closedAt a) as [c|].
  - rewrite negb_true_iff. split.
    + intros H. exists c. split; auto. apply Qnot_le_lt. intros Hle.
      apply Qle_bool_iff in Hle. congruence.
    + intros (c' & [= <-] & Hlt).
      destruct (Qle_bool _ _) eqn:E; auto.
      apply Qle_bool_iff in E. now apply Qle_not_lt in E.
  - split; [discriminate|]. intros (c & Hc & _). discriminate.
Qed.

Lemma rejected_by_age (cfg : BotConfig) (a : SponsoredAccount) (dest : string)
    (dry : bool) (w : World) (c : Z) :
  closedAt a = Some c ->
  (ageInDays c (clock w) < inject_Z (minAccountAgeDays cfg))%Q ->
  reclaimAccount cfg a dest dry w =
  (w, Return (rejected a (too_recent_message (ageInDays c (clock w))
                            (minAccountAgeDays cfg)) dry (clock w))).
Proof.
  intros Hc Hage.
  assert (H : too_recent cfg a (clock w) = true)
    by (apply too_recent_true; eauto).
  unfold reclaimAccount, bind, Date_now, ret. rewrite H, Hc. reflexivity.
Qed.

Lemma rejected_by_minimum (cfg : BotConfig) (a : SponsoredAccount) (dest : string)
    (dry : bool) (w : World) :
  too_recent cfg a (clock w) = false ->
  rentExemptMinimum a < minReclaimLamports cfg ->
  reclaimAccount cfg a dest dry w =
  (w, Return (rejected a (below_minimum_message (rentExemptMinimum a)
                            (minReclaimLamports cfg)) dry (clock w))).
Proof.
  intros Hage Hmin. apply Z.ltb_lt in Hmin.
  unfold reclaimAccount, bind, Date_now, ret. rewrite Hage, Hmin. reflexivity.
Qed.

Lemma rejected_by_allow_list (cfg : BotConfig) (a : SponsoredAccount) (dest : string)
    (dry : bool) (w : World) :
  too_recent cfg a (clock w) = false ->
  minReclaimLamports cfg <= rentExemptMinimum a ->
  isProgramAllowed cfg (owner a) = false ->
  reclaimAccount cfg a dest dry w =
  (set_db (updateAccountStatus (pubkey a) PROTECTED no_fields (clock w) (db w)) w,
   Return (rejected a (not_allowed_message (owner a)) dry (clock w))).
Proof.
  intros Hage Hmin Hallow. apply Z.ltb_ge in Hmin.
  unfold reclaimAccount, bind, Date_now, ret, db_write.
  rewrite Hage, Hmin, Hallow. reflexivity.
Qed.

Lemma caught_returns {A : Type} (c : M A) (f : Thrown -> A) (w : World) :
  exists o, snd (try_catch c (fun e => ret (f e)) w) = Return o.
Proof.
  unfold try_catch. destruct (c w) as [w1 [o|e]]; simpl; eauto.
Qed.

Lemma attemptReclaim_returns (cfg : BotConfig) (a : SponsoredAccount) (dest : string)
    (dry : bool) (w : World) :
  exists o, snd (attemptReclaim cfg a dest dry w) = Return o.
Proof. unfold attemptReclaim. apply caught_returns. Qed.

Lemma attemptReclaim_frame (cfg : BotConfig) (a : SponsoredAccount) (dest : string)
    (dry : bool) :
  obeys eq any_event (attemptReclaim cfg a dest dry).
Proof.
  unfold attemptReclaim. apply obeys_try_catch; try congruence.
  - destruct (type a); try apply reclaimTokenAccountRent_frame;
      try apply closeSystemAccount_frame; frame.
  - frame.
Qed.

(** After the three local checks, the next thing [reclaimAccount] does is
    the re-check, and what follows depends on its answer alone. *)
Lemma after_local_checks (cfg : BotConfig) (a : SponsoredAccount) (dest : string)
    (dry : bool) (w : World) :
  passes_local_checks cfg a (clock w) ->
  reclaimAccount cfg a dest dry w =
  match checkAccountState (pubkey a) w with
  | (w1, Throw e) => (w1, Throw e)
  | (w1, Return st) =>
      if state_exists st then
        (set_db (updateAccountStatus (pubkey a) ACTIVE (revived_fields st)
                   (clock w1) (db w1)) w1,
         Return (rejected a revived_message dry (clock w)))
      else
        match attemptReclaim cfg a dest dry w1 with
        | (w2, Return o) =>
            (fst (bookkeeping a dry o w2), Return (result_of a dry (clock w) o))
        | (w2, Throw e) => (w2, Throw e)
        end
  end.
Proof.
  intros (Hage & Hmin & Hallow). apply Z.ltb_ge in Hmin.
  unfold reclaimAccount, bind, Date_now, ret.
  rewrite Hage, Hmin, Hallow. simpl.
  destruct (checkAccountState (pubkey a) w) as [w1 [st|e]]; auto.
  destruct (state_exists st); auto.
  destruct (attemptReclaim cfg a dest dry w1) as [w2 [o|e]]; auto.
  unfold bookkeeping, db_write, result_of.
  destruct (o_success o); [destruct dry|]; simpl; reflexivity.
Qed.

Lemma update_where_In (pk : string) (f : Row -> Row) (rows : list Row) (row' : Row) :
  In row' (update_where pk f rows) <->
  exists row, In row rows /\ row' = if has_pubkey pk row then f row else row.
Proof.
  unfold update_where. rewrite in_map_iff. split; intros (row & H1 & H2); eauto.
Qed.

Lemma updateAccountStatus_rows (pk : string) (st : AccountStatus)
    (f : PartialAccount) (now : Z) (d : Database) :
  (forall row, In row (sponsored_accounts d) -> r_pubkey row = pk ->
     exists row', In row' (sponsored_accounts (updateAccountStatus pk st f now d)) /\
                  r_pubkey row' = pk) /\
  (forall row', In row' (sponsored_accounts (updateAccountStatus pk st f now d)) ->
     r_pubkey row' = pk ->
     exists row, In row (sponsored_accounts d) /\ row' = status_update st now f row) /\
  (forall row', In row' (sponsored_accounts (updateAccountStatus pk st f now d)) ->
     r_pubkey row' <> pk -> In row' (sponsored_accounts d)) /\
  reclaim_history (updateAccountStatus pk st f now d) = reclaim_history d /\
  bot_state (updateAccountStatus pk st f now d) = bot_state d.
Proof.
  simpl. repeat split.
  - intros row Hin Hk. exists (status_update st now f row). split; auto.
    apply update_where_In. exists row. split; auto.
    apply DatabaseFacts.has_pubkey_true in Hk. now rewrite Hk.
  - intros row' Hin Hk. apply update_where_In in Hin as (row & Hin & ->).
    exists row. split; auto. destruct (has_pubkey pk row) eqn:E; auto.
    apply DatabaseFacts.has_pubkey_false in E. contradiction.
  - intros row' Hin Hk. apply update_where_In in Hin as (row & Hin & ->).
    destruct (has_pubkey pk row) eqn:E; auto.
    apply DatabaseFacts.has_pubkey_true in E. simpl in Hk. contradiction.
Qed.

(** C3.  [reclaimAccount] runs its checks in the order age, minimum
    value, allow-list, re-check, dispatch, and stops at the first that
    fails.  An account that fails the age check gets the age error and the
    world is left exactly as it was: the allow-list check has not marked
    it, and no request has been sent.  One that fails the minimum check
    gets that error, again with the world untouched.  One that fails the
    allow-list check is marked [protected] and no request is sent.  Only
    then comes the re-check, and only if it reports the account absent
    does the dispatch run. *)
Theorem reclaimAccount_check_order :
  forall (cfg : BotConfig) (a : SponsoredAccount) (dest : string) (dry : bool)
         (w : World),
    (forall c, closedAt a = Some c ->
       (ageInDays c (clock w) < inject_Z (minAccountAgeDays cfg))%Q ->
       reclaimAccount cfg a dest dry w =
       (w, Return (rejected a (too_recent_message (ageInDays c (clock w))
                                 (minAccountAgeDays cfg)) dry (clock w)))) /\
    (too_recent cfg a (clock w) = false ->
     rentExemptMinimum a < minReclaimLamports cfg ->
       reclaimAccount cfg a dest dry w =
       (w, Return (rejected a (below_minimum_message (rentExemptMinimum a)
                                 (minReclaimLamports cfg)) dry (clock w)))) /\
    (too_recent cfg a (clock w) = false ->
     minReclaimLamports cfg <= rentExemptMinimum a ->
     isProgramAllowed cfg (owner a) = false ->
       reclaimAccount cfg a dest dry w =
       (set_db (updateAccountStatus (pubkey a) PROTECTED no_fields (clock w) (db w)) w,
        Return (rejected a (not_allowed_message (owner a)) dry (clock w)))) /\
    (passes_local_checks cfg a (clock w) ->
     forall w1 c, checkAccountState (pubkey a) w = (w1, c) ->
       match c with
       | Throw e => reclaimAccount cfg a dest dry w = (w1, Throw e)
       | Return st =>
           if state_exists st then
             reclaimAccount cfg a dest dry w =
             (set_db (updateAccountStatus (pubkey a) ACTIVE (revived_fields st)
                        (clock w1) (db w1)) w1,
              Return (rejected a revived_message dry (clock w)))
           else
             exists w2 o,
               attemptReclaim cfg a dest dry w1 = (w2, Return o) /\
               reclaimAccount cfg a dest dry w =
               (fst (bookkeeping a dry o w2), Return (result_of a dry (clock w) o))
       end).
Proof.
  intros cfg a dest dry w. split; [|split; [|split]].
  - intros c. apply rejected_by_age.
  - apply rejected_by_minimum.
  - apply rejected_by_allow_list.
  - intros Hp w1 c Hc. rewrite (after_local_checks _ _ _ _ _ Hp), Hc.
    destruct c as [st|e]; auto. destruct (state_exists st); auto.
    destruct (attemptReclaim_returns cfg a dest dry w1) as [o Ho].
    destruct (attemptReclaim cfg a dest dry w1) as [w2 c2]. simpl in Ho. subst c2.
    now exists w2, o.
Qed.

(** C1.  When the three local checks pass and the re-check reports that
    the account exists, [reclaimAccount] ends right there: the world is the
    one the re-check left, with the stored record set to [active] and to
    the balance just observed; the result is a failure whose error says
    that the account was revived; no attempt is recorded; and since the
    re-check itself sends no transaction, none is submitted. *)
Theorem reclaimAccount_revival :
  forall (cfg : BotConfig) (a : SponsoredAccount) (dest : string) (dry : bool)
         (w w1 : World) (st : AccountState),
    passes_local_checks cfg a (clock w) ->
    checkAccountState (pubkey a) w = (w1, Return st) ->
    state_exists st = true ->
    let d' := updateAccountStatus (pubkey a) ACTIVE (revived_fields st)
                (clock w1) (db w) in
    reclaimAccount cfg a dest dry w =
      (set_db d' w1, Return (rejected a revived_message dry (clock w))) /\
    (forall row, In row (sponsored_accounts (db w)) -> r_pubkey row = pubkey a ->
       exists row', In row' (sponsored_accounts d') /\ r_pubkey row' = pubkey a) /\
    (forall row', In row' (sponsored_accounts d') -> r_pubkey row' = pubkey a ->
       r_status row' = ACTIVE /\ r_lamports row' = state_lamports st) /\
    reclaim_history d' = reclaim_history (db w) /\
    exists evs, trace (set_db d' w1) = (evs ++ trace w)%list /\ Forall not_submit evs.
Proof.
  intros cfg a dest dry w w1 st Hp Hc Hex d'.
  pose proof (checkAccountState_frame (pubkey a) w) as Hf.
  rewrite Hc in Hf. destruct Hf as (Hd & _ & _ & evs & Ht & Hev). simpl in *.
  split; [|split; [|split; [|split]]].
  - rewrite (after_local_checks _ _ _ _ _ Hp), Hc, Hex. unfold d'. now rewrite Hd.
  - apply updateAccountStatus_rows.
  - intros row' Hin Hk.
    apply updateAccountStatus_rows in Hin as (row & _ & ->); auto.
  - reflexivity.
  - exists evs. split; auto.
Qed.

Lemma truthy_string_idem (o : option string) :
  truthy_string (truthy_string o) = truthy_string o.
Proof.
  destruct o as [s|]; simpl; auto. destruct (String.eqb s "") eqn:E; simpl; auto.
  now rewrite E.
Qed.





(** ** The dispatch on a chain that stands still *)

Lemma reclaimTokenAccountRent_absent (L : Rpc.Ledger) (cfg : BotConfig)
    (pk dest programId : string) (dry : bool) :
  Rpc.accountInfo L pk = None ->
  yields L (reclaimTokenAccountRent cfg pk dest programId dry)
    (failed "Account does not exist (already closed)").
Proof.
  intros Habs. unfold reclaimTokenAccountRent. apply yields_try_catch.
  eapply yields_bind with (R := eq) (P := any_event).
  - apply not_submit_any, checkAccountState_frame.
  - apply checkAccountState_stable.
  - unfold observed_state. rewrite Habs. simpl. apply yields_ret.
Qed.

Lemma closeSystemAccount_absent (L : Rpc.Ledger) (cfg : BotConfig)
    (pk dest : string) (dry : bool) :
  Rpc.accountInfo L pk = None ->
  yields L (closeSystemAccount cfg pk dest dry) (failed "Account does not exist").
Proof.
  intros Habs. unfold closeSystemAccount. apply yields_try_catch.
  eapply yields_bind with (R := eq) (P := any_event).
  - apply not_submit_any, checkAccountState_frame.
  - apply checkAccountState_stable.
  - unfold observed_state. rewrite Habs. simpl. apply yields_ret.
Qed.

Lemma attemptReclaim_absent (L : Rpc.Ledger) (cfg : BotConfig) (a : SponsoredAccount)
    (dest : string) (dry : bool) :
  Rpc.accountInfo L (pubkey a) = None ->
  exists msg, yields L (attemptReclaim cfg a dest dry) (failed msg).
Proof.
  intros Habs. unfold attemptReclaim.
  destruct (type a); eexists; apply yields_try_catch;
    try (now apply reclaimTokenAccountRent_absent);
    try (now apply closeSystemAccount_absent);
    apply yields_ret.
Qed.

(** While the chain stands still, no call of [reclaimAccount] succeeds:
    a handle that exists is "revived", one that does not is refused by the
    method that should close it. *)
Lemma reclaimAccount_fails_on_stable_chain (L : Rpc.Ledger) (cfg : BotConfig)
    (a : SponsoredAccount) (dest : string) (dry : bool) (w w' : World)
    (r : ReclaimResult) :
  stable L w ->
  reclaimAccount cfg a dest dry w = (w', Return r) ->
  success r = false.
Proof.
  intros Hst Hrun.
  destruct (too_recent cfg a (clock w)) eqn:Hage.
  { apply too_recent_true in Hage as (c & Hc & Hlt).
    rewrite (rejected_by_age _ _ _ _ _ _ Hc Hlt) in Hrun. now injection Hrun as <- <-. }
  destruct (Z.lt_ge_cases (rentExemptMinimum a) (minReclaimLamports cfg)) as [Hmin|Hmin].
  { rewrite (rejected_by_minimum _ _ _ _ _ Hage Hmin) in Hrun.
    now injection Hrun as <- <-. }
  destruct (isProgramAllowed cfg (owner a)) eqn:Hallow.
  2:{ rewrite (rejected_by_allow_list _ _ _ _ _ Hage Hmin Hallow) in Hrun.
      now injection Hrun as <- <-. }
  assert (Hp : passes_local_checks cfg a (clock w)) by (repeat split; auto).
  rewrite (after_local_checks _ _ _ _ _ Hp) in Hrun.
  pose proof (checkAccountState_stable L (pubkey a) w Hst) as Hy.
  pose proof (checkAccountState_frame (pubkey a) w) as Hf.
  destruct (checkAccountState (pubkey a) w) as [w1 c]. simpl in Hy, Hf. subst c.
  assert (Hst1 : stable L w1) by (eapply stable_steps; eauto).
  destruct (state_exists (observed_state L (pubkey a))) eqn:Hex.
  { now injection Hrun as <- <-. }
  assert (Habs : Rpc.accountInfo L (pubkey a) = None).
  { unfold observed_state in Hex. destruct (Rpc.accountInfo L (pubkey a)); auto.
    discriminate. }
  destruct (attemptReclaim_absent L cfg a dest dry Habs) as [msg Hy2].
  specialize (Hy2 w1 Hst1).
  destruct (attemptReclaim cfg a dest dry w1) as [w2 c]. simpl in Hy2. subst c.
  now injection Hrun as <- <-.
Qed.

(** C2 (the code departs from the claim).  The scenario R1: a token
    account closed 10 days ago, minimum age 7, rent-exempt minimum
    2,039,280 against a threshold of 890,880, controller on the allow-list,
    token balance zero, absent from the chain.  The local checks pass and
    the re-check finds it absent, so the dispatch runs; but
    [reclaimTokenAccountRent] asks for the account again and refuses it
    because it does not exist.  The simulated reclaim returns a failure
    with amount 0, and a failure record is appended to the store. *)
Theorem R1_simulated_reclaim_is_refused :
  let a := rowToAccount Scenario.R1 in
  let out := reclaimAccount Scenario.cfg a "Treasury" true Scenario.quiet in
  passes_local_checks Scenario.cfg a (clock Scenario.quiet) /\
  state_exists (observed_state Scenario.closed_ledger "R1") = false /\
  snd out =
    Return {| success := false; account := "R1"; amount := 0; signature := None;
              error := Some "Account does not exist (already closed)";
              dryRun := true; timestamp := Scenario.today |} /\
  sponsored_accounts (db (fst out)) = sponsored_accounts Scenario.store /\
  reclaim_history (db (fst out)) =
    [failure_record "R1" true (Some "Account does not exist (already closed)")
       (Scenario.today + 40)].
Proof.
  split; [|split; [|split; [|split]]].
  - repeat split; vm_compute; congruence.
  - reflexivity.
  - vm_compute. reflexivity.
  - vm_compute. reflexivity.
  - vm_compute. reflexivity.
Qed.

(** The one way to the success that the scenario expects: the handle is
    absent when the re-check asks and exists again when
    [reclaimTokenAccountRent] asks. *)
Lemma R1_simulated_reclaim_of_a_late_revival :
  let a := rowToAccount Scenario.R1 in
  let out := reclaimAccount Scenario.cfg a "Treasury" true Scenario.revived_late in
  snd out =
    Return {| success := true; account := "R1"; amount := 2039280; signature := None;
              error := None; dryRun := true; timestamp := Scenario.today |} /\
  db (fst out) = Scenario.store.
Proof. split; vm_compute; reflexivity. Qed.

End ReclaimFacts.

(* ================================================================== *)
(** * Properties of discovery *)
(* ================================================================== *)

Module MonitorFacts.
Import DatabaseService Helpers SolanaService AccountMonitorService.
Import Frame DiscoverySpec GatewayFacts.

Lemma find_app_None {A : Type} (f : A -> bool) (l l' : list A) :
  find f l = None -> find f (l ++ l') = find f l'.
Proof.
  induction l as [|x l IH]; simpl; auto. destruct (f x); [discriminate|auto].
Qed.


Lemma tracked_app (pk : string) (d d' : Database) (new : list Row) :
  sponsored_accounts d' = (sponsored_accounts d ++ new)%list ->
  tracked pk d -> tracked pk d'.
Proof.
  unfold tracked, getAccount. intros -> H.
  destruct (find (has_pubkey pk) (sponsored_accounts d)) as [row|] eqn:E;
    [|contradiction].
  apply find_some in E as [Hin Hk].
  destruct (find (has_pubkey pk) (sponsored_accounts d ++ new)) eqn:E'; [discriminate|].
  eapply find_none in E'; [|apply in_or_app; left; exact Hin]. congruence.
Qed.













(** ** Scanning a ledger that stands still *)












(** ** The page loop ends *)










End MonitorFacts.

(* ================================================================== *)
(** * Facts about the array and string utilities *)
(* ================================================================== *)

Module MoreHelpersFacts.
Import Helpers MoreHelpers.

(** ** [chunk] *)

Lemma slice_window {T : Type} (l : list T) (i size : Z) :
  0 <= i -> 0 <= size ->
  slice l i (i + size) = firstn (Z.to_nat size) (skipn (Z.to_nat i) l).
Proof.
  intros Hi Hs. unfold slice.
  destruct (Z.ltb_spec i 0); [lia|].
  destruct (Z.ltb_spec (i + size) 0); [lia|].
  destruct (Z.le_gt_cases i (Z.of_nat (List.length l))) as [Hin | Hout].
  - rewrite (Z.min_l i) by lia.
    destruct (Z.le_gt_cases (i + size) (Z.of_nat (List.length l))).
    + rewrite Z.min_l by lia. replace (i + size - i) with size by lia. reflexivity.
    + rewrite Z.min_r by lia.
      rewrite !firstn_all2; auto; rewrite length_skipn; lia.
  - rewrite (Z.min_r i) by lia. rewrite Z.min_r by lia.
    rewrite (skipn_all2 l) by lia. rewrite (skipn_all2 l) by lia.
    now rewrite !firstn_nil.
Qed.

Lemma chunk_loop_spec {T : Type} (array : list T) (size : Z) :
  1 <= size ->
  forall fuel i chunks,
    0 <= i ->
    Z.max 0 (Z.of_nat (List.length array) - i) < Z.of_nat fuel ->
    exists cs,
      chunk_loop fuel array size i chunks = Some (chunks ++ cs)%list /\
      List.concat cs = skipn (Z.to_nat i) array /\
      Forall (fun c => 1 <= Z.of_nat (List.length c) <= size) cs /\
      Forall (fun c => Z.of_nat (List.length c) = size) (removelast cs) /\
      (Z.of_nat (List.length array) <= i -> cs = []).
Proof.
  intros Hsize. induction fuel as [|fuel IH]; intros i chunks Hi Hfuel.
  - lia.
  - cbn [chunk_loop].
    destruct (Z.ltb_spec i (Z.of_nat (List.length array))) as [Hlt | Hge].
    + destruct (IH (i + size) (chunks ++ [slice array i (i + size)])%list)
        as (cs & Hrun & Hcat & Hlen & Hfull & Hlast); [lia | lia |].
      set (c := slice array i (i + size)) in *.
      assert (Hc : c = firstn (Z.to_nat size) (skipn (Z.to_nat i) array))
        by (apply slice_window; lia).
      assert (Hclen : Z.of_nat (List.length c)
                      = Z.min size (Z.of_nat (List.length array) - i)).
      { rewrite Hc, length_firstn, length_skipn. lia. }
      exists (c :: cs). split; [|split; [|split; [|split]]].
      * rewrite Hrun, <- app_assoc. reflexivity.
      * cbn [List.concat]. rewrite Hcat, Hc.
        replace (Z.to_nat (i + size)) with (Z.to_nat size + Z.to_nat i)%nat by lia.
        rewrite <- skipn_skipn. apply firstn_skipn.
      * constructor; [lia | exact Hlen].
      * destruct cs as [|c' cs'] eqn:Ecs; [constructor|].
        change (removelast (c :: c' :: cs')) with (c :: removelast (c' :: cs')).
        constructor; [|exact Hfull].
        destruct (Z.le_gt_cases (Z.of_nat (List.length array)) (i + size)) as [Hend|Hmore].
        -- specialize (Hlast Hend). discriminate.
        -- lia.
      * intros; lia.
    + exists []. rewrite app_nil_r. split; [reflexivity|].
      split; [|split; [constructor | split; [constructor | reflexivity]]].
      cbn. symmetry. apply skipn_all2. lia.
Qed.

(** X1. For a size of at least 1 [chunk] returns, and its chunks are a
    partition of the array in order: concatenated they give the array back,
    none is empty or longer than [size], and all but the last one hold
    exactly [size] elements. *)
Theorem chunk_partitions {T : Type} (array : list T) (size : Z) (fuel : nat) :
  1 <= size ->
  (List.length array < fuel)%nat ->
  exists chunks,
    chunk fuel array size = Some chunks /\
    List.concat chunks = array /\
    Forall (fun c => 1 <= Z.of_nat (List.length c) <= size) chunks /\
    Forall (fun c => Z.of_nat (List.length c) = size) (removelast chunks).
Proof.
  intros Hsize Hfuel.
  destruct (chunk_loop_spec array size Hsize fuel 0 [])
    as (cs & Hrun & Hcat & Hlen & Hfull & _); [lia | lia |].
  exists cs. unfold chunk. rewrite Hrun. auto.
Qed.

Lemma chunk_loop_diverges {T : Type} (array : list T) (size : Z) :
  size <= 0 -> array <> [] ->
  forall fuel i chunks, i <= 0 -> chunk_loop fuel array size i chunks = None.
Proof.
  intros Hsize Hne. induction fuel as [|fuel IH]; intros i chunks Hi; [reflexivity|].
  cbn [chunk_loop].
  destruct (Z.ltb_spec i (Z.of_nat (List.length array))) as [_ | Hge].
  - apply IH. lia.
  - destruct array; [congruence | cbn [List.length] in Hge; lia].
Qed.

(** X2. With a size of 0 or less the loop of [chunk] never ends on a
    non-empty array: the index never passes the length, whatever number of
    iterations is allowed. *)
Theorem chunk_never_ends {T : Type} (array : list T) (size : Z) :
  size <= 0 -> array <> [] ->
  forall fuel, chunk fuel array size = None.
Proof.
  intros Hsize Hne fuel. unfold chunk.
  apply chunk_loop_diverges; auto. lia.
Qed.

(** ** [unique] *)

Lemma string_in_In (s : string) (l : list string) :
  SolanaService.string_in s l = true <-> In s l.
Proof.
  unfold SolanaService.string_in. rewrite existsb_exists. split.
  - intros (x & Hin & Heq). apply String.eqb_eq in Heq. now subst.
  - intros Hin. exists s. split; [auto | apply String.eqb_refl].
Qed.

Lemma string_in_not_In (s : string) (l : list string) :
  SolanaService.string_in s l = false <-> ~ In s l.
Proof.
  rewrite <- string_in_In. destruct (SolanaService.string_in s l); split; congruence.
Qed.

Lemma unique_filter_spec {T : Type} (keyFn : T -> string) :
  forall array seen,
    let r := unique_filter keyFn array seen in
    NoDup (map keyFn r) /\
    (forall y, In y r -> ~ In (keyFn y) seen) /\
    (forall k, ~ In k seen ->
       find (fun x => String.eqb (keyFn x) k) r
       = find (fun x => String.eqb (keyFn x) k) array) /\
    incl r array.
Proof.
  induction array as [|item rest IH]; intros seen; cbn zeta.
  - cbn. split; [constructor|]. split; [tauto|]. split; [reflexivity | apply incl_refl].
  - cbn [unique_filter].
    destruct (SolanaService.string_in (keyFn item) seen) eqn:Eseen.
    + destruct (IH seen) as (Hnd & Hout & Hfind & Hincl).
      split; [exact Hnd|]. split; [exact Hout|]. split.
      * intros k Hk. rewrite (Hfind k Hk). cbn [find].
        destruct (String.eqb_spec (keyFn item) k) as [<- | _]; [|reflexivity].
        apply string_in_In in Eseen. contradiction.
      * now apply incl_tl.
    + apply string_in_not_In in Eseen.
      destruct (IH (keyFn item :: seen)) as (Hnd & Hout & Hfind & Hincl).
      split; [|split; [|split]].
      * cbn [map]. constructor; [|exact Hnd].
        intros Hin. apply in_map_iff in Hin. destruct Hin as (y & Hy & Hiny).
        apply (Hout y Hiny). left. now symmetry.
      * intros y [<- | Hy]; [exact Eseen|].
        intros Hin. apply (Hout y Hy). now right.
      * intros k Hk. cbn [find].
        destruct (String.eqb_spec (keyFn item) k) as [Heq | Hneq]; [reflexivity|].
        apply Hfind. intros [Heq | Hin]; auto.
      * intros y [<- | Hy]; [now left | right; now apply Hincl].
Qed.

Lemma unique_filter_fixed {T : Type} (keyFn : T -> string) :
  forall array seen,
    NoDup (map keyFn array) ->
    (forall y, In y array -> ~ In (keyFn y) seen) ->
    unique_filter keyFn array seen = array.
Proof.
  induction array as [|item rest IH]; intros seen Hnd Hout; [reflexivity|].
  cbn [unique_filter]. cbn [map] in Hnd. inversion Hnd as [|? ? Hnotin Hnd']; subst.
  assert (Hitem : SolanaService.string_in (keyFn item) seen = false).
  { apply string_in_not_In. apply Hout. now left. }
  rewrite Hitem. f_equal. apply IH; [exact Hnd'|].
  intros y Hy [Heq | Hin].
  - apply Hnotin. rewrite Heq. now apply in_map.
  - apply (Hout y); [now right | exact Hin].
Qed.

(** X3. [unique] with a key function keeps, for every key, exactly the
    first element of the array that has it: the keys of the result are
    pairwise different, looking a key up in the result finds what it finds
    in the array, nothing is invented, and a second pass changes nothing. *)
Theorem unique_keeps_first {T : Type} (keyFn : T -> string) (array : list T) :
  NoDup (map keyFn (unique array keyFn)) /\
  (forall k,
     find (fun x => String.eqb (keyFn x) k) (unique array keyFn)
     = find (fun x => String.eqb (keyFn x) k) array) /\
  incl (unique array keyFn) array /\
  unique (unique array keyFn) keyFn = unique array keyFn.
Proof.
  unfold unique.
  destruct (unique_filter_spec keyFn array []) as (Hnd & _ & Hfind & Hincl).
  split; [exact Hnd|]. split; [|split; [exact Hincl|]].
  - intros k. apply Hfind. intros [].
  - apply unique_filter_fixed; [exact Hnd | intros y _ []].
Qed.

End MoreHelpersFacts.

(* ================================================================== *)
(** * Facts about the formatting utilities *)
(* ================================================================== *)

Module FormattingFacts.
Import MoreHelpers.

Lemma substring_none (s : string) : forall n, String.substring n 0 s = "".
Proof.
  induction s as [|c s IH]; intros [|n]; cbn; auto.
Qed.

Lemma substring_whole (s : string) : String.substring 0 (String.length s) s = s.
Proof.
  induction s as [|c s IH]; cbn; [reflexivity | now rewrite IH].
Qed.

Lemma substring_length (s : string) :
  forall n m, (n + m <= String.length s)%nat ->
    String.length (String.substring n m s) = m.
Proof.
  induction s as [|c s IH]; intros n m H; cbn [String.length] in H.
  - assert (n = 0%nat) by lia. assert (m = 0%nat) by lia. subst. reflexivity.
  - destruct n as [|n].
    + destruct m as [|m]; [reflexivity|].
      cbn. f_equal. apply IH. lia.
    + cbn. apply IH. lia.
Qed.

Lemma substring_split (s : string) :
  forall n m k, (n + m + k <= String.length s)%nat ->
    String.substring n (m + k) s
    = (String.substring n m s ++ String.substring (n + m) k s)%string.
Proof.
  induction s as [|c s IH]; intros n m k H; cbn [String.length] in H.
  - assert (n = 0%nat) by lia. assert (m = 0%nat) by lia. assert (k = 0%nat) by lia.
    subst. reflexivity.
  - destruct n as [|n].
    + destruct m as [|m].
      * cbn [String.substring Nat.add]. reflexivity.
      * cbn [String.substring Nat.add String.append]. f_equal.
        apply (IH 0%nat m k). lia.
    + cbn [String.substring Nat.add]. apply IH. lia.
Qed.

Lemma length_append (a b : string) :
  String.length (a ++ b) = (String.length a + String.length b)%nat.
Proof.
  induction a as [|c a IH]; cbn; [reflexivity | now rewrite IH].
Qed.

(** The two calls of [substring] that [truncateMiddle] and [maskString]
    make, for a number [n] of characters that fits into the string. *)
Lemma substring_head (str : string) (n : Z) :
  0 <= n <= Z.of_nat (String.length str) ->
  substring str 0 n = String.substring 0 (Z.to_nat n) str.
Proof.
  intros H. unfold substring, clamp.
  rewrite (Z.min_l 0), (Z.max_l 0 0), (Z.min_l n), (Z.max_r 0 n) by lia.
  rewrite Z.min_l, Z.max_r by lia.
  replace (n - 0) with n by lia. reflexivity.
Qed.

Lemma substring_tail (str : string) (n : Z) :
  0 <= n <= Z.of_nat (String.length str) ->
  substring_from str (Z.of_nat (String.length str) - n)
  = String.substring (String.length str - Z.to_nat n) (Z.to_nat n) str.
Proof.
  intros H. unfold substring_from, substring, clamp.
  set (len := Z.of_nat (String.length str)) in *.
  rewrite (Z.min_l (len - n)), (Z.max_r 0 (len - n)), (Z.min_l len len),
    (Z.max_r 0 len) by lia.
  rewrite Z.min_l, Z.max_r by lia.
  replace (len - (len - n)) with n by lia.
  replace (Z.to_nat (len - n)) with (String.length str - Z.to_nat n)%nat by lia.
  reflexivity.
Qed.

Lemma substring_head_negative (str : string) (n : Z) :
  n <= 0 -> substring str 0 n = "".
Proof.
  intros H. unfold substring, clamp.
  rewrite (Z.min_l 0), (Z.max_l 0 0) by lia.
  rewrite (Z.max_l 0 (Z.min n _)) by lia.
  cbn. apply substring_none.
Qed.

Lemma substring_tail_beyond (str : string) (a : Z) :
  Z.of_nat (String.length str) <= a -> substring_from str a = "".
Proof.
  intros H. unfold substring_from, substring, clamp.
  set (len := Z.of_nat (String.length str)) in *.
  rewrite (Z.min_r a len), (Z.min_l len len), (Z.max_r 0 len) by lia.
  rewrite Z.min_l, Z.max_l by lia.
  replace (len - len) with 0 by lia. apply substring_none.
Qed.

(** What is shown of a string of which the first and the last [n]
    characters are kept: the string is [pre ++ mid ++ suf]. *)
Lemma ends_of (str : string) (n : nat) :
  (2 * n <= String.length str)%nat ->
  let pre := String.substring 0 n str in
  let mid := String.substring n (String.length str - 2 * n) str in
  let suf := String.substring (String.length str - n) n str in
  str = (pre ++ mid ++ suf)%string /\
  String.length pre = n /\ String.length suf = n /\
  String.length mid = (String.length str - 2 * n)%nat.
Proof.
  intros H pre mid suf. split; [|split; [|split]].
  - rewrite <- (substring_whole str) at 1.
    replace (String.length str) with (n + (String.length str - n))%nat at 1 by lia.
    rewrite (substring_split str 0 n) by lia. fold pre. f_equal.
    replace (String.length str - n)%nat
      with ((String.length str - 2 * n) + n)%nat at 1 by lia.
    rewrite (substring_split str (0 + n)) by lia. cbn [Nat.add]. fold mid. f_equal.
    unfold suf. f_equal. lia.
  - apply substring_length. lia.
  - apply substring_length. lia.
  - apply substring_length. lia.
Qed.

(** X4. [truncateMiddle] returns a string that fits unchanged.  A longer
    one is cut to its first and last [floor((maxLen - 3) / 2)] characters
    around three dots, which is never longer than [maxLen] when [maxLen]
    is at least 3; below 3 the result is the three dots alone, longer than
    asked for. *)
Theorem truncateMiddle_shape (str : string) (maxLen : Z) :
  let len := Z.of_nat (String.length str) in
  let halfLen := (maxLen - 3) / 2 in
  (len <= maxLen -> truncateMiddle str maxLen = str) /\
  (maxLen < len -> 3 <= maxLen ->
     exists pre mid suf,
       str = (pre ++ mid ++ suf)%string /\
       truncateMiddle str maxLen = (pre ++ "..." ++ suf)%string /\
       Z.of_nat (String.length pre) = halfLen /\
       Z.of_nat (String.length suf) = halfLen /\
       maxLen - 1 <= Z.of_nat (String.length (truncateMiddle str maxLen)) <= maxLen) /\
  (maxLen < len -> maxLen < 3 -> truncateMiddle str maxLen = "...").
Proof.
  intros len halfLen. unfold truncateMiddle. fold len. fold halfLen.
  split; [|split].
  - intros H. destruct (Z.leb_spec len maxLen); [reflexivity | lia].
  - intros Hlong Hmin. destruct (Z.leb_spec len maxLen); [lia|].
    assert (Hhalf : 0 <= halfLen /\ maxLen - 4 <= 2 * halfLen <= maxLen - 3).
    { unfold halfLen.
      pose proof (Z.div_mod (maxLen - 3) 2 ltac:(lia)).
      pose proof (Z.mod_pos_bound (maxLen - 3) 2 ltac:(lia)). lia. }
    destruct (ends_of str (Z.to_nat halfLen)) as (Hstr & Hpre & Hsuf & _);
      [unfold len in *; lia|].
    rewrite substring_head by (unfold len in *; lia).
    unfold len. rewrite substring_tail by (unfold len in *; lia).
    eexists _, _, _. split; [exact Hstr|]. split; [reflexivity|].
    rewrite Hpre, Hsuf. split; [lia|]. split; [lia|].
    rewrite !length_append, Hpre, Hsuf. cbn [String.length]. lia.
  - intros Hlong Hmin. destruct (Z.leb_spec len maxLen); [lia|].
    assert (Hhalf : halfLen < 0).
    { unfold halfLen.
      pose proof (Z.div_mod (maxLen - 3) 2 ltac:(lia)).
      pose proof (Z.mod_pos_bound (maxLen - 3) 2 ltac:(lia)). lia. }
    rewrite substring_head_negative by lia.
    rewrite substring_tail_beyond by (unfold len; lia). reflexivity.
Qed.

(** X5. [maskString] never shows a whole string: for a non-negative
    [showChars] the result is either the constant mask, or the first and
    the last [showChars] characters around three dots with at least one
    character of the string left out between them. *)
Theorem maskString_hides (str : string) (showChars : Z) :
  0 <= showChars ->
  maskString str showChars = "****" \/
  exists pre mid suf,
    str = (pre ++ mid ++ suf)%string /\
    maskString str showChars = (pre ++ "..." ++ suf)%string /\
    Z.of_nat (String.length pre) = showChars /\
    Z.of_nat (String.length suf) = showChars /\
    mid <> "".
Proof.
  intros Hshow. unfold maskString.
  destruct (Z.leb_spec (Z.of_nat (String.length str)) (showChars * 2)) as [|Hlong];
    [now left | right].
  destruct (ends_of str (Z.to_nat showChars)) as (Hstr & Hpre & Hsuf & Hmid); [lia|].
  rewrite substring_head by lia. rewrite substring_tail by lia.
  eexists _, _, _. split; [exact Hstr|]. split; [reflexivity|].
  rewrite Hpre, Hsuf. split; [lia|]. split; [lia|].
  intros Hempty. rewrite Hempty in Hmid. cbn [String.length] in Hmid. lia.
Qed.

End FormattingFacts.

(* ================================================================== *)
(** * Facts about the rate limiter over several calls *)
(* ================================================================== *)

Module LimiterFacts.
Import Helpers MoreHelpers.



Lemma acquire_returns (w : World) : snd (acquire w) = Return tt.
Proof.
  unfold acquire.
  destruct (Qle_bool 1 (tokens (rateLimiter (do_refill w)))); reflexivity.
Qed.






End LimiterFacts.

(* ================================================================== *)
(** * More facts about the store *)
(* ================================================================== *)

Module StoreFacts.
Import DatabaseService MoreDatabase StoreSpec DiscoverySpec.

Lemma find_update_where (pk pk' : string) (f : Row -> Row) (rows : list Row) :
  (forall row, r_pubkey (f row) = r_pubkey row) ->
  find (has_pubkey pk') (update_where pk f rows)
  = option_map (fun row => if has_pubkey pk row then f row else row)
      (find (has_pubkey pk') rows).
Proof.
  intros Hf. induction rows as [|row rows IH]; [reflexivity|].
  cbn [update_where map find]. fold (update_where pk f rows).
  assert (Hk : has_pubkey pk' (if has_pubkey pk row then f row else row)
               = has_pubkey pk' row).
  { unfold has_pubkey at 1 3. destruct (has_pubkey pk row); [now rewrite Hf | reflexivity]. }
  rewrite Hk. destruct (has_pubkey pk' row); [reflexivity | exact IH].
Qed.

Lemma with_accounts_same (d : Database) : with_accounts (sponsored_accounts d) d = d.
Proof. destruct d; reflexivity. Qed.

Lemma update_where_missing (pk : string) (f : Row -> Row) (rows : list Row) :
  (forall row, In row rows -> r_pubkey row <> pk) ->
  update_where pk f rows = rows.
Proof.
  intros H. unfold update_where. rewrite <- (map_id rows) at 2.
  apply map_ext_in. intros row Hin.
  apply H, DatabaseFacts.has_pubkey_false in Hin. now rewrite Hin.
Qed.

Lemma pubkeys_upsertAccount (a : SponsoredAccount) (d : Database) :
  pubkeys (upsertAccount a d)
  = match getAccount (pubkey a) d with
    | Some _ => pubkeys d
    | None => (pubkeys d ++ [pubkey a])%list
    end.
Proof.
  unfold upsertAccount, pubkeys. destruct (getAccount (pubkey a) d); cbn.
  - now apply DatabaseFacts.update_where_keys.
  - now rewrite map_app.
Qed.

Lemma tracked_pubkeys (pk : string) (d : Database) :
  tracked pk d <-> In pk (pubkeys d).
Proof.
  unfold tracked, pubkeys. split.
  - intros H. destruct (getAccount pk d) as [a|] eqn:E; [|contradiction].
    apply DatabaseFacts.getAccount_Some_In in E as (row & Hin & Hk & _).
    apply in_map_iff. eauto.
  - intros Hin Hnone. apply in_map_iff in Hin as (row & Hk & Hin).
    rewrite DatabaseFacts.getAccount_None in Hnone. now apply (Hnone row).
Qed.

Lemma upsertAccount_keys (a : SponsoredAccount) (d : Database) :
  NoDup (pubkeys d) ->
  NoDup (pubkeys (upsertAccount a d)) /\
  In (pubkey a) (pubkeys (upsertAccount a d)) /\
  incl (pubkeys d) (pubkeys (upsertAccount a d)) /\
  (forall pk, In pk (pubkeys (upsertAccount a d)) -> pk = pubkey a \/ In pk (pubkeys d)).
Proof.
  intros Hnd. rewrite pubkeys_upsertAccount.
  destruct (getAccount (pubkey a) d) as [x|] eqn:E.
  - split; [exact Hnd|]. split; [|split; [apply incl_refl | auto]].
    apply tracked_pubkeys. unfold tracked. congruence.
  - split; [|split; [|split]].
    + apply NoDup_app; [exact Hnd | repeat constructor; intros [] |].
      intros k Hk [<- | []]. apply tracked_pubkeys in Hk. contradiction.
    + apply in_or_app. right. now left.
    + apply incl_appl, incl_refl.
    + intros pk Hin. apply in_app_or in Hin as [Hin | [<- | []]]; auto.
Qed.

(** X8. The primary key holds: [batchUpsertAccounts] (and so
    [upsertAccount]) never leaves two rows with one [pubkey], also when the
    batch names a key twice; afterwards every account of the batch is
    tracked, and the table tracks the keys it had and those of the batch,
    nothing else. *)
Theorem batchUpsertAccounts_keys (accounts : list SponsoredAccount) (d : Database) :
  NoDup (pubkeys d) ->
  NoDup (pubkeys (batchUpsertAccounts accounts d)) /\
  (forall pk, In pk (pubkeys (batchUpsertAccounts accounts d))
              <-> In pk (pubkeys d) \/ In pk (map pubkey accounts)).
Proof.
  unfold batchUpsertAccounts. revert d.
  induction accounts as [|a rest IH]; intros d Hnd; cbn [fold_left map].
  - split; [exact Hnd|]. intros pk. cbn. tauto.
  - destruct (upsertAccount_keys a d Hnd) as (Hnd' & Hin & Hincl & Hfrom).
    destruct (IH (upsertAccount a d) Hnd') as (Hnd'' & Hkeys).
    split; [exact Hnd''|]. intros pk. rewrite Hkeys. cbn [In]. split.
    + intros [H | H]; [|auto]. destruct (Hfrom pk H) as [-> | H']; auto.
    + intros [H | [<- | H]]; auto.
Qed.

Lemma truthy_number_idem (o : option Z) : truthy_number (truthy_number o) = truthy_number o.
Proof.
  destruct o as [n|]; [|reflexivity]. cbn.
  destruct (n =? 0) eqn:E; cbn; [reflexivity | now rewrite E].
Qed.

Lemma rowToAccount_normalized (row : Row) : normalized (rowToAccount row).
Proof.
  unfold normalized, rowToAccount. cbn.
  rewrite !ReclaimFacts.truthy_string_idem, truthy_number_idem. auto.
Qed.

Lemma rowToAccount_insert (a : SponsoredAccount) :
  normalized a -> rowToAccount (upsert_insert a) = a.
Proof.
  intros (Hsig & Hamt & Herr & Hmeta). destruct a. unfold rowToAccount, upsert_insert.
  cbn in *. rewrite !ReclaimFacts.truthy_string_idem, truthy_number_idem.
  rewrite Hsig, Hamt, Herr, Hmeta. reflexivity.
Qed.

Lemma getAccount_upsert_other (a : SponsoredAccount) (pk : string) (d : Database) :
  pk <> pubkey a -> getAccount pk (upsertAccount a d) = getAccount pk d.
Proof.
  intros Hne. unfold upsertAccount.
  destruct (getAccount (pubkey a) d) eqn:E; unfold getAccount; cbn.
  - rewrite find_update_where by reflexivity.
    destruct (find (has_pubkey pk) (sponsored_accounts d)) as [row|] eqn:Ef; [|reflexivity].
    cbn. apply find_some in Ef as [_ Hk]. apply DatabaseFacts.has_pubkey_true in Hk.
    assert (Hmiss : has_pubkey (pubkey a) row = false)
      by (apply DatabaseFacts.has_pubkey_false; congruence).
    now rewrite Hmiss.
  - destruct (find (has_pubkey pk) (sponsored_accounts d)) as [row|] eqn:Ef.
    + assert (Hfind : find (has_pubkey pk) (sponsored_accounts d ++ [upsert_insert a])
                      = Some row); [|now rewrite Hfind].
      clear E. induction (sponsored_accounts d) as [|r rs IH]; [discriminate|].
      cbn in *. destruct (has_pubkey pk r); auto.
    + rewrite (MonitorFacts.find_app_None _ _ _ Ef). cbn.
      destruct (String.eqb_spec (pubkey a) pk); [congruence | reflexivity].
Qed.

(** X9. Insert and lookup round trip: an account upserted under a key
    that the store does not track is what [getAccount] returns for that key
    afterwards, field for field, provided its optional values are in the
    store's form; what is returned for any other key is not affected. *)
Theorem upsertAccount_round_trip (a : SponsoredAccount) (d : Database) :
  getAccount (pubkey a) d = None ->
  normalized a ->
  getAccount (pubkey a) (upsertAccount a d) = Some a /\
  forall pk, pk <> pubkey a -> getAccount pk (upsertAccount a d) = getAccount pk d.
Proof.
  intros Hnew Hnorm. split; [|intros pk; apply getAccount_upsert_other].
  unfold upsertAccount. rewrite Hnew. unfold getAccount in *. cbn.
  destruct (find (has_pubkey (pubkey a)) (sponsored_accounts d)) eqn:Ef; [discriminate|].
  rewrite (MonitorFacts.find_app_None _ _ _ Ef). cbn [find].
  assert (Hhit : has_pubkey (pubkey a) (upsert_insert a) = true)
    by (apply DatabaseFacts.has_pubkey_true; reflexivity).
  rewrite Hhit. cbn [option_map]. now rewrite rowToAccount_insert.
Qed.

(** X10. [updateAccountStatus] on a key that the store does not track
    changes nothing at all (the UPDATE matches no row, and nothing is
    raised).  On a tracked key the account read back has the new status,
    the time of the call as [lastCheckedAt] and the given [lamports] if
    any, and keeps its identity; reading any other key gives what it gave
    before. *)
Theorem updateAccountStatus_lookup (pk : string) (st : AccountStatus)
    (f : PartialAccount) (now : Z) (d : Database) :
  let d' := updateAccountStatus pk st f now d in
  (getAccount pk d = None -> d' = d) /\
  (forall old, getAccount pk d = Some old ->
     exists new,
       getAccount pk d' = Some new /\
       pubkey new = pk /\ status new = st /\ lastCheckedAt new = now /\
       lamports new = match p_lamports f with Some v => v | None => lamports old end /\
       type new = type old /\ owner new = owner old /\
       rentExemptMinimum new = rentExemptMinimum old /\
       createdAt new = createdAt old) /\
  (forall pk', pk' <> pk -> getAccount pk' d' = getAccount pk' d).
Proof.
  intros d'. subst d'. split; [|split].
  - intros Hnone. unfold updateAccountStatus.
    rewrite update_where_missing; [apply with_accounts_same|].
    now apply DatabaseFacts.getAccount_None.
  - intros old Hold. unfold getAccount in *. cbn.
    rewrite find_update_where by reflexivity.
    destruct (find (has_pubkey pk) (sponsored_accounts d)) as [row|] eqn:Ef;
      [|discriminate].
    cbn in Hold. injection Hold as <-.
    apply find_some in Ef as [_ Hk]. cbn [option_map]. rewrite Hk.
    eexists. split; [reflexivity|]. cbn.
    apply DatabaseFacts.has_pubkey_true in Hk. auto 10.
  - intros pk' Hne. unfold getAccount. cbn.
    rewrite find_update_where by reflexivity.
    destruct (find (has_pubkey pk') (sponsored_accounts d)) as [row|] eqn:Ef; [|reflexivity].
    cbn. apply find_some in Ef as [_ Hk]. apply DatabaseFacts.has_pubkey_true in Hk.
    assert (Hmiss : has_pubkey pk row = false)
      by (apply DatabaseFacts.has_pubkey_false; congruence).
    now rewrite Hmiss.
Qed.

Lemma find_filter_other (key k : string) (rows : list StateRow) :
  k <> key ->
  find (fun r => String.eqb (s_key r) k)
    (filter (fun r => negb (String.eqb (s_key r) key)) rows)
  = find (fun r => String.eqb (s_key r) k) rows.
Proof.
  intros Hne. induction rows as [|r rows IH]; [reflexivity|]. cbn.
  destruct (String.eqb_spec (s_key r) key) as [Heq | Hneq]; cbn.
  - destruct (String.eqb_spec (s_key r) k); [congruence | exact IH].
  - destruct (String.eqb (s_key r) k); [reflexivity | exact IH].
Qed.

Lemma find_filter_same (key : string) (rows : list StateRow) :
  find (fun r => String.eqb (s_key r) key)
    (filter (fun r => negb (String.eqb (s_key r) key)) rows) = None.
Proof.
  induction rows as [|r rows IH]; [reflexivity|]. cbn.
  destruct (String.eqb (s_key r) key) eqn:E; cbn; [exact IH|]. now rewrite E.
Qed.

Lemma filter_filter_none (key : string) (rows : list StateRow) :
  filter (fun r => String.eqb (s_key r) key)
    (filter (fun r => negb (String.eqb (s_key r) key)) rows) = [].
Proof.
  induction rows as [|r rows IH]; [reflexivity|]. cbn.
  destruct (String.eqb (s_key r) key) eqn:E; cbn; [exact IH|]. now rewrite E.
Qed.

(** X11. [setState] and [getState] round trip: the value written under a
    key is the value read back, whatever was stored under it before; the
    table then holds exactly one row for the key; every other key reads as
    before; the account and history tables are not touched. *)
Theorem setState_getState (key value : string) (now : Z) (d : Database) :
  let d' := setState key value now d in
  getState key d' = Some value /\
  List.length (filter (fun r => String.eqb (s_key r) key) (bot_state d')) = 1%nat /\
  (forall k, k <> key -> getState k d' = getState k d) /\
  sponsored_accounts d' = sponsored_accounts d /\
  reclaim_history d' = reclaim_history d.
Proof.
  cbn zeta. unfold getState, setState. cbn [bot_state sponsored_accounts reclaim_history].
  split; [|split; [|split; [|split; reflexivity]]].
  - rewrite (MonitorFacts.find_app_None _ _ _ (find_filter_same key (bot_state d))).
    cbn. now rewrite String.eqb_refl.
  - rewrite filter_app, filter_filter_none. cbn. now rewrite String.eqb_refl.
  - intros k Hne. f_equal.
    destruct (find (fun r => String.eqb (s_key r) k) (bot_state d)) as [r|] eqn:Ef.
    + rewrite <- (find_filter_other key k) in Ef by exact Hne.
      revert Ef. generalize (filter (fun r => negb (String.eqb (s_key r) key)) (bot_state d)).
      induction l as [|x l IH]; [discriminate|]. cbn.
      destruct (String.eqb (s_key x) k); auto.
    + rewrite <- (find_filter_other key k) in Ef by exact Hne.
      rewrite (MonitorFacts.find_app_None _ _ _ Ef). cbn.
      destruct (String.eqb_spec key k); [congruence | reflexivity].
Qed.

(** ** A reclaimed account is not selected again *)

Lemma reclaimed_once_update_where (pk pk' : string) (f : Row -> Row) (d : Database) :
  (forall row, r_pubkey (f row) = r_pubkey row) ->
  (forall row, r_reclaimed_at row <> None -> r_reclaimed_at (f row) <> None) ->
  reclaimed_once pk d ->
  reclaimed_once pk (with_accounts (update_where pk' f (sponsored_accounts d)) d).
Proof.
  intros Hkey Hkeep [Htracked Hset]. split.
  - unfold getAccount in *. cbn. rewrite find_update_where by exact Hkey.
    destruct (find (has_pubkey pk) (sponsored_accounts d)); [discriminate | contradiction].
  - cbn. intros row' Hin Hk.
    apply ReclaimFacts.update_where_In in Hin as (row & Hin & ->).
    destruct (has_pubkey pk' row).
    + apply Hkeep, (Hset row Hin). now rewrite <- Hkey.
    + now apply (Hset row Hin).
Qed.

Lemma reclaimed_once_updateAccountStatus (pk pk' : string) (st : AccountStatus)
    (f : PartialAccount) (now : Z) (d : Database) :
  reclaimed_once pk d -> reclaimed_once pk (updateAccountStatus pk' st f now d).
Proof.
  apply reclaimed_once_update_where; [reflexivity|].
  intros row. cbn. apply DatabaseFacts.COALESCE_set.
Qed.

Lemma reclaimed_once_apply_op (pk : string) (op : StoreOp) (now : Z) (d : Database) :
  reclaimed_once pk d -> reclaimed_once pk (apply_op op now d).
Proof.
  intros H. destruct op as [a | pk' st f | pk' sig amt | | ]; cbn [apply_op].
  - unfold upsertAccount. destruct (getAccount (pubkey a) d) eqn:E.
    + apply reclaimed_once_update_where; [reflexivity | | exact H].
      intros row. cbn. apply DatabaseFacts.COALESCE_set.
    + destruct H as [Htracked Hset]. split.
      * eapply MonitorFacts.tracked_app with (d := d); [reflexivity | exact Htracked].
      * cbn. intros row Hin Hk. apply in_app_or in Hin as [Hin | [<- | []]].
        -- now apply (Hset row Hin).
        -- cbn in Hk. congruence.
  - now apply reclaimed_once_updateAccountStatus.
  - unfold markAsReclaimed.
    exact (reclaimed_once_updateAccountStatus pk pk' RECLAIMED
             {| p_lamports := None; p_closedAt := None; p_reclaimedAt := Some now;
                p_reclaimTxSignature := truthy_string sig;
                p_reclaimedAmount := Some amt; p_errorMessage := None |} now d H).
  - exact H.
  - exact H.
Qed.

Lemma reclaimed_once_apply_ops (pk : string) (ops : list (StoreOp * Z)) :
  forall d, reclaimed_once pk d -> reclaimed_once pk (apply_ops ops d).
Proof.
  induction ops as [|[op now] rest IH]; intros d H; cbn [apply_ops]; [exact H|].
  now apply IH, reclaimed_once_apply_op.
Qed.

Lemma markAsReclaimed_once (pk : string) (sig : option string) (amt now : Z)
    (d : Database) :
  getAccount pk d <> None -> reclaimed_once pk (markAsReclaimed pk sig amt now d).
Proof.
  intros Htracked. split.
  - unfold markAsReclaimed, getAccount in *. cbn.
    rewrite find_update_where by reflexivity.
    destruct (find (has_pubkey pk) (sponsored_accounts d)); [discriminate | contradiction].
  - unfold markAsReclaimed. cbn. intros row' Hin Hk.
    apply ReclaimFacts.update_where_In in Hin as (row & Hin & ->).
    destruct (has_pubkey pk row) eqn:E; [cbn; discriminate|].
    apply DatabaseFacts.has_pubkey_false in E. contradiction.
Qed.

Lemma reclaimed_once_not_selected (pk : string) (d : Database) (minAgeDays : Z)
    (limit : nat) (now : Z) :
  reclaimed_once pk d ->
  ~ In pk (map pubkey (getReclaimableAccounts minAgeDays limit now d)).
Proof.
  intros [_ Hset] Hin. unfold getReclaimableAccounts in Hin.
  rewrite map_map in Hin. apply in_map_iff in Hin as (row & Hk & Hin).
  apply (DatabaseFacts.selected_In minAgeDays limit now d row) in Hin as [Hin Hsel].
  apply DatabaseFacts.reclaimable_true in Hsel as (_ & Hnone & _).
  now apply (Hset row Hin).
Qed.

(** X12. No second reclaim: once [markAsReclaimed] has run for a tracked
    account, [getReclaimableAccounts] never returns it again, whatever
    calls of the writing methods of the store follow, at whatever times
    (a later upsert or status update may set the status back to [closed],
    but none clears [reclaimed_at]). *)
Theorem reclaimed_account_stays_ineligible (pk : string) (sig : option string)
    (amt now : Z) (d : Database) (ops : list (StoreOp * Z))
    (minAgeDays : Z) (limit : nat) (now' : Z) :
  getAccount pk d <> None ->
  ~ In pk (map pubkey
             (getReclaimableAccounts minAgeDays limit now'
                (apply_ops ops (markAsReclaimed pk sig amt now d)))).
Proof.
  intros Htracked.
  apply reclaimed_once_not_selected, reclaimed_once_apply_ops.
  now apply markAsReclaimed_once.
Qed.

(** ** [getAccountsByStatus] and [getStatistics] *)

Lemma has_status_true (st : AccountStatus) (row : Row) :
  has_status st row = true <-> r_status row = st.
Proof.
  unfold has_status. destruct (r_status row), st; cbn; split; congruence.
Qed.

(** X13. [getAccountsByStatus]: every account returned has the status
    asked for; without a limit, and also with the limit 0, every row of
    that status is returned, in table order; a positive limit returns the
    first [limit] of them. *)
Theorem getAccountsByStatus_limit (st : AccountStatus) (d : Database) :
  (forall limit a, In a (getAccountsByStatus st limit d) -> status a = st) /\
  (forall row, In row (sponsored_accounts d) -> r_status row = st ->
     In (rowToAccount row) (getAccountsByStatus st None d)) /\
  getAccountsByStatus st (Some O) d = getAccountsByStatus st None d /\
  (forall n, getAccountsByStatus st (Some (S n)) d
             = firstn (S n) (getAccountsByStatus st None d)) /\
  Z.of_nat (List.length (getAccountsByStatus st None d)) = rows_with st d.
Proof.
  split; [|split; [|split; [|split]]].
  - intros limit a Hin. unfold getAccountsByStatus in Hin.
    apply in_map_iff in Hin as (row & <- & Hin).
    assert (Hrow : In row (filter (has_status st) (sponsored_accounts d))).
    { destruct limit as [[|n]|]; auto. now apply DatabaseFacts.In_firstn in Hin. }
    apply filter_In in Hrow as [_ Hst]. now apply has_status_true.
  - intros row Hin Hst. unfold getAccountsByStatus. apply in_map, filter_In.
    split; [exact Hin | now apply has_status_true].
  - reflexivity.
  - intros n. unfold getAccountsByStatus. now rewrite firstn_map.
  - unfold getAccountsByStatus, rows_with. now rewrite length_map.
Qed.

Lemma fold_sum_acc (g : Row -> Z) (rows : list Row) :
  forall acc,
    fold_left (fun a r => a + g r) rows acc
    = acc + fold_left (fun a r => a + g r) rows 0.
Proof.
  induction rows as [|r rows IH]; intros acc; cbn [fold_left]; [lia|].
  rewrite (IH (acc + g r)), (IH (0 + g r)). lia.
Qed.

Lemma sum_status_cons (st : AccountStatus) (column : Row -> Z) (row : Row)
    (rows : list Row) :
  sum_status st column (row :: rows)
  = (if has_status st row then column row else 0) + sum_status st column rows.
Proof.
  unfold sum_status. cbn [fold_left].
  rewrite (fold_sum_acc (fun r => if has_status st r then column r else 0)). lia.
Qed.

Lemma count_status_sum (st : AccountStatus) (rows : list Row) :
  count_status st rows = sum_status st (fun _ => 1) rows.
Proof. reflexivity. Qed.

Lemma count_status_filter (st : AccountStatus) (rows : list Row) :
  count_status st rows = Z.of_nat (List.length (filter (has_status st) rows)).
Proof.
  rewrite count_status_sum.
  induction rows as [|row rows IH]; [reflexivity|].
  rewrite sum_status_cons, IH. cbn [filter].
  destruct (has_status st row); cbn [List.length]; lia.
Qed.

Lemma filter_status_cons (st : AccountStatus) (row : Row) (rows : list Row) :
  Z.of_nat (List.length (filter (has_status st) (row :: rows)))
  = (if AccountStatus_eqb (r_status row) st then 1 else 0)
    + Z.of_nat (List.length (filter (has_status st) rows)).
Proof.
  cbn [filter]. unfold has_status at 1.
  destruct (AccountStatus_eqb (r_status row) st); cbn [List.length]; lia.
Qed.

(** X14. The counts of [getStatistics] are the numbers of rows of each
    status, as [getAccountsByStatus] returns them; together with the rows
    of status [empty], which no category counts, they add up to the total:
    the five categories cover the table exactly when no row is [empty]. *)
Theorem getStatistics_partition (d : Database) :
  let s := getStatistics d in
  activeAccounts s = Z.of_nat (List.length (getAccountsByStatus ACTIVE None d)) /\
  closedAccounts s = Z.of_nat (List.length (getAccountsByStatus CLOSED None d)) /\
  reclaimedAccounts s = Z.of_nat (List.length (getAccountsByStatus RECLAIMED None d)) /\
  protectedAccounts s = Z.of_nat (List.length (getAccountsByStatus PROTECTED None d)) /\
  errorAccounts s = Z.of_nat (List.length (getAccountsByStatus ERROR None d)) /\
  totalAccounts s
  = activeAccounts s + closedAccounts s + reclaimedAccounts s
    + protectedAccounts s + errorAccounts s + rows_with EMPTY d.
Proof.
  cbn zeta. unfold getStatistics, getAccountsByStatus, rows_with.
  cbn [activeAccounts closedAccounts reclaimedAccounts protectedAccounts
       errorAccounts totalAccounts].
  rewrite !length_map, !count_status_filter.
  do 5 (split; [reflexivity|]).
  fold (has_status EMPTY).
  induction (sponsored_accounts d) as [|row rows IH]; [reflexivity|].
  rewrite !filter_status_cons. cbn [List.length]. rewrite Nat2Z.inj_succ, IH.
  destruct (r_status row); cbn [AccountStatus_eqb]; lia.
Qed.

Lemma sum_status_update (st : AccountStatus) (column : Row -> Z) (pk : string)
    (f : Row -> Row) (row : Row) (rows : list Row) :
  NoDup (map r_pubkey rows) -> In row rows -> r_pubkey row = pk ->
  sum_status st column (update_where pk f rows)
  = sum_status st column rows
    - (if has_status st row then column row else 0)
    + (if has_status st (f row) then column (f row) else 0).
Proof.
  intros Hnd Hin Hk. induction rows as [|x rows IH]; [contradiction|].
  cbn [map] in Hnd. inversion Hnd as [|? ? Hnotin Hnd']; subst.
  unfold update_where. cbn [map]. fold (update_where (r_pubkey row) f rows).
  rewrite !sum_status_cons.
  destruct (has_pubkey (r_pubkey row) x) eqn:E.
  - apply DatabaseFacts.has_pubkey_true in E.
    assert (x = row) as ->.
    { destruct Hin as [Heq | Hin]; [exact Heq|].
      exfalso. apply Hnotin. rewrite E. now apply in_map. }
    rewrite update_where_missing; [lia|].
    intros r Hr Hkr. apply Hnotin. rewrite <- Hkr. now apply in_map.
  - apply DatabaseFacts.has_pubkey_false in E.
    destruct Hin as [Heq | Hin]; [congruence|].
    rewrite (IH Hnd' Hin). lia.
Qed.

(** X15. The statistics follow a reclaim: when the keys of the table are
    pairwise different and [pk] is tracked with status [closed],
    [markAsReclaimed] moves one account from "closed" to "reclaimed", takes
    its rent-exempt minimum out of the reclaimable total, adds the amount
    to the reclaimed total, and changes no other figure. *)
Theorem markAsReclaimed_statistics (pk : string) (sig : option string) (amt now : Z)
    (d : Database) (row : Row) :
  NoDup (pubkeys d) ->
  In row (sponsored_accounts d) -> r_pubkey row = pk -> r_status row = CLOSED ->
  let s := getStatistics d in
  let s' := getStatistics (markAsReclaimed pk sig amt now d) in
  closedAccounts s' = closedAccounts s - 1 /\
  reclaimedAccounts s' = reclaimedAccounts s + 1 /\
  totalReclaimableLamports s' = totalReclaimableLamports s - r_rent_exempt_minimum row /\
  totalReclaimedLamports s' = totalReclaimedLamports s + amt /\
  totalAccounts s' = totalAccounts s /\
  activeAccounts s' = activeAccounts s /\
  protectedAccounts s' = protectedAccounts s /\
  errorAccounts s' = errorAccounts s /\
  totalLockedLamports s' = totalLockedLamports s.
Proof.
  intros Hnd Hin Hk Hst. cbn zeta. unfold getStatistics, markAsReclaimed.
  cbn [closedAccounts reclaimedAccounts totalReclaimableLamports totalReclaimedLamports
       totalAccounts activeAccounts protectedAccounts errorAccounts totalLockedLamports
       recordReclaimAttempt updateAccountStatus with_accounts sponsored_accounts].
  rewrite DatabaseFacts.update_where_length, !count_status_sum.
  rewrite !(sum_status_update _ _ pk _ row) by assumption.
  unfold has_status. cbn [status_update r_status r_lamports r_rent_exempt_minimum
                          r_reclaimed_amount COALESCE p_reclaimedAmount].
  rewrite Hst. cbn [AccountStatus_eqb]. repeat split; lia.
Qed.

End StoreFacts.

(* ================================================================== *)
(** * What the gateway never does *)
(* ================================================================== *)

Module SafetyFacts.
Import Helpers SolanaService RentReclaimService Frame SafetySpec GatewayFacts.

Lemma steps_mono (R R' : DatabaseService.Database -> DatabaseService.Database -> Prop)
    (P P' : Event -> Prop) (w w' : World) :
  (forall d d', R d d' -> R' d d') -> (forall e, P e -> P' e) ->
  steps R P w w' -> steps R' P' w w'.
Proof.
  intros HR HP (Hd & Hn & Hs & evs & Ht & Hev).
  split; [now apply HR|]. split; [exact Hn|]. split; [exact Hs|].
  exists evs. split; [exact Ht|]. eapply Forall_impl; [|exact Hev]. exact HP.
Qed.

Lemma obeys_weaken (R : DatabaseService.Database -> DatabaseService.Database -> Prop)
    (P P' : Event -> Prop) {A : Type} (c : M A) :
  (forall d, R d d) -> (forall e, P e -> P' e) ->
  obeys eq P c -> obeys R P' c.
Proof.
  intros HR HP H w. eapply steps_mono; [| exact HP | apply H].
  intros d d' <-. apply HR.
Qed.

(** The events that a computation has added are not submissions. *)
Lemma steps_no_submit (R : DatabaseService.Database -> DatabaseService.Database -> Prop)
    (w w' : World) (evs : list Event) :
  steps R not_submit w w' -> trace w' = (evs ++ trace w)%list ->
  ~ Exists is_submit evs.
Proof.
  intros (_ & _ & _ & evs' & Ht & Hev) Ht' Hex.
  rewrite Ht in Ht'. apply app_inv_tail in Ht'. subst evs'.
  apply Exists_exists in Hex as (e & Hin & He).
  rewrite Forall_forall in Hev. now apply (Hev e Hin).
Qed.

(** ** The block list *)

Lemma isProgramAllowed_blocked (cfg : BotConfig) (programId : string) :
  In programId (blockedPrograms cfg) -> isProgramAllowed cfg programId = false.
Proof.
  intros Hin. apply MoreHelpersFacts.string_in_In in Hin.
  unfold isProgramAllowed. rewrite Hin.
  destruct (allowedPrograms cfg); cbn; [reflexivity | apply andb_false_r].
Qed.

(** X16. The block list wins: an account owned by a blocked program is
    never reclaimed, whatever the allow-list says.  [reclaimAccount]
    returns a failure without sending any request to the node (the trace
    and the number of requests served are as before) and without recording
    an attempt; for a simulated run as for a real one. *)
Theorem reclaimAccount_blocked (cfg : BotConfig) (a : SponsoredAccount)
    (dest : string) (dry : bool) (w : World) :
  In (owner a) (blockedPrograms cfg) ->
  let out := reclaimAccount cfg a dest dry w in
  (exists r, snd out = Return r /\ success r = false /\ amount r = 0 /\
             signature r = None) /\
  trace (fst out) = trace w /\
  served (fst out) = served w /\
  DatabaseService.reclaim_history (db (fst out)) = DatabaseService.reclaim_history (db w).
Proof.
  intros Hblocked. cbn zeta.
  unfold reclaimAccount, bind, Date_now, ret, db_write.
  destruct (too_recent cfg a (clock w)); cbn [fst snd].
  - split; [eexists; split; [reflexivity | cbn; auto] | auto].
  - destruct (rentExemptMinimum a <? minReclaimLamports cfg); cbn [fst snd].
    + split; [eexists; split; [reflexivity | cbn; auto] | auto].
    + rewrite (isProgramAllowed_blocked cfg (owner a) Hblocked). cbn [negb fst snd].
      split; [eexists; split; [reflexivity | cbn; auto] | auto].
Qed.

(** ** [closeSystemAccount] *)

Lemma detectAccountType_SYSTEM (ai : Rpc.AccountInfo) :
  detectAccountType ai = SYSTEM -> Rpc.ai_owner ai = SYSTEM_PROGRAM_ID.
Proof.
  unfold detectAccountType.
  destruct (String.eqb_spec (Rpc.ai_owner ai) SYSTEM_PROGRAM_ID); [auto|].
  destruct (String.eqb (Rpc.ai_owner ai) TOKEN_PROGRAM_ID); [discriminate|].
  destruct (String.eqb (Rpc.ai_owner ai) TOKEN_2022_PROGRAM_ID); [discriminate|].
  destruct (String.eqb (Rpc.ai_owner ai) ASSOCIATED_TOKEN); [discriminate|].
  destruct (0 <? Rpc.ai_data_length ai); discriminate.
Qed.

Lemma checkAccountState_SYSTEM (pk : string) (w : World) (st : AccountState) :
  snd (checkAccountState pk w) = Return st ->
  state_type st = SYSTEM -> state_owner st = SYSTEM_PROGRAM_ID.
Proof.
  unfold checkAccountState, bind, try_catch, ret, throw.
  destruct (acquire w) as [w0 [[]|e0]]; cbn [snd]; [|discriminate].
  destruct (withRetry _ _ w0) as [w1 [[ai|]|e1]]; cbn [snd]; try discriminate.
  - destruct (getRentExemptMinimum _ w1) as [w2 [rent|e2]]; cbn [snd]; [|discriminate].
    intros [= <-]. cbn. apply detectAccountType_SYSTEM.
  - intros [= <-]. cbn. discriminate.
Qed.

(** X17. [closeSystemAccount] cannot work for an operator whose key is not
    the System Program's own address: the account must be owned by the
    System Program to have type [system], and by the operator to pass the
    ownership check.  For every other operator the method returns a
    failure and submits no transaction, whatever the node answers, in a
    real run as in a simulated one. *)
Theorem closeSystemAccount_never_succeeds (cfg : BotConfig) (pk dest : string)
    (dry : bool) (w : World) :
  operatorPublicKey cfg <> SYSTEM_PROGRAM_ID ->
  let out := closeSystemAccount cfg pk dest dry w in
  (exists o, snd out = Return o /\ o_success o = false /\ o_signature o = None) /\
  steps eq not_submit w (fst out).
Proof.
  intros Hop. cbn zeta. unfold closeSystemAccount, try_catch, bind, ret.
  pose proof (checkAccountState_frame pk w) as Hf.
  pose proof (checkAccountState_SYSTEM pk w) as Hsys.
  destruct (checkAccountState pk w) as [w1 [st|e]]; cbn [fst snd] in *.
  - specialize (Hsys st eq_refl).
    destruct (negb (state_exists st)); cbn [fst snd].
    + split; [eexists; split; [reflexivity | cbn; auto] | exact Hf].
    + destruct (state_type st) eqn:Ety; cbn [fst snd];
        try (split; [eexists; split; [reflexivity | cbn; auto] | exact Hf]).
      specialize (Hsys eq_refl).
      destruct (String.eqb_spec (state_owner st) (operatorPublicKey cfg)) as [Heq|Hne];
        [congruence|]. cbn [negb fst snd].
      split; [eexists; split; [reflexivity | cbn; auto] | exact Hf].
  - split; [eexists; split; [reflexivity | cbn; auto] | exact Hf].
Qed.

(** ** [reclaimTokenAccountRent] *)

Lemma submits_only_not_submit (ix : Rpc.TransactionInstruction) (e : Event) :
  not_submit e -> submits_only ix e.
Proof. unfold not_submit, submits_only. tauto. Qed.

Lemma submit_frame (ix : Rpc.TransactionInstruction) :
  obeys eq (submits_only ix)
    (limited (request (Rpc.SendAndConfirmTransaction ix)
                (fun L => Rpc.confirmed L ix))).
Proof.
  apply obeys_limited; try congruence.
  - intros H. destruct H.
  - intros ms H. destruct H.
  - apply obeys_request; [congruence|]. intros _. reflexivity.
Qed.

(** The token lookup of [reclaimTokenAccountRent]: it is not wrapped in
    [withRetry] and consumes no token. *)
Lemma token_lookup_step (pk programId : string) (w1 : World) :
  let w2 := fst (request (Rpc.GetTokenAccount pk programId)
                   (fun L => Rpc.tokenAccount L pk programId) w1) in
  steps eq not_submit w1 w2 /\ served w2 = S (served w1).
Proof.
  cbn zeta. split.
  - apply obeys_request; [congruence|]. unfold not_submit, is_submit. tauto.
  - unfold request. destruct (Rpc.fault (node w1 (served w1))); reflexivity.
Qed.

Lemma token_cases (cfg : BotConfig) (pk dest programId : string) (dry : bool)
    (w : World) :
  let out := reclaimTokenAccountRent cfg pk dest programId dry w in
  let ix := Rpc.CloseAccount pk dest (operatorPublicKey cfg) programId in
  steps eq (submits_only ix) w (fst out) /\
  ((steps eq not_submit w (fst out) /\
    forall o, snd out = Return o -> o_success o = false) \/
   ((exists n, (served w <= n < served (fst out))%nat /\
               closable_at cfg pk programId w n) /\
    (dry = true -> steps eq not_submit w (fst out)))).
Proof.
  cbn zeta. unfold reclaimTokenAccountRent, try_catch, bind, ret, throw.
  pose proof (checkAccountState_frame pk w) as Hf.
  assert (Hquiet : forall w',
             steps eq not_submit w w' ->
             steps eq (submits_only (Rpc.CloseAccount pk dest (operatorPublicKey cfg)
                                       programId)) w w').
  { intros w'. apply steps_mono; [auto | apply submits_only_not_submit]. }
  destruct (checkAccountState pk w) as [w1 [st|e]]; cbn [fst snd] in *;
    [|split; [now apply Hquiet | left; split; [exact Hf | now intros o [= <-]]]].
  destruct (negb (state_exists st)); cbn [fst snd];
    [split; [now apply Hquiet | left; split; [exact Hf | now intros o [= <-]]]|].
  destruct (negb (is_token_type (state_type st))); cbn [fst snd];
    [split; [now apply Hquiet | left; split; [exact Hf | now intros o [= <-]]]|].
  destruct (token_lookup_step pk programId w1) as [Hlook Hserved].
  assert (Hf2 : steps eq not_submit w
                  (fst (request (Rpc.GetTokenAccount pk programId)
                          (fun L => Rpc.tokenAccount L pk programId) w1))).
  { eapply steps_trans; [congruence | exact Hf | exact Hlook]. }
  assert (Hreply : forall v,
             snd (request (Rpc.GetTokenAccount pk programId)
                    (fun L => Rpc.tokenAccount L pk programId) w1) = Return v ->
             Rpc.fault (node w (served w1)) = None /\
             Rpc.tokenAccount (Rpc.ledger (node w (served w1))) pk programId = v).
  { destruct Hf as (_ & Hnode & _). rewrite <- Hnode. unfold request.
    destruct (Rpc.fault (node w1 (served w1))); cbn [snd]; [discriminate|].
    intros v [= <-]. auto. }
  destruct (request (Rpc.GetTokenAccount pk programId)
              (fun L => Rpc.tokenAccount L pk programId) w1) as [w2 [lookup|e]];
    cbn [fst snd] in *;
    [|split; [now apply Hquiet | left; split; [exact Hf2 | now intros o [= <-]]]].
  destruct (Hreply lookup eq_refl) as [Hfault Hlookup].
  destruct lookup as [info | | m]; cbn [fst snd];
    try (split; [now apply Hquiet | left; split; [exact Hf2 | now intros o [= <-]]]).
  destruct (String.eqb (Rpc.ta_owner info) (operatorPublicKey cfg)
            || match Rpc.ta_closeAuthority info with
               | Some c => String.eqb c (operatorPublicKey cfg)
               | None => false
               end)%bool eqn:Eauth; cbn [negb fst snd];
    [|split; [now apply Hquiet | left; split; [exact Hf2 | now intros o [= <-]]]].
  destruct (Z.ltb_spec 0 (Rpc.ta_amount info)) as [Hpos | Hzero]; cbn [fst snd];
    [split; [now apply Hquiet | left; split; [exact Hf2 | now intros o [= <-]]]|].
  assert (Hclosable : closable_at cfg pk programId w (served w1)).
  { exists info. split; [exact Hfault|]. split; [exact Hlookup|]. split; [|exact Hzero].
    unfold has_authority. apply orb_true_iff in Eauth as [Ho | Hc].
    - left. now apply String.eqb_eq.
    - right. destruct (Rpc.ta_closeAuthority info) as [c|]; [|discriminate].
      apply String.eqb_eq in Hc. now subst. }
  assert (Hbefore : (served w <= served w1)%nat) by (destruct Hf as (_ & _ & Hs & _); exact Hs).
  destruct dry; cbn [fst snd].
  - split; [now apply Hquiet|]. right. split; [|intros _; exact Hf2].
    exists (served w1). split; [lia | exact Hclosable].
  - pose proof (submit_frame (Rpc.CloseAccount pk dest (operatorPublicKey cfg) programId) w2)
      as Hsub.
    assert (Hafter : (served w2 <= served
              (fst (limited (request (Rpc.SendAndConfirmTransaction
                        (Rpc.CloseAccount pk dest (operatorPublicKey cfg) programId))
                      (fun L => Rpc.confirmed L
                        (Rpc.CloseAccount pk dest (operatorPublicKey cfg) programId))) w2)))%nat)
      by (destruct Hsub as (_ & _ & Hs & _); exact Hs).
    destruct (limited _ w2) as [w3 [sig|e]]; cbn [fst snd] in *.
    + split; [eapply steps_trans; [congruence | apply Hquiet; exact Hf2 | exact Hsub]|].
      right. split; [|discriminate].
      exists (served w1). split; [lia | exact Hclosable].
    + split; [eapply steps_trans; [congruence | apply Hquiet; exact Hf2 | exact Hsub]|].
      right. split; [|discriminate].
      exists (served w1). split; [lia | exact Hclosable].
Qed.

(** X18. [reclaimTokenAccountRent] closes a token account only on the
    node's word that the operator may: whenever it submits a transaction,
    and whenever it reports success (a simulated run included), the node
    has shown, in an answer given during this very call, the token account
    with the operator as owner or close authority and with no token in it.
    A simulated run submits nothing, and the only transaction ever
    submitted is the closing of this account to the given destination under
    the operator's authority. *)
Theorem reclaimTokenAccountRent_needs_authority (cfg : BotConfig)
    (pk dest programId : string) (dry : bool) (w : World) :
  let out := reclaimTokenAccountRent cfg pk dest programId dry w in
  let ix := Rpc.CloseAccount pk dest (operatorPublicKey cfg) programId in
  steps eq (submits_only ix) w (fst out) /\
  (forall evs, trace (fst out) = (evs ++ trace w)%list -> Exists is_submit evs ->
     dry = false /\
     exists n, (served w <= n < served (fst out))%nat /\
               closable_at cfg pk programId w n) /\
  (forall o, snd out = Return o -> o_success o = true ->
     exists n, (served w <= n < served (fst out))%nat /\
               closable_at cfg pk programId w n).
Proof.
  cbn zeta. destruct (token_cases cfg pk dest programId dry w) as [Hall Hcases].
  cbn zeta in Hall, Hcases. split; [exact Hall|]. split.
  - intros evs Ht Hex. destruct Hcases as [[Hquiet _] | [Hev Hdry]].
    + exfalso. exact (steps_no_submit eq _ _ evs Hquiet Ht Hex).
    + split; [|exact Hev]. destruct dry; [|reflexivity].
      exfalso. exact (steps_no_submit eq _ _ evs (Hdry eq_refl) Ht Hex).
  - intros o Ho Hok. destruct Hcases as [[_ Hfail] | [Hev _]]; [|exact Hev].
    rewrite (Hfail o Ho) in Hok. discriminate.
Qed.

Lemma steps_both (R : DatabaseService.Database -> DatabaseService.Database -> Prop)
    (P Q : Event -> Prop) (w w' : World) :
  steps R P w w' -> steps R Q w w' -> steps R (fun e => P e /\ Q e) w w'.
Proof.
  intros (Hd & Hn & Hs & evs & Ht & Hev) (_ & _ & _ & evs' & Ht' & Hev').
  rewrite Ht in Ht'. apply app_inv_tail in Ht'. subst evs'.
  split; [exact Hd|]. split; [exact Hn|]. split; [exact Hs|].
  exists evs. split; [exact Ht|].
  rewrite Forall_forall in *. intros e He. split; auto.
Qed.

(** The only transaction that [closeSystemAccount] may submit is a
    transfer from the account to the destination. *)
Lemma closeSystemAccount_submits (cfg : BotConfig) (pk dest : string) (dry : bool) :
  obeys eq
    (fun e => is_submit e ->
              exists amt, e = Sent (Rpc.SendAndConfirmTransaction (Rpc.Transfer pk dest amt)))
    (closeSystemAccount cfg pk dest dry).
Proof.
  set (P := fun e => is_submit e ->
              exists amt, e = Sent (Rpc.SendAndConfirmTransaction (Rpc.Transfer pk dest amt))).
  assert (Hquiet : forall e, not_submit e -> P e) by (intros e He Hs; contradiction).
  unfold closeSystemAccount.
  apply obeys_try_catch; [congruence | | intros e; now apply obeys_ret].
  apply obeys_bind; [congruence | | intros st].
  - apply obeys_weaken with (P := not_submit); [reflexivity | exact Hquiet |].
    apply checkAccountState_frame.
  - destruct (negb (state_exists st)); [now apply obeys_ret|].
    destruct (state_type st); try (now apply obeys_ret).
    destruct (negb (String.eqb (state_owner st) (operatorPublicKey cfg)));
      [now apply obeys_ret|].
    destruct dry; [now apply obeys_ret|].
    apply obeys_bind; [congruence | | intros sig; now apply obeys_ret].
    apply obeys_weaken with (P := submits_only (Rpc.Transfer pk dest (state_lamports st)));
      [reflexivity | | apply submit_frame].
    intros e He Hs. exists (state_lamports st). now apply He.
Qed.

End SafetyFacts.

(* ================================================================== *)
(** * What a reclaim cycle may change *)
(* ================================================================== *)

Module CycleFacts.
Import DatabaseService Helpers SolanaService RentReclaimService.
Import Frame SafetySpec GatewayFacts SafetyFacts.

Lemma Forall2_same {A : Type} (R : A -> A -> Prop) (l : list A) :
  (forall x, R x x) -> Forall2 R l l.
Proof. intros H. induction l; constructor; auto. Qed.

Lemma Forall2_chain {A : Type} (R : A -> A -> Prop) :
  (forall x y z, R x y -> R y z -> R x z) ->
  forall l1 l2 l3, Forall2 R l1 l2 -> Forall2 R l2 l3 -> Forall2 R l1 l3.
Proof.
  intros HR l1 l2 l3 H12. revert l3.
  induction H12 as [|x y l1 l2 Hxy _ IH]; intros l3 H23;
    inversion H23; subst; constructor; eauto.
Qed.

Lemma confined_row_refl (S : list string) (r : Row) : confined_row S r r.
Proof. split; auto. Qed.

Lemma confined_row_trans (S : list string) (a b c : Row) :
  confined_row S a b -> confined_row S b c -> confined_row S a c.
Proof.
  intros [Hk1 Hs1] [Hk2 Hs2]. split; [congruence|].
  intros Hout. rewrite <- (Hs1 Hout). apply Hs2. now rewrite Hk1.
Qed.

Lemma simulated_row_refl (r : Row) : simulated_row r r.
Proof. split; [destruct r; reflexivity | auto]. Qed.

Lemma simulated_row_trans (a b c : Row) :
  simulated_row a b -> simulated_row b c -> simulated_row a c.
Proof.
  intros [E1 S1] [E2 S2]. split; [|auto].
  rewrite E2. rewrite E1 at 1 2 3 4 5 6 7 8 9 10 11 12 13. reflexivity.
Qed.

Lemma confined_refl (S : list string) (d : Database) : confined S d d.
Proof.
  split; [apply Forall2_same, confined_row_refl|].
  split; [|reflexivity]. exists []. now rewrite app_nil_r.
Qed.

Lemma confined_trans (S : list string) (a b c : Database) :
  confined S a b -> confined S b c -> confined S a c.
Proof.
  intros (Hr1 & (h1 & Hh1 & Hf1) & Hb1) (Hr2 & (h2 & Hh2 & Hf2) & Hb2).
  split; [eapply Forall2_chain; [apply confined_row_trans | eauto | eauto]|].
  split; [|congruence].
  exists (h1 ++ h2)%list. split; [now rewrite Hh2, Hh1, app_assoc | now apply Forall_app].
Qed.

Lemma simulated_refl (d : Database) : simulated d d.
Proof.
  split; [apply Forall2_same, simulated_row_refl|].
  split; [|reflexivity]. exists []. now rewrite app_nil_r.
Qed.

Lemma simulated_trans (a b c : Database) :
  simulated a b -> simulated b c -> simulated a c.
Proof.
  intros (Hr1 & (h1 & Hh1 & Hf1) & Hb1) (Hr2 & (h2 & Hh2 & Hf2) & Hb2).
  split; [eapply Forall2_chain; [apply simulated_row_trans | eauto | eauto]|].
  split; [|congruence].
  exists (h1 ++ h2)%list. split; [now rewrite Hh2, Hh1, app_assoc | now apply Forall_app].
Qed.

Lemma cycle_step_refl (S : list string) (dry : bool) (d : Database) : cycle_step S dry d d.
Proof. split; [apply confined_refl | intros _; apply simulated_refl]. Qed.

Lemma cycle_step_trans (S : list string) (dry : bool) (a b c : Database) :
  cycle_step S dry a b -> cycle_step S dry b c -> cycle_step S dry a c.
Proof.
  intros [Hc1 Hs1] [Hc2 Hs2]. split; [eapply confined_trans; eauto|].
  intros Hdry. eapply simulated_trans; eauto.
Qed.

(** ** The writes of [reclaimAccount] *)

Lemma cycle_updateAccountStatus (S : list string) (dry : bool) (pk : string)
    (st : AccountStatus) (v : option Z) (now : Z) (d : Database) :
  In pk S -> st <> RECLAIMED ->
  cycle_step S dry d
    (updateAccountStatus pk st
       {| p_lamports := v; p_closedAt := None; p_reclaimedAt := None;
          p_reclaimTxSignature := None; p_reclaimedAmount := None;
          p_errorMessage := None |} now d).
Proof.
  intros Hin Hst. split; [|intros _]; (split; [|split; [exists []; cbn; split;
    [now rewrite app_nil_r | constructor] | reflexivity]]); cbn.
  - apply DatabaseFacts.update_where_Forall2.
    + intros row Hk. split; [reflexivity|]. intros Hout. now rewrite Hk in Hout.
    + intros row _. apply confined_row_refl.
  - apply DatabaseFacts.update_where_Forall2.
    + intros row _. split; [reflexivity | cbn; intros; contradiction].
    + intros row _. apply simulated_row_refl.
Qed.

Lemma cycle_markAsReclaimed (S : list string) (pk : string) (sig : option string)
    (amt now : Z) (d : Database) :
  In pk S -> cycle_step S false d (markAsReclaimed pk sig amt now d).
Proof.
  intros Hin. split; [|discriminate].
  split; [|split; [eexists; cbn; split; [reflexivity | repeat constructor; exact Hin]
                  | reflexivity]].
  cbn. apply DatabaseFacts.update_where_Forall2.
  - intros row Hk. split; [reflexivity|]. intros Hout. now rewrite Hk in Hout.
  - intros row _. apply confined_row_refl.
Qed.

Lemma cycle_recordReclaimAttempt (S : list string) (dry : bool) (pk : string)
    (err : option string) (now : Z) (d : Database) :
  In pk S ->
  cycle_step S dry d (recordReclaimAttempt pk None 0 false dry err now d).
Proof.
  intros Hin. split; [|intros ->].
  - split; [apply Forall2_same, confined_row_refl|].
    split; [|reflexivity]. eexists. cbn. split; [reflexivity|].
    repeat constructor. exact Hin.
  - split; [apply Forall2_same, simulated_row_refl|].
    split; [|reflexivity]. eexists. cbn. split; [reflexivity|].
    repeat constructor.
Qed.

(** ** The gateway under a simulated run *)

Lemma reclaimTokenAccountRent_dry (cfg : BotConfig) (pk dest programId : string) :
  obeys eq not_submit (reclaimTokenAccountRent cfg pk dest programId true).
Proof.
  intros w. destruct (token_cases cfg pk dest programId true w) as [_ [[H _] | [_ H]]];
    [exact H | now apply H].
Qed.

Lemma closeSystemAccount_dry (cfg : BotConfig) (pk dest : string) :
  obeys eq not_submit (closeSystemAccount cfg pk dest true).
Proof.
  unfold closeSystemAccount, checkAccountState, getRentExemptMinimum. cbv iota. frame.
Qed.

Lemma attemptReclaim_live_only (cfg : BotConfig) (a : SponsoredAccount) (dest : string)
    (dry : bool) :
  obeys eq (live_only dry) (attemptReclaim cfg a dest dry).
Proof.
  destruct dry.
  - apply obeys_weaken with (P := not_submit); [reflexivity | |].
    + intros e He Hs. contradiction.
    + unfold attemptReclaim. apply obeys_try_catch; try congruence.
      * destruct (type a); try apply reclaimTokenAccountRent_dry;
          try apply closeSystemAccount_dry; frame.
      * frame.
  - apply obeys_weaken with (P := any_event); [reflexivity | |].
    + intros e _ _. reflexivity.
    + apply ReclaimFacts.attemptReclaim_frame.
Qed.

Lemma reclaimTokenAccountRent_reclaims (cfg : BotConfig) (S : list string)
    (pk dest programId : string) (dry : bool) :
  In pk S ->
  obeys eq (reclaims_from cfg S dest) (reclaimTokenAccountRent cfg pk dest programId dry).
Proof.
  intros Hin w. destruct (token_cases cfg pk dest programId dry w) as [H _].
  eapply steps_mono; [| | exact H]; [auto|].
  intros e He Hs. exists pk. split; [exact Hin|]. left. exists programId. now apply He.
Qed.

Lemma attemptReclaim_reclaims (cfg : BotConfig) (S : list string) (a : SponsoredAccount)
    (dest : string) (dry : bool) :
  In (pubkey a) S ->
  obeys eq (reclaims_from cfg S dest) (attemptReclaim cfg a dest dry).
Proof.
  intros Hin. unfold attemptReclaim.
  assert (Hquiet : forall e, not_submit e -> reclaims_from cfg S dest e)
    by (intros e He Hs; contradiction).
  apply obeys_try_catch; [congruence | | intros e; now apply obeys_ret].
  destruct (type a); try (now apply reclaimTokenAccountRent_reclaims);
    try (now apply obeys_ret).
  apply obeys_weaken with
    (P := fun e => is_submit e ->
            exists amt,
              e = Sent (Rpc.SendAndConfirmTransaction (Rpc.Transfer (pubkey a) dest amt)));
    [reflexivity | | apply closeSystemAccount_submits].
  intros e He Hs. exists (pubkey a). split; [exact Hin|]. right. now apply He.
Qed.

Lemma attemptReclaim_cycle (cfg : BotConfig) (S : list string) (a : SponsoredAccount)
    (dest : string) (dry : bool) :
  In (pubkey a) S ->
  obeys eq (cycle_event cfg S dest dry) (attemptReclaim cfg a dest dry).
Proof.
  intros Hin w. apply steps_both;
    [apply attemptReclaim_live_only | now apply attemptReclaim_reclaims].
Qed.

Section Cycle.
Variable cfg : BotConfig.
Variable S : list string.
Variable dest : string.
Variable dry : bool.

Lemma cycle_event_quiet (e : Event) : not_submit e -> cycle_event cfg S dest dry e.
Proof. intros He. split; intros Hs; contradiction. Qed.

Lemma reclaimAccount_cycle (a : SponsoredAccount) :
  In (pubkey a) S ->
  obeys (cycle_step S dry) (cycle_event cfg S dest dry) (reclaimAccount cfg a dest dry).
Proof.
  intros Hin. unfold reclaimAccount.
  pose proof (cycle_step_refl S dry) as Hrefl.
  pose proof (cycle_step_trans S dry) as Htrans.
  apply obeys_bind; [exact Htrans | now apply obeys_Date_now | intros ts].
  apply obeys_bind; [exact Htrans | now apply obeys_Date_now | intros now].
  destruct (too_recent cfg a now); [now apply obeys_ret|].
  destruct (rentExemptMinimum a <? minReclaimLamports cfg); [now apply obeys_ret|].
  destruct (negb (isProgramAllowed cfg (owner a))).
  - apply obeys_bind; [exact Htrans | | intros _; now apply obeys_ret].
    apply obeys_db_write. intros t d.
    now apply (cycle_updateAccountStatus S dry (pubkey a) PROTECTED None).
  - apply obeys_bind; [exact Htrans | | intros st].
    + apply obeys_weaken with (P := not_submit);
        [exact Hrefl | exact cycle_event_quiet | apply checkAccountState_frame].
    + destruct (state_exists st).
      * apply obeys_bind; [exact Htrans | | intros _; now apply obeys_ret].
        apply obeys_db_write. intros t d.
        now apply (cycle_updateAccountStatus S dry (pubkey a) ACTIVE).
      * apply obeys_bind; [exact Htrans | | intros result].
        -- apply obeys_weaken with (P := cycle_event cfg S dest dry);
             [exact Hrefl | auto | now apply attemptReclaim_cycle].
        -- apply obeys_bind; [exact Htrans | | intros _; now apply obeys_ret].
           unfold bookkeeping. destruct (o_success result).
           ++ destruct dry; cbn [negb]; [now apply obeys_ret|].
              apply obeys_db_write. intros t d. now apply cycle_markAsReclaimed.
           ++ apply obeys_db_write. intros t d. now apply cycle_recordReclaimAttempt.
Qed.

Lemma reclaim_each_cycle (accounts : list SponsoredAccount) :
  incl (map pubkey accounts) S ->
  forall rs, obeys (cycle_step S dry) (cycle_event cfg S dest dry)
               (reclaim_each cfg dest dry accounts rs).
Proof.
  pose proof (cycle_step_refl S dry) as Hrefl.
  pose proof (cycle_step_trans S dry) as Htrans.
  induction accounts as [|a rest IH]; intros Hincl rs; cbn [reclaim_each].
  - now apply obeys_ret.
  - apply obeys_bind; [exact Htrans | | intros result].
    + apply reclaimAccount_cycle. apply Hincl. now left.
    + apply obeys_bind; [exact Htrans | | intros _].
      * destruct (negb dry && success result)%bool; [|now apply obeys_ret].
        apply obeys_sleep; [exact Hrefl|]. apply cycle_event_quiet.
        intros Hs. destruct Hs.
      * apply IH. intros pk Hpk. apply Hincl. now right.
Qed.

End Cycle.

(** ** The results of a cycle *)

Lemma reclaimAccount_result (cfg : BotConfig) (a : SponsoredAccount) (dest : string)
    (dry : bool) (w : World) (r : ReclaimResult) :
  snd (reclaimAccount cfg a dest dry w) = Return r ->
  account r = pubkey a /\ dryRun r = dry /\ timestamp r = clock w.
Proof.
  unfold reclaimAccount, bind, Date_now, ret, db_write. cbn [fst snd].
  destruct (too_recent cfg a (clock w)); [intros [= <-]; cbn; auto|].
  destruct (rentExemptMinimum a <? minReclaimLamports cfg); [intros [= <-]; cbn; auto|].
  destruct (negb (isProgramAllowed cfg (owner a))); [intros [= <-]; cbn; auto|].
  destruct (checkAccountState (pubkey a) w) as [w1 [st|e]]; [|discriminate].
  destruct (state_exists st); [intros [= <-]; cbn; auto|].
  destruct (attemptReclaim cfg a dest dry w1) as [w2 [o|e]]; [|discriminate].
  unfold bookkeeping, db_write, ret.
  destruct (o_success o); [destruct dry; cbn [negb]|]; intros [= <-]; cbn; auto.
Qed.

Lemma reclaim_each_results (cfg : BotConfig) (dest : string) (dry : bool)
    (accounts : list SponsoredAccount) :
  forall rs w rs',
    snd (reclaim_each cfg dest dry accounts rs w) = Return rs' ->
    exists new,
      rs' = (rs ++ new)%list /\
      map account new = map pubkey accounts /\
      Forall (fun r => dryRun r = dry) new.
Proof.
  induction accounts as [|a rest IH]; intros rs w rs'; cbn [reclaim_each].
  - unfold ret. intros [= <-]. exists []. rewrite app_nil_r. repeat split. constructor.
  - unfold bind at 1.
    pose proof (reclaimAccount_result cfg a dest dry w) as Hres.
    destruct (reclaimAccount cfg a dest dry w) as [w1 [r|e]]; [|discriminate].
    destruct (Hres r eq_refl) as (Hacc & Hdry & _).
    unfold bind at 1.
    set (pause := if (negb dry && success r)%bool
                  then sleep (inject_Z (txDelayMs cfg)) else ret tt).
    assert (Hpause : exists w2, pause w1 = (w2, Return tt)).
    { unfold pause. destruct (negb dry && success r)%bool; eexists; reflexivity. }
    destruct Hpause as [w2 ->]. intros Hrest.
    apply IH in Hrest as (new & -> & Hmap & Hall).
    exists (r :: new). split; [now rewrite <- app_assoc|].
    split; [cbn [map]; congruence | now constructor].
Qed.

Lemma filter_partition_length {A : Type} (f : A -> bool) (l : list A) :
  (List.length (filter f l) + List.length (filter (fun x => negb (f x)) l)
   = List.length l)%nat.
Proof.
  induction l as [|x l IH]; [reflexivity|]. cbn [filter].
  destruct (f x); cbn [negb List.length]; lia.
Qed.

(** X21. The summary of a cycle that comes to its end accounts for the
    batch: one result per eligible account, in the order of selection
    (oldest closure first), each carrying the key of its account and the
    dry-run flag of the cycle; never more than [maxBatchSize] of them;
    every result counted as a success or as a failure and none as skipped;
    the reclaimable total is the sum of the rent-exempt minimums of the
    eligible accounts.  With no eligible account the cycle leaves the world
    as it was. *)
Theorem runReclaimCycle_summary (cfg : BotConfig) (dryRunArg : option bool) (w : World)
    (s : ReclaimBatchSummary) :
  snd (runReclaimCycle cfg dryRunArg w) = Return s ->
  map account (results s) = map pubkey (eligible cfg w) /\
  Forall (fun r => dryRun r = isDryRun cfg dryRunArg) (results s) /\
  totalProcessed s = List.length (eligible cfg w) /\
  (totalProcessed s <= maxBatchSize cfg)%nat /\
  (successCount s + failedCount s = totalProcessed s)%nat /\
  skippedCount s = O /\
  totalReclaimable s = fold_left (fun sum a => sum + rentExemptMinimum a) (eligible cfg w) 0 /\
  startedAt s = clock w /\
  (eligible cfg w = [] -> fst (runReclaimCycle cfg dryRunArg w) = w).
Proof.
  assert (Hbatch : (List.length (eligible cfg w) <= maxBatchSize cfg)%nat).
  { unfold eligible, getReclaimableAccounts. rewrite length_map. apply firstn_le_length. }
  unfold runReclaimCycle, bind, Date_now, ret. cbn [fst snd].
  fold (eligible cfg w). fold (isDryRun cfg dryRunArg).
  destruct (eligible cfg w) as [|a rest] eqn:E.
  - intros [= <-]. cbn. repeat split; auto.
  - rewrite <- E in *.
    pose proof (reclaim_each_results cfg
                  match truthy_string (treasuryPubkey cfg) with
                  | Some t => t
                  | None => koraFeePayer cfg
                  end (isDryRun cfg dryRunArg) (eligible cfg w) [] w) as Hres.
    destruct (reclaim_each cfg _ (isDryRun cfg dryRunArg) (eligible cfg w) [] w)
      as [w1 [rs|e]]; [|discriminate].
    destruct (Hres rs eq_refl) as (new & -> & Hmap & Hall). cbn [app] in *.
    intros [= <-]. unfold createSummary.
    cbn [results totalProcessed successCount failedCount skippedCount
         totalReclaimable startedAt].
    assert (Hlen : List.length new = List.length (eligible cfg w)).
    { rewrite <- (length_map account new), Hmap. apply length_map. }
    split; [exact Hmap|]. split; [exact Hall|]. split; [exact Hlen|].
    split; [lia|]. split; [apply filter_partition_length|].
    split; [reflexivity|]. split; [reflexivity|]. split; [reflexivity|].
    rewrite E. discriminate.
Qed.

Lemma runReclaimCycle_cycle (cfg : BotConfig) (dryRunArg : option bool) (w : World) :
  steps (cycle_step (map pubkey (eligible cfg w)) (isDryRun cfg dryRunArg))
    (cycle_event cfg (map pubkey (eligible cfg w)) (destination cfg)
       (isDryRun cfg dryRunArg))
    w (fst (runReclaimCycle cfg dryRunArg w)).
Proof.
  unfold runReclaimCycle, bind, Date_now, ret. cbn [fst snd].
  fold (eligible cfg w). fold (isDryRun cfg dryRunArg). fold (destination cfg).
  set (S := map pubkey (eligible cfg w)).
  set (dry := isDryRun cfg dryRunArg).
  assert (Hincl : incl (map pubkey (eligible cfg w)) S) by apply incl_refl.
  destruct (eligible cfg w) as [|a rest] eqn:E; cbn [fst].
  - apply steps_refl. apply cycle_step_refl.
  - rewrite <- E in *.
    pose proof (reclaim_each_cycle cfg S (destination cfg) dry (eligible cfg w) Hincl [] w)
      as Hrun.
    destruct (reclaim_each cfg (destination cfg) dry (eligible cfg w) [] w)
      as [w1 [rs|e]]; cbn [fst] in *; exact Hrun.
Qed.

(** X19. A simulated cycle moves no funds and books no reclaim: when
    [runReclaimCycle] runs as a dry run (by its argument, or by the
    configuration when no argument is given) it submits no transaction; no
    row of the store changes in anything but [status], [lamports] and
    [last_checked_at], none becomes [reclaimed], and every attempt it
    records is a failure flagged as simulated.  It is not read-only: a
    revived account is set back to [active], an account of a program that
    is not allowed is set to [protected], and failures are recorded. *)
Theorem dry_run_submits_nothing (cfg : BotConfig) (dryRunArg : option bool) (w : World) :
  isDryRun cfg dryRunArg = true ->
  steps simulated not_submit w (fst (runReclaimCycle cfg dryRunArg w)).
Proof.
  intros Hdry. pose proof (runReclaimCycle_cycle cfg dryRunArg w) as H.
  rewrite Hdry in H. eapply steps_mono; [| | exact H].
  - intros d d' [_ Hsim]. now apply Hsim.
  - intros e [He _] Hs. specialize (He Hs). discriminate.
Qed.

(** X20. A cycle works on the eligible accounts and on nothing else: the
    rows of all other accounts (active, protected, reclaimed, or closed too
    recently) are after [runReclaimCycle] what they were before, no row is
    added or removed, every attempt recorded is about an eligible account,
    and the scan cursor is not moved; whatever the node answers, and also
    when the cycle is aborted by an error. *)
Theorem runReclaimCycle_confined (cfg : BotConfig) (dryRunArg : option bool) (w : World) :
  steps (confined (map pubkey (eligible cfg w))) any_event
    w (fst (runReclaimCycle cfg dryRunArg w)).
Proof.
  eapply steps_mono; [| | apply runReclaimCycle_cycle].
  - intros d d' [Hc _]. exact Hc.
  - intros e _. exact I.
Qed.

(** X25. The funds go to one place: every transaction that
    [runReclaimCycle] submits takes the lamports of an account that was
    eligible when the cycle began, and takes them to the treasury if one is
    configured and to the fee payer otherwise; it is the closing of the
    token account under the operator's authority or a transfer out of the
    system account, and nothing else is ever submitted. *)
Theorem runReclaimCycle_pays_destination (cfg : BotConfig) (dryRunArg : option bool)
    (w : World) :
  steps any_change
    (reclaims_from cfg (map pubkey (eligible cfg w)) (destination cfg))
    w (fst (runReclaimCycle cfg dryRunArg w)).
Proof.
  eapply steps_mono; [| | apply runReclaimCycle_cycle].
  - intros d d' _. exact I.
  - intros e [_ He]. exact He.
Qed.

End CycleFacts.

(* ================================================================== *)
(** * More facts about monitoring *)
(* ================================================================== *)

Module MonitoringFacts.
Import DatabaseService Helpers SolanaService AccountMonitorService Reconciliation.
Import Frame MonitorSpec GatewayFacts.

(** ** Reconciliation *)

Lemma reconciled_row_refl (now : Z) (r : Row) : reconciled_row [] now r r.
Proof. split; [reflexivity|]. split; [auto | intros []]. Qed.

Lemma reconciled_row_step (pk : string) (S : list string) (now : Z) (a b c : Row) :
  reconciled_row [pk] now a b -> reconciled_row S now b c ->
  reconciled_row (pk :: S) now a c.
Proof.
  intros (Hk1 & Hout1 & Hin1) (Hk2 & Hout2 & Hin2).
  split; [congruence|]. split.
  - intros Hout. rewrite <- (Hout1 ltac:(intros [H|[]]; apply Hout; now left)).
    apply Hout2. rewrite Hk1. intros H. apply Hout. now right.
  - intros Hin. destruct (in_dec string_dec (r_pubkey b) S) as [HS | HS].
    + now apply Hin2.
    + rewrite (Hout2 HS). apply Hin1. rewrite Hk1 in HS.
      destruct Hin as [H | H]; [now left | contradiction].
Qed.

Lemma reconcile_one_effect (pk : string) (state : AccountState) (c : Counts) (w : World) :
  let out := reconcile_one (pk, state) c w in
  snd out = Return {| checked := checked c + 1;
                      closed := closed c + (if state_exists state then 0 else 1);
                      errors := errors c |} /\
  trace (fst out) = trace w /\ served (fst out) = served w /\
  clock (fst out) = clock w /\
  Forall2 (reconciled_row [pk] (clock w))
    (sponsored_accounts (db w)) (sponsored_accounts (db (fst out))).
Proof.
  cbn zeta. unfold reconcile_one, try_catch, bind, db_write, ret.
  destruct (state_exists state); cbn [negb fst snd].
  - split; [f_equal; f_equal; lia|]. do 3 (split; [reflexivity|]).
    cbn. apply DatabaseFacts.update_where_Forall2.
    + intros row Hk. split; [reflexivity|]. split; [intros H; elim H; now left|].
      intros _. cbn. auto.
    + intros row Hk. split; [reflexivity|]. split; [auto|].
      intros [H | []]. congruence.
  - split; [reflexivity|]. do 3 (split; [reflexivity|]).
    cbn. apply DatabaseFacts.update_where_Forall2.
    + intros row Hk. split; [reflexivity|]. split; [intros H; elim H; now left|].
      intros _. cbn. auto.
    + intros row Hk. split; [reflexivity|]. split; [auto|].
      intros [H | []]. congruence.
Qed.

Lemma reconcile_states_run (states : list (string * AccountState)) :
  forall (c : Counts) (w : World),
    let out := reconcile_states states c w in
    snd out = Return {| checked := checked c + Z.of_nat (List.length states);
                        closed := closed c + Z.of_nat (List.length (absent states));
                        errors := errors c |} /\
    trace (fst out) = trace w /\ served (fst out) = served w /\
    clock (fst out) = clock w /\
    Forall2 (reconciled_row (map fst states) (clock w))
      (sponsored_accounts (db w)) (sponsored_accounts (db (fst out))).
Proof.
  induction states as [|[pk state] rest IH]; intros c w; cbn zeta.
  - cbn. split; [f_equal; destruct c; cbn; f_equal; lia|].
    do 3 (split; [reflexivity|]).
    apply CycleFacts.Forall2_same, reconciled_row_refl.
  - cbn [reconcile_states]. unfold bind.
    destruct (reconcile_one_effect pk state c w) as (Hret & Ht & Hs & Hc & Hrows).
    cbn zeta in *.
    destruct (reconcile_one (pk, state) c w) as [w1 r]. cbn [fst snd] in *. subst r.
    destruct (IH {| checked := checked c + 1;
                    closed := closed c + (if state_exists state then 0 else 1);
                    errors := errors c |} w1) as (Hret' & Ht' & Hs' & Hc' & Hrows').
    cbn zeta in *. split; [|split; [congruence | split; [congruence | split; [congruence|]]]].
    + rewrite Hret'. cbn [checked closed errors List.length map absent filter snd].
      f_equal. f_equal; [lia|].
      fold (absent rest). destruct (state_exists state); cbn [negb List.length]; lia.
    + rewrite Hc in Hrows'. cbn [map fst].
      clear - Hrows Hrows'. revert Hrows'.
      generalize (sponsored_accounts (db (fst (reconcile_states rest
                    {| checked := checked c + 1;
                       closed := closed c + (if state_exists state then 0 else 1);
                       errors := errors c |} w1)))).
      induction Hrows as [|a b l1 l2 Hab _ IHl]; intros l3 H23;
        inversion H23; subst; constructor.
      * eapply reconciled_row_step; eauto.
      * now apply IHl.
Qed.

(** X22. Reconciliation of one batch of observed states.  The loop body
    cannot fail while the store is open, so every entry is counted as
    checked, the absent ones as closed, and none as an error; no request is
    sent and no time passes.  The rows of accounts that the batch does not
    name are left as they were and no row is added or removed; a named
    account ends up either [active] or [closed] as of the time of the run,
    with no lamports.  Hence an account that reconciliation found closed is
    not selected for reclaim before [minAgeDays] days have passed since the
    run, even if an older closing time was on record. *)
Theorem reconcile_states_effect (states : list (string * AccountState)) (c : Counts)
    (w : World) :
  let out := reconcile_states states c w in
  snd out = Return {| checked := checked c + Z.of_nat (List.length states);
                      closed := closed c + Z.of_nat (List.length (absent states));
                      errors := errors c |} /\
  trace (fst out) = trace w /\ served (fst out) = served w /\
  clock (fst out) = clock w /\
  Forall2 (reconciled_row (map fst states) (clock w))
    (sponsored_accounts (db w)) (sponsored_accounts (db (fst out))) /\
  (forall pk minAgeDays limit now',
     In pk (map fst states) ->
     now' - minAgeDays * MS_PER_DAY <= clock w ->
     ~ In pk (map pubkey (getReclaimableAccounts minAgeDays limit now' (db (fst out))))).
Proof.
  cbn zeta. destruct (reconcile_states_run states c w) as (Hret & Ht & Hs & Hc & Hrows).
  cbn zeta in *. do 4 (split; [assumption|]). split; [exact Hrows|].
  intros pk minAgeDays limit now' Hin Hnow Hsel.
  unfold getReclaimableAccounts in Hsel. rewrite map_map in Hsel.
  apply in_map_iff in Hsel as (row' & Hk & Hsel). cbn in Hk.
  apply (DatabaseFacts.selected_In minAgeDays limit now') in Hsel as [Hrow' Hsel].
  apply DatabaseFacts.reclaimable_true in Hsel as (Hst & _ & closedAt & Hclosed & Hold).
  assert (Hfrom : exists row, reconciled_row (map fst states) (clock w) row row').
  { clear - Hrows Hrow'. induction Hrows as [|a b l1 l2 Hab _ IHl]; [contradiction|].
    destruct Hrow' as [<- | Hin']; eauto. }
  destruct Hfrom as (row & Hkey & _ & Hnamed).
  destruct Hnamed as (_ & [Hact | (_ & Hat & _)]); [congruence | congruence |].
  rewrite Hat in Hclosed. injection Hclosed as <-. lia.
Qed.

(** ** The count that discovery reports *)

Lemma discover_account_count (tx : Rpc.ParsedTransactionWithMeta) (pk : string)
    (n : Z) (w : World) :
  let out := discover_account tx pk n w in
  exists n', snd out = Return n' /\ row_count (fst out) - row_count w = n' - n /\ n <= n'.
Proof.
  cbn zeta. unfold row_count, discover_account, bind, db_read. cbn [fst snd].
  destruct (getAccount pk (db w)) as [existing|] eqn:E.
  - exists n. cbn. split; [reflexivity | lia].
  - unfold try_catch, bind, Date_now, db_write, ret. cbn [fst snd].
    pose proof (checkAccountState_frame pk w) as Hf.
    destruct (checkAccountState pk w) as [w1 [st|e]]; cbn [fst snd] in *;
      destruct Hf as (Hd & _).
    + exists (n + 1). split; [reflexivity|]. cbn [db set_db].
      unfold upsertAccount. cbn [pubkey]. rewrite <- Hd, E.
      cbn [with_accounts sponsored_accounts]. rewrite length_app. cbn [List.length]. lia.
    + exists n. split; [reflexivity|]. rewrite <- Hd. lia.
Qed.

Lemma discover_accounts_count (tx : Rpc.ParsedTransactionWithMeta) (pks : list string) :
  forall (n : Z) (w : World),
    let out := discover_accounts tx pks n w in
    exists n', snd out = Return n' /\ row_count (fst out) - row_count w = n' - n /\ n <= n'.
Proof.
  induction pks as [|pk rest IH]; intros n w; cbn zeta; cbn [discover_accounts].
  - exists n. cbn. split; [reflexivity | lia].
  - unfold bind. destruct (discover_account_count tx pk n w) as (n1 & Hret & Hlen & Hle).
    cbn zeta in *. destruct (discover_account tx pk n w) as [w1 r].
    cbn [fst snd] in *. subst r.
    destruct (IH n1 w1) as (n2 & Hret2 & Hlen2 & Hle2). cbn zeta in *.
    exists n2. split; [exact Hret2 | lia].
Qed.

Lemma discover_transactions_count (cfg : BotConfig)
    (txs : list Rpc.ParsedTransactionWithMeta) :
  forall (n : Z) (w : World),
    let out := discover_transactions cfg txs n w in
    exists n', snd out = Return n' /\ row_count (fst out) - row_count w = n' - n /\ n <= n'.
Proof.
  induction txs as [|tx rest IH]; intros n w; cbn zeta; cbn [discover_transactions].
  - exists n. cbn. split; [reflexivity | lia].
  - unfold bind.
    destruct (discover_accounts_count tx (extractCreatedAccounts cfg tx) n w)
      as (n1 & Hret & Hlen & Hle).
    cbn zeta in *.
    destruct (discover_accounts tx (extractCreatedAccounts cfg tx) n w) as [w1 r].
    cbn [fst snd] in *. subst r.
    destruct (IH n1 w1) as (n2 & Hret2 & Hlen2 & Hle2). cbn zeta in *.
    exists n2. split; [exact Hret2 | lia].
Qed.

Lemma discover_loop_count (cfg : BotConfig) :
  forall (pages : nat) (before : option string) (n : Z) (w w' : World) (n' : Z),
    discover_loop cfg pages before n w = Some (w', Return n') ->
    row_count w' - row_count w = n' - n /\ n <= n'.
Proof.
  induction pages as [|pages IH]; intros before n w w' n'; cbn [discover_loop];
    [discriminate|].
  pose proof (scanSponsoredTransactions_frame before 100 w) as Hscan.
  destruct (scanSponsoredTransactions before 100 w) as [w1 [[txs last]|e]];
    cbn [fst] in Hscan; destruct Hscan as (Hd & _); [|discriminate].
  assert (Hrows : row_count w1 = row_count w) by (unfold row_count; now rewrite Hd).
  destruct txs as [|tx txs].
  - intros [= <- <-]. lia.
  - destruct (discover_transactions_count cfg (tx :: txs) n w1)
      as (n1 & Hret & Hlen & Hle).
    cbn zeta in *.
    destruct (discover_transactions cfg (tx :: txs) n w1) as [w2 r].
    cbn [fst snd] in *. subst r.
    destruct last as [s|].
    + intros Hloop. apply IH in Hloop as [Hlen' Hle'].
      assert (Hcursor : row_count
                (set_db (setLastProcessedSignature s (clock w2) (db w2)) w2)
              = row_count w2) by reflexivity.
      lia.
    + intros [= <- <-]. lia.
Qed.

(** X23. The number that [discoverNewAccounts] returns is the number of
    rows it has added to the account table: a run that ends without error
    and reports [n] new accounts leaves the table exactly [n] rows longer
    ([n] is never negative), whatever requests failed on the way. *)
Theorem discoverNewAccounts_count (cfg : BotConfig) (pages : nat) (w w' : World) (n : Z) :
  discoverNewAccounts cfg pages w = Some (w', Return n) ->
  row_count w' = row_count w + n /\ 0 <= n.
Proof.
  unfold discoverNewAccounts. intros H.
  apply discover_loop_count in H as [Hlen Hle]. lia.
Qed.

(** ** Scanning when requests fail *)

Lemma fetch_transactions_returns (sigs : list Rpc.ConfirmedSignatureInfo) :
  forall (acc : list Rpc.ParsedTransactionWithMeta) (w : World),
    exists more,
      snd (fetch_transactions sigs acc w) = Return (acc ++ more)%list /\
      (List.length more <= List.length (looked_up sigs))%nat.
Proof.
  induction sigs as [|sigInfo rest IH]; intros acc w; cbn [fetch_transactions].
  - exists []. rewrite app_nil_r. split; [reflexivity | cbn; lia].
  - unfold looked_up. cbn [filter]. fold (looked_up rest).
    destruct (Rpc.sig_err sigInfo); cbn [negb].
    + apply IH.
    + unfold bind at 1. pose proof (LimiterFacts.acquire_returns w) as Hacq.
      destruct (acquire w) as [w0 r]. cbn [snd] in Hacq. subst r.
      unfold bind at 1. unfold try_catch, bind, ret.
      destruct (withRetry _ _ w0) as [w1 [[t|]|e]].
      * destruct (IH (acc ++ [t])%list w1) as (more & Hret & Hlen).
        exists (t :: more). rewrite Hret, <- app_assoc. split; [reflexivity | cbn; lia].
      * destruct (IH acc w1) as (more & Hret & Hlen).
        exists more. split; [exact Hret | cbn; lia].
      * destruct (IH acc w1) as (more & Hret & Hlen).
        exists more. split; [exact Hret | cbn; lia].
Qed.

(** X24. Only the signature listing can make [scanSponsoredTransactions]
    fail.  When the listing fails, the scan fails with the same error and
    nothing else is done.  When it succeeds, the scan returns, however many
    of the transaction lookups fail: a lookup that fails (or finds nothing)
    just leaves its transaction out, and the signature reported as the last
    one is the last one listed, whether or not its transaction was
    fetched. *)
Theorem scan_survives_failed_lookups (before : option string) (limit : nat) (w : World) :
  match listing before limit w with
  | (w1, Throw e) => scanSponsoredTransactions before limit w = (w1, Throw e)
  | (w1, Return sigs) =>
      exists txs,
        snd (scanSponsoredTransactions before limit w)
        = Return (txs,
                  truthy_string
                    (option_map Rpc.sig_signature
                       (nth_error sigs (List.length sigs - 1)%nat))) /\
        (List.length txs <= List.length (looked_up sigs))%nat
  end.
Proof.
  unfold scanSponsoredTransactions, listing, bind.
  destruct (limited _ w) as [w1 [sigs|e]]; [|reflexivity].
  destruct sigs as [|sigInfo rest].
  - exists []. split; [reflexivity | cbn; lia].
  - destruct (fetch_transactions_returns (sigInfo :: rest) [] w1) as (more & Hret & Hlen).
    destruct (fetch_transactions (sigInfo :: rest) [] w1) as [w2 r].
    cbn [snd] in Hret. subst r. exists more. split; [reflexivity | exact Hlen].
Qed.

(** ** The accounts that a transaction created *)

Lemma nth_error_tl {A : Type} (l : list A) (i : nat) :
  nth_error (tl l) i = nth_error l (S i).
Proof. destruct l; [destruct i|]; reflexivity. Qed.

Lemma created_by_balance_In (feePayer : string) (keys : list string) :
  forall (pre post : list Z) (pk : string),
    In pk (created_by_balance feePayer keys pre post) <->
    exists (i : nat) (b : Z),
      nth_error keys i = Some pk /\ nth_error pre i = Some 0 /\
      nth_error post i = Some b /\ 0 < b /\ pk <> feePayer.
Proof.
  induction keys as [|k keys IH]; intros pre post pk; cbn [created_by_balance].
  - split; [intros [] | intros ([|i] & b & H & _); discriminate].
  - assert (Hrest : In pk (created_by_balance feePayer keys (tl pre) (tl post)) <->
                    exists (i : nat) (b : Z),
                      nth_error (k :: keys) (S i) = Some pk /\
                      nth_error pre (S i) = Some 0 /\
                      nth_error post (S i) = Some b /\ 0 < b /\ pk <> feePayer).
    { rewrite IH. split; intros (i & b & H1 & H2 & H3 & H4); exists i, b.
      - rewrite <- !nth_error_tl. cbn [tl]. auto.
      - rewrite <- nth_error_tl in H1. rewrite <- nth_error_tl in H2.
        rewrite <- nth_error_tl in H3. cbn [tl] in H1. auto. }
    assert (Hhead : forall (P : Prop),
               (P <-> nth_error pre O = Some 0 /\
                      (exists b, nth_error post O = Some b /\ 0 < b) /\ k <> feePayer) ->
               ((pk = k /\ P) \/ In pk (created_by_balance feePayer keys (tl pre) (tl post))
                <-> exists (i : nat) (b : Z),
                      nth_error (k :: keys) i = Some pk /\ nth_error pre i = Some 0 /\
                      nth_error post i = Some b /\ 0 < b /\ pk <> feePayer)).
    { intros P HP. rewrite Hrest. split.
      - intros [[-> Hp] | (i & b & H)].
        + apply HP in Hp as (H0 & (b & Hb & Hpos) & Hne). exists O, b. cbn. auto.
        + exists (S i), b. exact H.
      - intros ([|i] & b & Hk & H0 & Hb & Hpos & Hne).
        + left. cbn in Hk. injection Hk as <-. split; [reflexivity|].
          apply HP. eauto.
        + right. exists i, b. auto. }
    destruct pre as [|b0 pre], post as [|b1 post];
      try (rewrite <- (Hhead False); [tauto|]; cbn;
           split; [tauto | intros (H0 & (b & Hb & _) & _); discriminate]).
    destruct ((b0 =? 0) && (0 <? b1) && negb (String.eqb k feePayer))%bool eqn:E.
    + rewrite <- (Hhead True).
      * cbn [In]. split; [intros [<- | H]; auto | intros [[-> _] | H]; auto].
      * apply andb_true_iff in E as [E Hne]. apply andb_true_iff in E as [H0 Hpos].
        apply Z.eqb_eq in H0. apply Z.ltb_lt in Hpos. apply negb_true_iff in Hne.
        apply String.eqb_neq in Hne. subst b0. cbn. split; [intros _|auto].
        split; [reflexivity|]. split; [eauto | exact Hne].
    + rewrite <- (Hhead False); [tauto|].
      split; [tauto|]. cbn. intros (H0 & (b & Hb & Hpos) & Hne).
      injection H0 as ->. injection Hb as ->.
      apply Z.ltb_lt in Hpos. apply String.eqb_neq in Hne.
      rewrite Hpos, Hne in E. discriminate.
Qed.

Lemma created_by_instruction_In (ixs : list Rpc.InnerInstruction) :
  forall (acc : list string) (pk : string),
    In pk (fold_left created_by_instruction ixs acc) <->
    In pk acc \/ (In (Rpc.Parsed "initializeAccount" (Some pk)) ixs /\ pk <> "").
Proof.
  induction ixs as [|ix ixs IH]; intros acc pk; cbn [fold_left].
  - cbn. tauto.
  - rewrite IH. cbn [In]. unfold created_by_instruction at 1.
    destruct ix as [ty [acct|] | ]; try (intuition congruence).
    destruct (String.eqb_spec ty "initializeAccount") as [-> | Hty]; cbn [andb];
      [|intuition congruence].
    destruct (String.eqb_spec acct "") as [-> | Hacct]; cbn [negb andb];
      [intuition congruence|].
    destruct (string_in acct acc) eqn:Ein; cbn [negb].
    + apply MoreHelpersFacts.string_in_In in Ein. intuition congruence.
    + rewrite in_app_iff. cbn [In]. intuition congruence.
Qed.

Lemma created_by_instruction_NoDup (ixs : list Rpc.InnerInstruction) :
  forall acc, NoDup acc -> NoDup (fold_left created_by_instruction ixs acc).
Proof.
  induction ixs as [|ix ixs IH]; intros acc Hnd; cbn [fold_left]; [exact Hnd|].
  apply IH. unfold created_by_instruction.
  destruct ix as [ty [acct|] | ]; try exact Hnd.
  destruct (String.eqb ty "initializeAccount" && negb (String.eqb acct "")
            && negb (string_in acct acc))%bool eqn:E; [|exact Hnd].
  apply andb_true_iff in E as [_ E]. apply negb_true_iff in E.
  apply MoreHelpersFacts.string_in_not_In in E.
  apply NoDup_app; [exact Hnd | repeat constructor; intros [] |].
  intros k Hk [<- | []]. contradiction.
Qed.

Lemma created_by_balance_NoDup (feePayer : string) (keys : list string) :
  NoDup keys -> forall pre post, NoDup (created_by_balance feePayer keys pre post).
Proof.
  induction 1 as [|k keys Hnotin Hnd IH]; intros pre post; cbn [created_by_balance];
    [constructor|].
  assert (Hk : ~ In k (created_by_balance feePayer keys (tl pre) (tl post))).
  { intros Hin. apply created_by_balance_In in Hin as (i & b & Hi & _).
    apply Hnotin. eapply nth_error_In; eauto. }
  destruct pre, post; try apply IH.
  destruct (_ && _ && _)%bool; [constructor; auto | apply IH].
Qed.

(** X26. Which accounts [extractCreatedAccounts] reports: exactly those
    that, in a transaction with metadata, either stand at an index of the
    account keys whose balance was 0 before and positive after and are not
    the fee payer, or are named by a parsed [initializeAccount] inner
    instruction; a transaction without metadata yields none.  When the
    account keys are pairwise different, no account is reported twice. *)
Theorem extractCreatedAccounts_spec (cfg : BotConfig) (tx : Rpc.ParsedTransactionWithMeta) :
  (forall pk,
     In pk (extractCreatedAccounts cfg tx) <->
     exists meta, Rpc.tx_meta tx = Some meta /\
                  (funded_by cfg tx meta pk \/ initialized_by meta pk)) /\
  (NoDup (Rpc.tx_accountKeys tx) -> NoDup (extractCreatedAccounts cfg tx)).
Proof.
  unfold extractCreatedAccounts, funded_by, initialized_by. split.
  - intros pk. destruct (Rpc.tx_meta tx) as [meta|].
    + destruct (Rpc.innerInstructions meta) as [inners|] eqn:Ei.
      * rewrite created_by_instruction_In, created_by_balance_In. split.
        -- intros [H | H]; exists meta; (split; [reflexivity|]);
             [left; exact H | right; exists inners; tauto].
        -- intros (m & [= <-] & [H | (i & Hi & H)]); [left; exact H | right].
           rewrite Ei in Hi. injection Hi as <-. exact H.
      * rewrite created_by_balance_In. split.
        -- intros H. exists meta. auto.
        -- intros (m & [= <-] & [H | (i & Hi & _)]);
             [exact H | rewrite Ei in Hi; discriminate].
    + split; [intros [] | intros (m & Hm & _); discriminate].
  - intros Hnd. destruct (Rpc.tx_meta tx) as [meta|]; [|constructor].
    destruct (Rpc.innerInstructions meta) as [inners|].
    + apply created_by_instruction_NoDup. now apply created_by_balance_NoDup.
    + now apply created_by_balance_NoDup.
Qed.

End MonitoringFacts.

(* ================================================================== *)
(** * The model at work *)
(* ================================================================== *)

Module Examples.
Import DatabaseService Helpers SolanaService RentReclaimService AccountMonitorService.

Example lower_case : toLowerCase "Connect ETIMEDOUT 10.0.0.1" = "connect etimedout 10.0.0.1".
Proof. reflexivity. Qed.

Example timeout_is_retryable :
  isRetryable DEFAULT_RETRY_OPTIONS (toLowerCase "Connect ETIMEDOUT 10.0.0.1") = true.
Proof. reflexivity. Qed.

Example bad_request_is_not_retryable :
  isRetryable DEFAULT_RETRY_OPTIONS (toLowerCase "Invalid param: WrongSize") = false.
Proof. reflexivity. Qed.

Example age_of_R2 : toFixed1 (ageInDays (998 * Scenario.day) Scenario.today) = "2.0".
Proof. vm_compute. reflexivity. Qed.

Example a_quarter_rounds_up : toFixed1 (1 # 4) = "0.3".
Proof. vm_compute. reflexivity. Qed.

(** R3 was closed before R1; R2 is too recent to be selected. *)
Example eligible_oldest_first :
  map pubkey (getReclaimableAccounts 7 50 Scenario.today Scenario.store) = ["R3"; "R1"].
Proof. vm_compute. reflexivity. Qed.

Example eligible_limited :
  map pubkey (getReclaimableAccounts 7 1 Scenario.today Scenario.store) = ["R3"].
Proof. vm_compute. reflexivity. Qed.

Example created_accounts :
  extractCreatedAccounts Scenario.cfg Scenario.creation_tx = ["R1"; "R4"].
Proof. vm_compute. reflexivity. Qed.

Example allow_list :
  isProgramAllowed Scenario.cfg TOKEN_PROGRAM_ID = true /\
  isProgramAllowed Scenario.cfg "SomeOtherProgram" = false.
Proof. split; reflexivity. Qed.

(** The limiter of [Scenario.drained] holds a quarter of a token at a rate
    of 10 per second: the wait is 75 ms. *)
Example wait_of_drained : waitTime (rateLimiter Scenario.drained) = 75.
Proof. vm_compute. reflexivity. Qed.

(** One timeout: the request is sent twice, 1000 ms apart, for one token. *)
Example flaky_rent_query :
  trace (fst (getRentExemptMinimum 165 Scenario.flaky)) =
  [ Sent (Rpc.GetMinimumBalanceForRentExemption 165);
    Slept 1000;
    Sent (Rpc.GetMinimumBalanceForRentExemption 165);
    Acquired ] /\
  snd (getRentExemptMinimum 165 Scenario.flaky) = Return 2039280.
Proof. split; vm_compute; reflexivity. Qed.

(** A simulated cycle over the quiet chain: R3 and R1 are processed, both
    are refused by the dispatch, and both refusals are recorded. *)
Example simulated_cycle :
  match runReclaimCycle Scenario.cfg None Scenario.quiet with
  | (w, Return summary) =>
      map account (results summary) = ["R3"; "R1"] /\
      successCount summary = 0%nat /\ failedCount summary = 2%nat /\
      totalReclaimable summary = 4078560 /\
      map h_account_pubkey (reclaim_history (db w)) = ["R3"; "R1"]
  | (_, Throw _) => False
  end.
Proof. vm_compute. repeat split. Qed.

(** Discovery over the quiet chain finds the two handles of the one
    successful transaction and moves the cursor to the oldest signature. *)
Example first_discovery :
  map r_pubkey (sponsored_accounts (db Reached.discovered)) = ["R1"; "R4"] /\
  map r_status (sponsored_accounts (db Reached.discovered)) = [CLOSED; CLOSED] /\
  getLastProcessedSignature (db Reached.discovered) = Some "sigBad".
Proof. repeat split; vm_compute; reflexivity. Qed.

End Examples.

(* ================================================================== *)
(** * The utilities at work *)
(* ================================================================== *)

Module MoreExamples.
Import DatabaseService MoreHelpers MoreDatabase.

(** The cases of the repository's own tests of [chunk]. *)
Example chunk_by_three :
  chunk 8 [1; 2; 3; 4; 5; 6; 7] 3 = Some [[1; 2; 3]; [4; 5; 6]; [7]].
Proof. reflexivity. Qed.

Example chunk_of_nothing : chunk 1 (@nil Z) 3 = Some [].
Proof. reflexivity. Qed.

Example chunk_smaller_than_size : chunk 3 [1; 2] 5 = Some [[1; 2]].
Proof. reflexivity. Qed.

Example unique_by_first_letter :
  unique ["apple"; "avocado"; "banana"; "blueberry"; "cherry"]
    (fun s => MoreHelpers.substring s 0 1)
  = ["apple"; "banana"; "cherry"].
Proof. reflexivity. Qed.

Example truncate_signature :
  truncateMiddle "5VERv8NMvzbJMEkV8xnrLkEaWRtSz9CosKDYjCJjBRnbJLgp8uirBgmQpjKhoR4tjF3ZpRzrFmBV6UjKdiSZkQUW" 20
  = "5VERv8NM...diSZkQUW".
Proof. vm_compute. reflexivity. Qed.

Example mask_secret : maskString "hunter2hunter2" 4 = "hunt...ter2".
Proof. vm_compute. reflexivity. Qed.

Example mask_short_secret : maskString "hunter2" 4 = "****".
Proof. reflexivity. Qed.

Example statistics_of_the_store :
  let s := getStatistics Scenario.store in
  totalAccounts s = 3 /\ closedAccounts s = 3 /\ activeAccounts s = 0 /\
  totalReclaimableLamports s = 6117840.
Proof. vm_compute. repeat split. Qed.

End MoreExamples.

(* ================================================================== *)
(** * The statements at work on the scenarios *)
(* ================================================================== *)

Module Witnesses.
Import DatabaseService Helpers SolanaService RentReclaimService AccountMonitorService.
Import Spec Frame ReclaimSpec DiscoverySpec RetryPolicy.

Lemma upsertAccount_existing_frame_witness :
  getAccount (pubkey Scenario.R1_update) Scenario.store <> None /\
  Forall2 (upsert_changes Scenario.R1_update) (sponsored_accounts Scenario.store)
    (sponsored_accounts (upsertAccount Scenario.R1_update Scenario.store)).
Proof.
  split.
  - vm_compute. discriminate.
  - apply (DatabaseFacts.upsertAccount_existing_frame Scenario.R1_update Scenario.store).
    vm_compute. discriminate.
Defined.

Lemma getReclaimableAccounts_sound_witness :
  In (rowToAccount Scenario.R1)
    (getReclaimableAccounts 7 50 Scenario.today Scenario.store) /\
  status (rowToAccount Scenario.R1) = CLOSED /\
  StronglySorted closedAt_le (getReclaimableAccounts 7 50 Scenario.today Scenario.store).
Proof.
  pose proof (DatabaseFacts.getReclaimableAccounts_sound 7 50 Scenario.today Scenario.store)
    as (Hin & _ & Hsorted & _).
  assert (H : In (rowToAccount Scenario.R1)
                (getReclaimableAccounts 7 50 Scenario.today Scenario.store))
    by (vm_compute; right; left; reflexivity).
  split; [exact H|]. split; [|exact Hsorted].
  apply (Hin _ H).
Defined.



Lemma reclaimAccount_check_order_witness :
  closedAt (rowToAccount Scenario.R2) = Some (998 * Scenario.day) /\
  (ageInDays (998 * Scenario.day) (clock Scenario.quiet)
   < inject_Z (minAccountAgeDays Scenario.cfg))%Q /\
  isProgramAllowed Scenario.cfg (owner (rowToAccount Scenario.R2)) = false /\
  reclaimAccount Scenario.cfg (rowToAccount Scenario.R2) "Treasury" true Scenario.quiet =
  (Scenario.quiet,
   Return (rejected (rowToAccount Scenario.R2)
             "Account too recent (2.0 days < 7 days)" true Scenario.today)).
Proof.
  split; [reflexivity|]. split; [vm_compute; reflexivity|]. split; [reflexivity|].
  apply (proj1 (ReclaimFacts.reclaimAccount_check_order Scenario.cfg
                  (rowToAccount Scenario.R2) "Treasury" true Scenario.quiet)
           (998 * Scenario.day)).
  - reflexivity.
  - vm_compute. reflexivity.
Defined.

Lemma reclaimAccount_revival_witness :
  passes_local_checks Scenario.cfg (rowToAccount Scenario.R1) (clock Scenario.revived) /\
  checkAccountState "R1" Scenario.revived = (Scenario.rechecked, Return Scenario.R1_alive) /\
  state_exists Scenario.R1_alive = true /\
  reclaimAccount Scenario.cfg (rowToAccount Scenario.R1) "Treasury" false Scenario.revived =
  (set_db (updateAccountStatus "R1" ACTIVE (revived_fields Scenario.R1_alive)
             (clock Scenario.rechecked) Scenario.store) Scenario.rechecked,
   Return (rejected (rowToAccount Scenario.R1) revived_message false Scenario.today)).
Proof.
  assert (Hp : passes_local_checks Scenario.cfg (rowToAccount Scenario.R1)
                 (clock Scenario.revived))
    by (repeat split; vm_compute; congruence).
  assert (Hc : checkAccountState "R1" Scenario.revived =
               (Scenario.rechecked, Return Scenario.R1_alive))
    by (vm_compute; reflexivity).
  split; [exact Hp|]. split; [exact Hc|]. split; [reflexivity|].
  apply (ReclaimFacts.reclaimAccount_revival Scenario.cfg (rowToAccount Scenario.R1)
           "Treasury" false Scenario.revived Scenario.rechecked Scenario.R1_alive
           Hp Hc eq_refl).
Defined.



End Witnesses.

(* ================================================================== *)
(** * The further statements at work on the scenarios *)
(* ================================================================== *)

Module MoreWitnesses.
Import DatabaseService Helpers SolanaService RentReclaimService AccountMonitorService.
Import MoreHelpers MoreDatabase Frame StoreSpec SafetySpec MonitorSpec.

Lemma chunk_partitions_witness :
  1 <= 3 /\
  (List.length [1; 2; 3; 4; 5; 6; 7] < 8)%nat /\
  exists chunks,
    chunk 8 [1; 2; 3; 4; 5; 6; 7] 3 = Some chunks /\
    List.concat chunks = [1; 2; 3; 4; 5; 6; 7] /\
    Forall (fun c => 1 <= Z.of_nat (List.length c) <= 3) chunks /\
    Forall (fun c => Z.of_nat (List.length c) = 3) (removelast chunks).
Proof.
  assert (H1 : 1 <= 3) by lia.
  assert (H2 : (List.length [1; 2; 3; 4; 5; 6; 7] < 8)%nat) by (simpl; lia).
  split; [exact H1|]. split; [exact H2|].
  exact (MoreHelpersFacts.chunk_partitions [1; 2; 3; 4; 5; 6; 7] 3 8 H1 H2).
Defined.

Lemma chunk_never_ends_witness :
  0 <= 0 /\ [1; 2] <> [] /\ chunk 1000 [1; 2] 0 = None.
Proof.
  assert (H1 : 0 <= 0) by lia.
  assert (H2 : [1; 2] <> []) by discriminate.
  split; [exact H1|]. split; [exact H2|].
  exact (MoreHelpersFacts.chunk_never_ends [1; 2] 0 H1 H2 1000%nat).
Defined.

Lemma maskString_hides_witness :
  0 <= 4 /\
  (maskString "hunter2hunter2" 4 = "****" \/
   exists pre mid suf,
     "hunter2hunter2" = (pre ++ mid ++ suf)%string /\
     maskString "hunter2hunter2" 4 = (pre ++ "..." ++ suf)%string /\
     Z.of_nat (String.length pre) = 4 /\
     Z.of_nat (String.length suf) = 4 /\
     mid <> "").
Proof.
  assert (H : 0 <= 4) by lia.
  split; [exact H|].
  exact (FormattingFacts.maskString_hides "hunter2hunter2" 4 H).
Defined.



Lemma batchUpsertAccounts_keys_witness :
  NoDup (pubkeys Scenario.store) /\
  NoDup (pubkeys (batchUpsertAccounts MoreScenario.batch Scenario.store)) /\
  (forall pk,
     In pk (pubkeys (batchUpsertAccounts MoreScenario.batch Scenario.store))
     <-> In pk (pubkeys Scenario.store) \/ In pk (map pubkey MoreScenario.batch)).
Proof.
  assert (H : NoDup (pubkeys Scenario.store)).
  { vm_compute. repeat constructor; simpl; intuition discriminate. }
  split; [exact H|].
  exact (StoreFacts.batchUpsertAccounts_keys MoreScenario.batch Scenario.store H).
Defined.

Lemma upsertAccount_round_trip_witness :
  getAccount (pubkey MoreScenario.R4) Scenario.store = None /\
  normalized MoreScenario.R4 /\
  getAccount (pubkey MoreScenario.R4) (upsertAccount MoreScenario.R4 Scenario.store)
  = Some MoreScenario.R4 /\
  (forall pk, pk <> pubkey MoreScenario.R4 ->
     getAccount pk (upsertAccount MoreScenario.R4 Scenario.store)
     = getAccount pk Scenario.store).
Proof.
  assert (H1 : getAccount (pubkey MoreScenario.R4) Scenario.store = None) by reflexivity.
  assert (H2 : normalized MoreScenario.R4) by (repeat split).
  split; [exact H1|]. split; [exact H2|].
  exact (StoreFacts.upsertAccount_round_trip MoreScenario.R4 Scenario.store H1 H2).
Defined.

Lemma reclaimed_account_stays_ineligible_witness :
  getAccount "R1" Scenario.store <> None /\
  ~ In "R1"
      (map pubkey
         (getReclaimableAccounts 7 50 (Scenario.today + 30 * Scenario.day)
            (apply_ops MoreScenario.later_calls
               (markAsReclaimed "R1" (Some "sigReclaim") 2039280 Scenario.today
                  Scenario.store)))).
Proof.
  assert (H : getAccount "R1" Scenario.store <> None) by (vm_compute; discriminate).
  split; [exact H|].
  exact (StoreFacts.reclaimed_account_stays_ineligible "R1" (Some "sigReclaim") 2039280
           Scenario.today Scenario.store MoreScenario.later_calls 7 50
           (Scenario.today + 30 * Scenario.day) H).
Defined.

Lemma markAsReclaimed_statistics_witness :
  NoDup (pubkeys Scenario.store) /\
  In Scenario.R1 (sponsored_accounts Scenario.store) /\
  r_pubkey Scenario.R1 = "R1" /\
  r_status Scenario.R1 = CLOSED /\
  closedAccounts
    (getStatistics (markAsReclaimed "R1" (Some "sigReclaim") 2039280 Scenario.today
                      Scenario.store))
  = closedAccounts (getStatistics Scenario.store) - 1 /\
  totalReclaimedLamports
    (getStatistics (markAsReclaimed "R1" (Some "sigReclaim") 2039280 Scenario.today
                      Scenario.store))
  = totalReclaimedLamports (getStatistics Scenario.store) + 2039280.
Proof.
  assert (H1 : NoDup (pubkeys Scenario.store)).
  { vm_compute. repeat constructor; simpl; intuition discriminate. }
  assert (H2 : In Scenario.R1 (sponsored_accounts Scenario.store)) by (now left).
  split; [exact H1|]. split; [exact H2|]. split; [reflexivity|]. split; [reflexivity|].
  destruct (StoreFacts.markAsReclaimed_statistics "R1" (Some "sigReclaim") 2039280
              Scenario.today Scenario.store Scenario.R1 H1 H2 eq_refl eq_refl)
    as (Hclosed & _ & _ & Hsum & _).
  split; [exact Hclosed | exact Hsum].
Defined.

Lemma reclaimAccount_blocked_witness :
  In (owner (rowToAccount Scenario.R1)) (blockedPrograms MoreScenario.blocking) /\
  isProgramAllowed Scenario.cfg (owner (rowToAccount Scenario.R1)) = true /\
  trace (fst (reclaimAccount MoreScenario.blocking (rowToAccount Scenario.R1)
                "Treasury" false Scenario.revived_late))
  = trace Scenario.revived_late /\
  served (fst (reclaimAccount MoreScenario.blocking (rowToAccount Scenario.R1)
                 "Treasury" false Scenario.revived_late))
  = served Scenario.revived_late.
Proof.
  assert (H : In (owner (rowToAccount Scenario.R1))
                (blockedPrograms MoreScenario.blocking)) by (now left).
  split; [exact H|]. split; [reflexivity|].
  destruct (SafetyFacts.reclaimAccount_blocked MoreScenario.blocking
              (rowToAccount Scenario.R1) "Treasury" false Scenario.revived_late H)
    as (_ & Htrace & Hserved & _).
  split; [exact Htrace | exact Hserved].
Defined.

Lemma closeSystemAccount_never_succeeds_witness :
  operatorPublicKey Scenario.cfg <> SYSTEM_PROGRAM_ID /\
  (exists o,
     snd (closeSystemAccount Scenario.cfg "R1" "Treasury" false Scenario.revived)
     = Return o /\ o_success o = false /\ o_signature o = None) /\
  steps eq not_submit Scenario.revived
    (fst (closeSystemAccount Scenario.cfg "R1" "Treasury" false Scenario.revived)).
Proof.
  assert (H : operatorPublicKey Scenario.cfg <> SYSTEM_PROGRAM_ID)
    by (vm_compute; discriminate).
  split; [exact H|].
  exact (SafetyFacts.closeSystemAccount_never_succeeds Scenario.cfg "R1" "Treasury"
           false Scenario.revived H).
Defined.

Lemma dry_run_submits_nothing_witness :
  isDryRun Scenario.cfg None = true /\
  steps simulated not_submit Scenario.quiet
    (fst (runReclaimCycle Scenario.cfg None Scenario.quiet)).
Proof.
  assert (H : isDryRun Scenario.cfg None = true) by reflexivity.
  split; [exact H|].
  exact (CycleFacts.dry_run_submits_nothing Scenario.cfg None Scenario.quiet H).
Defined.

Lemma runReclaimCycle_summary_witness :
  exists s,
    snd (runReclaimCycle Scenario.cfg None Scenario.quiet) = Return s /\
    map account (results s) = map pubkey (eligible Scenario.cfg Scenario.quiet) /\
    totalProcessed s = 2%nat /\
    (successCount s + failedCount s = totalProcessed s)%nat.
Proof.
  destruct (snd (runReclaimCycle Scenario.cfg None Scenario.quiet)) as [s|e] eqn:E;
    [|vm_compute in E; discriminate].
  exists s. split; [reflexivity|].
  destruct (CycleFacts.runReclaimCycle_summary Scenario.cfg None Scenario.quiet s E)
    as (Hmap & _ & Hlen & _ & Hsum & _).
  split; [exact Hmap|]. split; [|exact Hsum].
  rewrite Hlen. vm_compute. reflexivity.
Defined.

Lemma discoverNewAccounts_count_witness :
  discoverNewAccounts Scenario.cfg 5 Scenario.fresh
  = Some (Reached.discovered, Return 2) /\
  row_count Reached.discovered = row_count Scenario.fresh + 2 /\ 0 <= 2.
Proof.
  assert (H : discoverNewAccounts Scenario.cfg 5 Scenario.fresh
              = Some (Reached.discovered, Return 2))
    by (vm_compute; reflexivity).
  split; [exact H|].
  exact (MonitoringFacts.discoverNewAccounts_count Scenario.cfg 5 Scenario.fresh
           Reached.discovered 2 H).
Defined.

End MoreWitnesses.
